(** * enform: a one-line schema language and its binary codec

    A shallow embedding of [src/main.py]: the classes [Field], [Form] and
    [FormParser], the parts of the [bitstring] package and of the Python
    runtime they call, and the properties of the codec and of the parser.

    Conventions.
    - A Python [str] is the list of its code points, [bytes] is a list of
      [Byte.byte].
    - A raised exception is the [Raise] branch of [result]; the parser's
      [Exception(f"...")] messages are constructors that carry the values
      the message interpolates.
    - What Python takes from the Unicode database, from libm and from
      IEEE-754 (character classes, [int()], [float()], [math.log2], float
      packing) is a field of [Runtime]; the facts about them that a proof
      needs are stated as explicit hypotheses. *)

From Stdlib Require Import ZArith QArith Qround List Bool Lia Ascii String.
From Stdlib Require Import Strings.Byte DecimalString.
Import ListNotations.
Local Open Scope Z_scope.

(** ** Text and bytes *)

Definition codepoint := N.
Definition str := list codepoint.

(** The code points of a literal. *)
Definition cps (s : string) : str := map N_of_ascii (list_ascii_of_string s).

Definition NUL : codepoint := 0%N.

Definition str_eqb (a b : str) : bool :=
  if list_eq_dec N.eq_dec a b then true else false.

Definition Z_of_byte (b : byte) : Z := Z.of_N (Byte.to_N b).

Definition byte_of_Z (z : Z) : byte :=
  match Byte.of_N (Z.to_N (z mod 256)) with
  | Some b => b
  | None => x00
  end.

(** Big-endian value of a byte string. *)
Definition be_uint (bs : list byte) : Z :=
  fold_left (fun acc b => acc * 256 + Z_of_byte b) bs 0.

(** The [k] low-order bytes of [v], most significant first. *)
Fixpoint be_bytes (k : nat) (v : Z) : list byte :=
  match k with
  | O => []
  | S k' => be_bytes k' (v / 256) ++ [byte_of_Z (v mod 256)]
  end.

(** [l[a:b]] for [0 <= a]. *)
Definition slice {A} (a b : nat) (l : list A) : list A :=
  firstn (b - a) (skipn a l).

(** ** Exceptions *)

Inductive exn : Type :=
| IndexError
| KeyError
| ValueError
| TypeError
| EOFError
| UnicodeError
| CreationError                                  (* bitstring.pack *)
| ReadError                                      (* bitstring unpack *)
| InterpretError                                 (* bitstring: a read of no bits *)
| Expected (c : codepoint) (pos : nat) (got : codepoint)
| WordStart (got : codepoint) (pos : nat)
| ExpectedType (pos : nat) (got : codepoint)
| ExpectedBitsize (allowed : list Z) (pos : nat) (got : Z)
| InvalidEnum (items : list str) (got : str)
| Diverges.                                      (* a loop that never exits *)

Inductive result (A : Type) : Type :=
| Ok (a : A)
| Raise (e : exn).
Arguments Ok {A} a.
Arguments Raise {A} e.

Definition bind {A B} (r : result A) (k : A -> result B) : result B :=
  match r with
  | Ok a => k a
  | Raise e => Raise e
  end.

Notation "x <- r ;; k" := (bind r (fun x => k))
  (at level 61, r at next level, right associativity).
Notation "' p <- r ;; k" := (bind r (fun p => k))
  (at level 61, p pattern, r at next level, right associativity).

Definition of_option {A} (e : exn) (o : option A) : result A :=
  match o with
  | Some a => Ok a
  | None => Raise e
  end.

(** ** The Python runtime *)

Record Runtime : Type := {
  isalpha : codepoint -> bool;              (* str.isalpha on one character *)
  isalnum : codepoint -> bool;              (* str.isalnum *)
  isnumeric : codepoint -> bool;            (* str.isnumeric *)
  int_of_str : str -> option Z;             (* int(s); None is ValueError *)
  float : Type;                             (* Python float *)
  float_of_str : str -> option float;       (* float(s); None is ValueError *)
  float_pack : Z -> float -> option Z;      (* IEEE pattern of the given width *)
  float_unpack : Z -> Z -> option float;    (* the float a pattern denotes *)
  log2 : Z -> Q                             (* math.log2 on a positive int *)
}.

Definition ascii_alpha (c : codepoint) : bool :=
  ((65 <=? c) && (c <=? 90) || (97 <=? c) && (c <=? 122))%N.

Definition ascii_digit (c : codepoint) : bool :=
  ((48 <=? c) && (c <=? 57))%N.

Definition is_ascii (c : codepoint) : bool := (c <? 128)%N.

(** Value of a string of ASCII digits. *)
Definition decimal (s : str) : Z :=
  fold_left (fun acc c => acc * 10 + (Z.of_N c - 48)) s 0.

(** On ASCII the character classes are the familiar ones. *)
Definition ascii_classes (rt : Runtime) : Prop :=
  forall c, (c < 128)%N ->
    isalpha rt c = ascii_alpha c /\
    isalnum rt c = (ascii_alpha c || ascii_digit c) /\
    isnumeric rt c = ascii_digit c.

(** The number of digits up to which [int] converts a string: the default
    of [sys.get_int_max_str_digits()]; releases without the limit convert
    these strings as well. *)
Definition int_max_str_digits : nat := 4300.

(** [int] reads a plain ASCII numeral in base ten that has no more digits
    than the limit. *)
Definition ascii_int (rt : Runtime) : Prop :=
  forall s, s <> [] -> forallb ascii_digit s = true ->
    (List.length s <= int_max_str_digits)%nat ->
    int_of_str rt s = Some (decimal s).

(** [math.ceil(math.log2(m))] is the exact value, as it is for every
    length a list can have in memory. *)
Definition log2_exact (rt : Runtime) : Prop :=
  forall m, 1 <= m -> Qceiling (log2 rt m) = Z.log2_up m.

(** [int(x)] on a float: truncation toward zero. *)
Definition int_of_float (x : Q) : Z := Z.quot (Qnum x) (Zpos (Qden x)).

(** ** UTF-8 *)

Module utf8.

Definition cont (b : N) : bool := ((128 <=? b) && (b <=? 191))%N.

Definition put (n : N) : byte :=
  match Byte.of_N n with Some b => b | None => x00 end.

(** [chr(c).encode("utf-8")]; surrogates cannot be encoded. *)
Definition encode_char (c : codepoint) : option (list byte) :=
  if (c <? 128)%N then Some [put c]
  else if (c <? 2048)%N then
    Some [put (192 + c / 64); put (128 + c mod 64)]%N
  else if (c <? 65536)%N then
    if ((55296 <=? c) && (c <=? 57343))%N then None
    else Some [put (224 + c / 4096); put (128 + (c / 64) mod 64);
               put (128 + c mod 64)]%N
  else if (c <? 1114112)%N then
    Some [put (240 + c / 262144); put (128 + (c / 4096) mod 64);
          put (128 + (c / 64) mod 64); put (128 + c mod 64)]%N
  else None.

Fixpoint encode (s : str) : result (list byte) :=
  match s with
  | [] => Ok []
  | c :: s' =>
      b <- of_option UnicodeError (encode_char c) ;;
      bs <- encode s' ;;
      Ok (b ++ bs)
  end.

(** [bs.decode("utf-8")], strict: no overlong forms, no surrogates, nothing
    above U+10FFFF. *)
Fixpoint decode_n (bs : list N) : result str :=
  match bs with
  | [] => Ok []
  | b0 :: r0 =>
      if (b0 <? 128)%N then
        s <- decode_n r0 ;; Ok (b0 :: s)
      else if ((194 <=? b0) && (b0 <=? 223))%N then
        match r0 with
        | b1 :: r1 =>
            if cont b1 then
              s <- decode_n r1 ;;
              Ok (((b0 - 192) * 64 + (b1 - 128)) :: s)%N
            else Raise UnicodeError
        | _ => Raise UnicodeError
        end
      else if ((224 <=? b0) && (b0 <=? 239))%N then
        match r0 with
        | b1 :: b2 :: r2 =>
            if cont b1 && cont b2
               && (negb (b0 =? 224) || (160 <=? b1))%N
               && (negb (b0 =? 237) || (b1 <=? 159))%N
            then
              s <- decode_n r2 ;;
              Ok (((b0 - 224) * 4096 + (b1 - 128) * 64 + (b2 - 128)) :: s)%N
            else Raise UnicodeError
        | _ => Raise UnicodeError
        end
      else if ((240 <=? b0) && (b0 <=? 244))%N then
        match r0 with
        | b1 :: b2 :: b3 :: r3 =>
            if cont b1 && cont b2 && cont b3
               && (negb (b0 =? 240) || (144 <=? b1))%N
               && (negb (b0 =? 244) || (b1 <=? 143))%N
            then
              s <- decode_n r3 ;;
              Ok (((b0 - 240) * 262144 + (b1 - 128) * 4096
                   + (b2 - 128) * 64 + (b3 - 128)) :: s)%N
            else Raise UnicodeError
        | _ => Raise UnicodeError
        end
      else Raise UnicodeError
  end.

Definition decode (bs : list byte) : result str :=
  decode_n (map Byte.to_N bs).

End utf8.

(** ** The part of [bitstring] the program uses

    A bit string is its length in bits and its value read as an unsigned
    big-endian number. *)

Module bitstring.

Record Bits : Type := { len : Z; uint : Z }.

(** [bitstring.pack("uint:n", v)] *)
Definition pack_uint (n v : Z) : result Bits :=
  if (0 <? n) && (0 <=? v) && (v <? 2 ^ n)
  then Ok {| len := n; uint := v |}
  else Raise CreationError.

(** [bitstring.pack("int:n", v)], two's complement *)
Definition pack_int (n v : Z) : result Bits :=
  if (0 <? n) && (- 2 ^ (n - 1) <=? v) && (v <? 2 ^ (n - 1))
  then Ok {| len := n; uint := v mod 2 ^ n |}
  else Raise CreationError.

(** [bitstring.pack("bytes:n", data)]: the token's length has to be the
    length of the data. *)
Definition pack_bytes (n : nat) (data : list byte) : result Bits :=
  if Nat.eqb n (List.length data)
  then Ok {| len := 8 * Z.of_nat (List.length data); uint := be_uint data |}
  else Raise CreationError.

(** [.tobytes()]: zero bits are added on the right up to a whole byte. *)
Definition tobytes (b : Bits) : list byte :=
  let nbytes := (len b + 7) / 8 in
  be_bytes (Z.to_nat nbytes) (uint b * 2 ^ (8 * nbytes - len b)).

(** [bitstring.BitStream(bytes=bs)] *)
Definition BitStream (bs : list byte) : Bits :=
  {| len := 8 * Z.of_nat (List.length bs); uint := be_uint bs |}.

(** [stream.unpack("uint:n")[0]]: the leading [n] bits.  A read of no
    bits cannot be interpreted as an integer, whatever the stream holds. *)
Definition unpack_uint (n : Z) (s : Bits) : result Z :=
  if n =? 0 then Raise InterpretError
  else if (0 <? n) && (n <=? len s)
  then Ok (Z.shiftr (uint s) (len s - n))
  else Raise ReadError.

(** [stream.unpack("int:n")[0]] *)
Definition unpack_int (n : Z) (s : Bits) : result Z :=
  u <- unpack_uint n s ;;
  Ok (if u <? 2 ^ (n - 1) then u else u - 2 ^ n).

End bitstring.

(** ** Dictionaries

    A [dict] keeps its keys in the order of their first insertion;
    assigning to a key that is present replaces the value in place. *)

Definition dict (V : Type) : Type := list (str * V).

Fixpoint dict_set {V} (k : str) (v : V) (d : dict V) : dict V :=
  match d with
  | [] => [(k, v)]
  | (k', v') :: d' =>
      if str_eqb k k' then (k, v) :: d' else (k', v') :: dict_set k v d'
  end.

Fixpoint dict_get {V} (k : str) (d : dict V) : option V :=
  match d with
  | [] => None
  | (k', v') :: d' => if str_eqb k k' then Some v' else dict_get k d'
  end.

(** ** Fields *)

Inductive FieldType : Type := INTEGER | FLOAT | STRING | ENUM.

(** What the parser stores in [Field.value]: a bit size for [INTEGER] and
    [FLOAT], [None] for [STRING], the items for [ENUM]. *)
Inductive FieldValue : Type :=
| Bitsize (bits : Z)
| NoValue
| Items (items : list str).

Record Field : Type := { name : str; type : FieldType; value : FieldValue }.

(** A decoded value. *)
Inductive pyvalue (rt : Runtime) : Type :=
| VInt (z : Z)
| VFloat (x : float rt)
| VStr (s : str).
Arguments VInt {rt} z.
Arguments VFloat {rt} x.
Arguments VStr {rt} s.

(** [l.index(x)] *)
Fixpoint index {A} (eqb : A -> A -> bool) (x : A) (l : list A) : option nat :=
  match l with
  | [] => None
  | y :: l' => if eqb y x then Some O else option_map S (index eqb x l')
  end.

Definition byte_eqb (a b : byte) : bool := Byte.eqb a b.

Module Field.
Section WithRuntime.
Context (rt : Runtime).

Definition bitsize (e : exn) (v : FieldValue) : result Z :=
  match v with Bitsize bits => Ok bits | _ => Raise e end.

Definition items_of (v : FieldValue) : result (list str) :=
  match v with Items items => Ok items | _ => Raise TypeError end.

(** [math.ceil(math.log2(len(self.value) + 1))] *)
Definition enum_bits (items : list str) : Z :=
  Qceiling (log2 rt (Z.of_nat (List.length items) + 1)).

(** [Field.encode].  A float is packed through its IEEE pattern of [bits]
    bits; a width or a magnitude that cannot be packed raises. *)
Definition encode (f : Field) (input : str) : result (list byte) :=
  match type f with
  | INTEGER =>
      v <- of_option ValueError (int_of_str rt input) ;;
      bits <- bitsize CreationError (value f) ;;
      b <- bitstring.pack_int bits v ;;
      Ok (bitstring.tobytes b)
  | FLOAT =>
      x <- of_option ValueError (float_of_str rt input) ;;
      bits <- bitsize CreationError (value f) ;;
      p <- of_option CreationError (float_pack rt bits x) ;;
      Ok (bitstring.tobytes
            {| bitstring.len := bits; bitstring.uint := p mod 2 ^ bits |})
  | STRING =>
      let v := input ++ [NUL] in
      data <- utf8.encode v ;;
      b <- bitstring.pack_bytes (List.length v) data ;;
      Ok (bitstring.tobytes b)
  | ENUM =>
      items <- items_of (value f) ;;
      if negb (existsb (str_eqb input) items)
      then Raise (InvalidEnum items input)
      else
        let bits := enum_bits items in
        i <- of_option ValueError (index str_eqb input items) ;;
        b <- bitstring.pack_uint bits (Z.of_nat i) ;;
        Ok (bitstring.tobytes b)
  end.

(** [Field.decode]; [offset] is never negative in [Form.decode]. *)
Definition decode (f : Field) (input : list byte) (offset : nat)
  : result (pyvalue rt) :=
  let stream := bitstring.BitStream (skipn offset input) in
  match type f with
  | INTEGER =>
      bits <- bitsize ReadError (value f) ;;
      v <- bitstring.unpack_int bits stream ;;
      Ok (VInt v)
  | FLOAT =>
      bits <- bitsize ReadError (value f) ;;
      u <- bitstring.unpack_uint bits stream ;;
      x <- of_option ReadError (float_unpack rt bits u) ;;
      Ok (VFloat x)
  | STRING =>
      zero_at <- of_option ValueError (index byte_eqb x00 (skipn offset input)) ;;
      let stream := bitstring.BitStream (slice offset (offset + zero_at) input) in
      s <- utf8.decode (bitstring.tobytes stream) ;;
      Ok (VStr s)
  | ENUM =>
      items <- items_of (value f) ;;
      let bits := enum_bits items in
      i <- bitstring.unpack_uint bits stream ;;
      s <- of_option IndexError (nth_error items (Z.to_nat i)) ;;
      Ok (VStr s)
  end.

(** [Field.size]; the result is a float for [INTEGER] and [FLOAT]. *)
Definition size (f : Field) : result Q :=
  match type f with
  | INTEGER | FLOAT =>
      bits <- bitsize TypeError (value f) ;;
      Ok (inject_Z bits / inject_Z 8)%Q
  | STRING => Ok (inject_Z 0)
  | ENUM =>
      items <- items_of (value f) ;;
      Ok (inject_Z
            (Qceiling (log2 rt (Z.of_nat (List.length items) + 1) / inject_Z 8)%Q))
  end.

End WithRuntime.
End Field.

(** ** Forms *)

Record Form : Type := { fields : list Field }.

Module Form.
Section WithRuntime.
Context (rt : Runtime).

Definition add_field (form : Form) (field : Field) : Form :=
  {| fields := fields form ++ [field] |}.

Definition create_field (form : Form) (n : str) (t : FieldType) (v : FieldValue)
  : Form :=
  add_field form {| name := n; type := t; value := v |}.

(** [input(prompt)]: the next line of the standard input. *)
Definition input (stdin : list str) : result (str * list str) :=
  match stdin with
  | [] => Raise EOFError
  | line :: rest => Ok (line, rest)
  end.

(** The loop of [Form.encode], over the lines typed at the prompts; the two
    branches on the type of the field differ in the prompt they print. *)
Fixpoint encode_loop (fs : list Field) (stdin : list str) (v : list byte)
  : result (list byte * list str) :=
  match fs with
  | [] => Ok (v, stdin)
  | field :: fs' =>
      '(line, stdin') <- input stdin ;;
      b <- Field.encode rt field line ;;
      encode_loop fs' stdin' (v ++ b)
  end.

Definition encode (form : Form) (stdin : list str)
  : result (list byte * list str) :=
  encode_loop (fields form) stdin [].

(** [len(obj[field.name])] *)
Definition len_of (obj : dict (pyvalue rt)) (k : str) : result nat :=
  v <- of_option KeyError (dict_get k obj) ;;
  match v with
  | VStr s => Ok (List.length s)
  | _ => Raise TypeError
  end.

(** One turn of the loop of [Form.decode].  A field that decodes has a
    positive width, so the offset stays a natural number. *)
Definition decode_step (input : list byte) (field : Field)
  (st : dict (pyvalue rt) * nat) : result (dict (pyvalue rt) * nat) :=
  let '(obj, offset) := st in
  v <- Field.decode rt field input offset ;;
  let obj := dict_set (name field) v obj in
  match type field with
  | STRING =>
      n <- len_of obj (name field) ;;
      Ok (obj, (offset + (n + 1))%nat)
  | _ =>
      sz <- Field.size rt field ;;
      Ok (obj, (offset + Z.to_nat (int_of_float sz))%nat)
  end.

Fixpoint decode_loop (fs : list Field) (input : list byte)
  (st : dict (pyvalue rt) * nat) : result (dict (pyvalue rt) * nat) :=
  match fs with
  | [] => Ok st
  | field :: fs' =>
      st' <- decode_step input field st ;;
      decode_loop fs' input st'
  end.

(** [Form.decode] *)
Definition decode (form : Form) (input : list byte) : result (dict (pyvalue rt)) :=
  '(obj, _) <- decode_loop (fields form) input ([], O) ;;
  Ok obj.

End WithRuntime.
End Form.

(** ** The schema parser *)

Module FormParser.

(** The attributes of a [FormParser]. *)
Record state : Type := {
  source : str;
  length : nat;
  cursor : nat;
  char : codepoint
}.

Definition M (A : Type) : Type := state -> result (A * state).

Section WithRuntime.
Context (rt : Runtime).

Definition advance (st : state) : state :=
  let c := S (cursor st) in
  {| source := source st;
     length := length st;
     cursor := c;
     char := if (c <? length st)%nat then nth c (source st) NUL else NUL |}.

Definition expect (c : codepoint) : M unit := fun st =>
  if (char st =? c)%N then Ok (tt, advance st)
  else Raise (Expected c (cursor st) (char st)).

(** [while p(self.char): self.advance()].  The cursor moves one step each
    turn; past the end of the source the character stays [NUL], so with no
    fuel left and [p] still true the loop never exits. *)
Fixpoint advance_while (p : codepoint -> bool) (fuel : nat) (st : state)
  : result state :=
  if p (char st) then
    match fuel with
    | O => Raise Diverges
    | S fuel' => advance_while p fuel' (advance st)
    end
  else Ok st.

Definition remaining (st : state) : nat := (length st - cursor st)%nat.

Definition underscore : codepoint := 95%N.

Definition collect_word : M str := fun st =>
  let start := cursor st in
  if negb (isalpha rt (char st)) then Raise (WordStart (char st) (cursor st))
  else
    st' <- advance_while (fun c => isalnum rt c || (c =? underscore)%N)
             (remaining st) st ;;
    Ok (slice start (cursor st') (source st'), st').

(** The second definition of [collect_integer] in the class is the one in
    force: it returns the text of the digits. *)
Definition collect_integer : M str := fun st =>
  let start := cursor st in
  st' <- advance_while (isnumeric rt) (remaining st) st ;;
  Ok (slice start (cursor st') (source st'), st').

Definition collect_bitsize (allowed : list Z) (default : Z) : M Z := fun st =>
  if isnumeric rt (char st) then
    '(digits, st') <- collect_integer st ;;
    bitsize <- of_option ValueError (int_of_str rt digits) ;;
    if negb (existsb (Z.eqb bitsize) allowed)
    then Raise (ExpectedBitsize allowed (cursor st') bitsize)
    else Ok (bitsize, st')
  else Ok (default, st).

Definition collect_bitsize_integer : M Z := collect_bitsize [8; 16; 32; 64] 8.

Definition collect_bitsize_float : M Z := collect_bitsize [32; 64] 32.

(** The [while True] loop of [collect_enum]. *)
Fixpoint enum_loop (fuel : nat) (items : list str) (st : state)
  : result (list str * state) :=
  match fuel with
  | O => Raise Diverges
  | S fuel' =>
      '(w, st1) <- collect_word st ;;
      let items := items ++ [w] in
      if negb (char st1 =? 59)%N then
        '(_, st2) <- expect 44%N st1 ;;
        enum_loop fuel' items st2
      else Ok (items, advance st1)
  end.

Definition collect_enum : M (list str) := fun st =>
  '(_, st1) <- expect 91%N st ;;
  enum_loop (S (remaining st1)) [] st1.

Definition collect_type_and_value : M (FieldType * FieldValue) := fun st =>
  if (char st =? 105)%N then
    '(b, st') <- collect_bitsize_integer (advance st) ;;
    Ok ((INTEGER, Bitsize b), st')
  else if (char st =? 102)%N then
    '(b, st') <- collect_bitsize_float (advance st) ;;
    Ok ((FLOAT, Bitsize b), st')
  else if (char st =? 115)%N then
    Ok ((STRING, NoValue), advance st)
  else if (char st =? 101)%N then
    '(items, st') <- collect_enum (advance st) ;;
    Ok ((ENUM, Items items), st')
  else Raise (ExpectedType (cursor st) (char st)).

(** The body of the loop of [parse_form] up to [create_field], with the
    field that [create_field] builds. *)
Definition parse_field : M Field := fun st =>
  '(field_name, st1) <- collect_word st ;;
  '(_, st2) <- expect 58%N st1 ;;
  '((field_type, field_value), st3) <- collect_type_and_value st2 ;;
  Ok ({| name := field_name; type := field_type; value := field_value |}, st3).

(** The loop of [parse_form]. *)
Fixpoint form_loop (fuel : nat) (form : Form) (st : state)
  : result (Form * state) :=
  if (cursor st <? length st)%nat then
    match fuel with
    | O => Raise Diverges
    | S fuel' =>
        '(field, st1) <- parse_field st ;;
        let form := Form.add_field form field in
        if negb (char st1 =? 44)%N then Ok (form, st1)
        else form_loop fuel' form (advance st1)
    end
  else Ok (form, st).

(** [parse_form], with the parser it leaves behind. *)
Definition parse_form_run (codeform : str) : result (Form * state) :=
  match codeform with
  | [] => Raise IndexError
  | c :: _ =>
      let st := {| source := codeform;
                   length := List.length codeform;
                   cursor := O;
                   char := c |} in
      form_loop (List.length codeform) {| fields := [] |} st
  end.

Definition parse_form (codeform : str) : result Form :=
  '(form, _) <- parse_form_run codeform ;;
  Ok form.

End WithRuntime.
End FormParser.

(** ** A runtime for plain ASCII text

    Its character classes are Python's on ASCII and empty elsewhere, its
    [int] reads decimal numerals with an optional minus sign, its [log2] is
    the binary logarithm rounded up to an integer (which leaves the
    ceilings the program takes as they are), and it has no floats.  The
    examples below run on it. *)

Definition ascii_numeral (s : str) : option Z :=
  match s with
  | [] => None
  | c :: s' =>
      if (c =? 45)%N then
        if forallb ascii_digit s' && negb (Nat.eqb (List.length s') 0)
        then Some (- decimal s') else None
      else if forallb ascii_digit s then Some (decimal s) else None
  end.

Definition ascii_runtime : Runtime := {|
  isalpha := fun c => (c <? 128)%N && ascii_alpha c;
  isalnum := fun c => (c <? 128)%N && (ascii_alpha c || ascii_digit c);
  isnumeric := fun c => (c <? 128)%N && ascii_digit c;
  int_of_str := ascii_numeral;
  float := Empty_set;
  float_of_str := fun _ => None;
  float_pack := fun _ _ => None;
  float_unpack := fun _ _ => None;
  log2 := fun m => inject_Z (Z.log2_up m)
|}.

(** ** Reading a form's values back

    The fields of the data model whose width does not depend on the data:
    integers of 8, 16, 32 or 64 bits, floats of 32 or 64 bits, enums. *)

Definition fixed_width (f : Field) : bool :=
  match type f, value f with
  | INTEGER, Bitsize bits => existsb (Z.eqb bits) [8; 16; 32; 64]
  | FLOAT, Bitsize bits => existsb (Z.eqb bits) [32; 64]
  | ENUM, Items _ => true
  | _, _ => false
  end.

(** The value a text stands for under a field: the integer it spells, the
    enum item itself, and for a float the number that the packed pattern of
    [float(text)] denotes (a 32-bit pattern has less precision than a Python
    float). *)
Definition denoted (rt : Runtime) (f : Field) (text : str)
  : result (pyvalue rt) :=
  match type f with
  | INTEGER =>
      v <- of_option ValueError (int_of_str rt text) ;;
      Ok (VInt v)
  | FLOAT =>
      x <- of_option ValueError (float_of_str rt text) ;;
      bits <- Field.bitsize CreationError (value f) ;;
      p <- of_option CreationError (float_pack rt bits x) ;;
      y <- of_option ReadError (float_unpack rt bits (p mod 2 ^ bits)) ;;
      Ok (VFloat y)
  | STRING => Ok (VStr text)
  | ENUM => Ok (VStr text)
  end.

Fixpoint denoted_all (rt : Runtime) (fs : list Field) (texts : list str)
  : result (list (pyvalue rt)) :=
  match fs, texts with
  | [], _ => Ok []
  | _ :: _, [] => Raise EOFError
  | f :: fs', t :: texts' =>
      v <- denoted rt f t ;;
      vs <- denoted_all rt fs' texts' ;;
      Ok (v :: vs)
  end.

(** ** Parser states of a given source

    The parser at position [k] of [s]: what [self] holds whenever the
    cursor is [k]. *)

Definition at_pos (s : str) (k : nat) : FormParser.state :=
  {| FormParser.source := s;
     FormParser.length := List.length s;
     FormParser.cursor := k;
     FormParser.char := nth k s NUL |}.

(** An integer or a float field: digits that follow its type letter are
    read as its bit size. *)
Definition has_bitsize (t : FieldType) : bool :=
  match t with
  | INTEGER | FLOAT => true
  | STRING | ENUM => false
  end.

Definition ends_with_bitsize (form : Form) : bool :=
  match rev (fields form) with
  | f :: _ => has_bitsize (type f)
  | [] => false
  end.

(** ** The fields the parser builds

    Every field of a parsed form is a string field or one of the
    fixed-width fields of the data model. *)

Definition parsed_field (f : Field) : bool :=
  match type f, value f with
  | STRING, NoValue => true
  | _, _ => fixed_width f
  end.

(** ** Whole forms

    The sum of the steps [int(field.size())] that [Form.decode] takes over
    the fields of a form. *)

Fixpoint total_size (rt : Runtime) (fs : list Field) : result Z :=
  match fs with
  | [] => Ok 0
  | f :: fs' =>
      sz <- Field.size rt f ;;
      n <- total_size rt fs' ;;
      Ok (int_of_float sz + n)
  end.

(** A text that a string field gives back: ASCII, with no NUL in it. *)
Definition plain_text (text : str) : bool :=
  forallb is_ascii text && negb (existsb (N.eqb NUL) text).

(** The texts given to the string fields of a form are plain. *)
Fixpoint plain_strings (fs : list Field) (texts : list str) : bool :=
  match fs, texts with
  | f :: fs', t :: texts' =>
      match type f with
      | STRING => plain_text t
      | _ => true
      end && plain_strings fs' texts'
  | _, _ => true
  end.

(** ** The parser further along in a longer source

    A parser of [source] seen as a parser of [p ++ source]: the cursor and
    the positions in the errors move by the length of [p]. *)

Definition shift_state (p : str) (st : FormParser.state) : FormParser.state :=
  {| FormParser.source := p ++ FormParser.source st;
     FormParser.length := (List.length p + FormParser.length st)%nat;
     FormParser.cursor := (List.length p + FormParser.cursor st)%nat;
     FormParser.char := FormParser.char st |}.

Definition shift_exn (n : nat) (e : exn) : exn :=
  match e with
  | Expected c pos got => Expected c (n + pos) got
  | WordStart got pos => WordStart got (n + pos)
  | ExpectedType pos got => ExpectedType (n + pos) got
  | ExpectedBitsize allowed pos got => ExpectedBitsize allowed (n + pos) got
  | _ => e
  end.

Definition shift_result {A} (p : str) (r : result (A * FormParser.state))
  : result (A * FormParser.state) :=
  match r with
  | Ok (a, st) => Ok (a, shift_state p st)
  | Raise e => Raise (shift_exn (List.length p) e)
  end.

(** ** Words

    What [collect_word] takes for an identifier: a letter first, then
    characters that are alphanumeric or an underscore. *)

Definition word_char (rt : Runtime) (c : codepoint) : bool :=
  isalnum rt c || (c =? FormParser.underscore)%N.

Definition is_word (rt : Runtime) (w : str) : bool :=
  match w with
  | [] => false
  | c :: _ => isalpha rt c && forallb (word_char rt) w
  end.

(** [",".join(items)] *)
Fixpoint join_comma (items : list str) : str :=
  match items with
  | [] => []
  | [w] => w
  | w :: items' => w ++ 44%N :: join_comma items'
  end.

(** A letter is alphanumeric, as in Python. *)
Definition alpha_is_alnum (rt : Runtime) : Prop :=
  forall c, isalpha rt c = true -> isalnum rt c = true.

(** The name of a field is a word, and so are the items of an enum, of
    which there is one at least. *)
Definition field_words (rt : Runtime) (f : Field) : bool :=
  is_word rt (name f) &&
  match value f with
  | Items items =>
      negb (Nat.eqb (List.length items) 0) && forallb (is_word rt) items
  | _ => true
  end.

(** ** Schema text

    The text of a field in the notation that [FormParser] reads: the name,
    a colon, the type letter and, after it, the bit size in base ten or the
    items of the enum between [[] and [;]. *)

Definition bits_text (bits : Z) : str :=
  cps (NilEmpty.string_of_uint (N.to_uint (Z.to_N bits))).

Definition type_text (f : Field) : str :=
  match type f, value f with
  | INTEGER, Bitsize bits => 105%N :: bits_text bits
  | FLOAT, Bitsize bits => 102%N :: bits_text bits
  | ENUM, Items items => 101%N :: 91%N :: join_comma items ++ [59%N]
  | _, _ => [115%N]
  end.

Definition field_text (f : Field) : str := name f ++ 58%N :: type_text f.

Definition form_text (fs : list Field) : str :=
  join_comma (map field_text fs).

(** ** The model on the examples of the specification *)

Example parse_name_age :
  FormParser.parse_form ascii_runtime (cps "name:s,age:i8")
  = Ok {| fields :=
            [{| name := cps "name"; type := STRING; value := NoValue |};
             {| name := cps "age"; type := INTEGER; value := Bitsize 8 |}] |}.
Proof.
  reflexivity.
Qed.

Example encode_bob_30 :
  Form.encode ascii_runtime
    {| fields :=
         [{| name := cps "name"; type := STRING; value := NoValue |};
          {| name := cps "age"; type := INTEGER; value := Bitsize 8 |}] |}
    [cps "bob"; cps "30"]
  = Ok ([x62; x6f; x62; x00; x1e], []).
Proof.
  reflexivity.
Qed.

Example decode_bob_30 :
  Form.decode ascii_runtime
    {| fields :=
         [{| name := cps "name"; type := STRING; value := NoValue |};
          {| name := cps "age"; type := INTEGER; value := Bitsize 8 |}] |}
    [x62; x6f; x62; x00; x1e]
  = Ok [(cps "name", VStr (cps "bob")); (cps "age", VInt 30)].
Proof.
  reflexivity.
Qed.

Example encode_unknown_enum_value :
  bind (FormParser.parse_form ascii_runtime (cps "s:e[on,off;]"))
       (fun form => Form.encode ascii_runtime form [cps "maybe"])
  = Raise (InvalidEnum [cps "on"; cps "off"] (cps "maybe")).
Proof.
  reflexivity.
Qed.

Example bare_types_default :
  FormParser.parse_form ascii_runtime (cps "a:i,b:f,c:i64,d:f64")
  = Ok {| fields :=
            [{| name := cps "a"; type := INTEGER; value := Bitsize 8 |};
             {| name := cps "b"; type := FLOAT; value := Bitsize 32 |};
             {| name := cps "c"; type := INTEGER; value := Bitsize 64 |};
             {| name := cps "d"; type := FLOAT; value := Bitsize 64 |}] |}.
Proof.
  reflexivity.
Qed.

Example bitsize_not_allowed :
  FormParser.parse_form ascii_runtime (cps "a:i7")
  = Raise (ExpectedBitsize [8; 16; 32; 64] 4 7).
Proof.
  reflexivity.
Qed.

(** ** Bytes and big-endian numbers *)

Lemma Z_of_byte_range (b : byte) : 0 <= Z_of_byte b < 256.
Proof.
  unfold Z_of_byte. pose proof (Byte.to_N_bounded b). lia.
Qed.

Lemma Z_of_byte_of_Z (z : Z) : Z_of_byte (byte_of_Z z) = z mod 256.
Proof.
  unfold Z_of_byte, byte_of_Z.
  pose proof (Z.mod_pos_bound z 256 ltac:(lia)) as Hr.
  destruct (Byte.of_N (Z.to_N (z mod 256))) as [b|] eqn:E.
  - apply Byte.to_of_N in E. rewrite E. lia.
  - apply Byte.of_N_None_iff in E. lia.
Qed.

Lemma byte_of_Z_of_byte (b : byte) : byte_of_Z (Z_of_byte b) = b.
Proof.
  unfold byte_of_Z. pose proof (Z_of_byte_range b).
  rewrite Z.mod_small by lia. unfold Z_of_byte.
  rewrite N2Z.id, Byte.of_to_N. reflexivity.
Qed.

Lemma be_uint_fold (bs : list byte) (a : Z) :
  fold_left (fun acc b => acc * 256 + Z_of_byte b) bs a
  = a * 256 ^ Z.of_nat (List.length bs) + be_uint bs.
Proof.
  unfold be_uint. revert a.
  induction bs as [|b bs IH]; intros a.
  - simpl. lia.
  - cbn [fold_left List.length]. rewrite IH, (IH (0 * 256 + _)).
    rewrite Nat2Z.inj_succ, Z.pow_succ_r by lia. ring.
Qed.

Lemma be_uint_cons (b : byte) (bs : list byte) :
  be_uint (b :: bs) = Z_of_byte b * 256 ^ Z.of_nat (List.length bs) + be_uint bs.
Proof.
  unfold be_uint at 1. cbn [fold_left]. rewrite be_uint_fold. ring.
Qed.

Lemma be_uint_app (a b : list byte) :
  be_uint (a ++ b) = be_uint a * 256 ^ Z.of_nat (List.length b) + be_uint b.
Proof.
  unfold be_uint at 1. rewrite fold_left_app.
  fold (be_uint a). apply be_uint_fold.
Qed.

Lemma be_uint_range (bs : list byte) :
  0 <= be_uint bs < 256 ^ Z.of_nat (List.length bs).
Proof.
  induction bs as [|b bs IH].
  - cbn. lia.
  - rewrite be_uint_cons. cbn [List.length].
    rewrite Nat2Z.inj_succ, Z.pow_succ_r by lia.
    pose proof (Z_of_byte_range b). nia.
Qed.

Lemma length_be_bytes (k : nat) (v : Z) : List.length (be_bytes k v) = k.
Proof.
  revert v. induction k as [|k IH]; intros v; cbn [be_bytes].
  - reflexivity.
  - rewrite length_app, IH. cbn. lia.
Qed.

Lemma be_uint_be_bytes (k : nat) (v : Z) :
  be_uint (be_bytes k v) = v mod 256 ^ Z.of_nat k.
Proof.
  revert v. induction k as [|k IH]; intros v; cbn [be_bytes].
  - cbn. rewrite Z.mod_1_r. reflexivity.
  - rewrite be_uint_app, IH. cbn [List.length].
    change (be_uint [byte_of_Z (v mod 256)])
      with (0 * 256 + Z_of_byte (byte_of_Z (v mod 256))).
    change (Z.of_nat 1) with 1. rewrite Z.pow_1_r.
    rewrite Z_of_byte_of_Z, Z.mod_mod by lia.
    rewrite Nat2Z.inj_succ, Z.pow_succ_r by lia.
    rewrite (Z.rem_mul_r v 256 (256 ^ Z.of_nat k)) by lia.
    ring.
Qed.

Lemma be_bytes_be_uint (bs : list byte) :
  be_bytes (List.length bs) (be_uint bs) = bs.
Proof.
  induction bs as [|b bs IH] using rev_ind.
  - reflexivity.
  - rewrite length_app. cbn [List.length]. rewrite Nat.add_1_r.
    cbn [be_bytes]. rewrite be_uint_app. cbn [List.length].
    change (256 ^ Z.of_nat 1) with 256.
    change (be_uint [b]) with (0 * 256 + Z_of_byte b).
    pose proof (Z_of_byte_range b).
    rewrite Z.div_add_l, Z.div_small, Z.add_0_r, IH by lia.
    f_equal. f_equal.
    rewrite Z.add_comm, Z.mod_add, Z.mod_small by lia.
    apply byte_of_Z_of_byte.
Qed.

Lemma pow256 (a : Z) : 0 <= a -> 256 ^ a = 2 ^ (8 * a).
Proof.
  intros Ha. rewrite Z.pow_mul_r by lia. reflexivity.
Qed.

(** ** Bit strings *)

Lemma length_tobytes (b : bitstring.Bits) :
  List.length (bitstring.tobytes b) = Z.to_nat ((bitstring.len b + 7) / 8).
Proof.
  unfold bitstring.tobytes. apply length_be_bytes.
Qed.

(** What [tobytes] writes for [n] bits holding [u], as a number. *)
Lemma be_uint_tobytes (n u : Z) :
  0 < n -> 0 <= u < 2 ^ n ->
  be_uint (bitstring.tobytes {| bitstring.len := n; bitstring.uint := u |})
  = u * 2 ^ (8 * ((n + 7) / 8) - n).
Proof.
  intros Hn Hu. unfold bitstring.tobytes. cbn [bitstring.len bitstring.uint].
  rewrite be_uint_be_bytes.
  assert (Hk : 0 <= 8 * ((n + 7) / 8) - n) by (Z.div_mod_to_equations; lia).
  rewrite Z2Nat.id by (Z.div_mod_to_equations; lia).
  rewrite pow256 by (Z.div_mod_to_equations; lia).
  apply Z.mod_small. split; [apply Z.mul_nonneg_nonneg; [lia | apply Z.pow_nonneg; lia]|].
  replace (2 ^ (8 * ((n + 7) / 8))) with (2 ^ n * 2 ^ (8 * ((n + 7) / 8) - n)).
  - apply Z.mul_lt_mono_pos_r; [apply Z.pow_pos_nonneg; lia | lia].
  - rewrite <- Z.pow_add_r by lia. f_equal. lia.
Qed.

(** Reading back the leading [n] bits of what [tobytes] wrote, whatever
    follows in the buffer. *)
Lemma unpack_uint_tobytes (n u : Z) (post : list byte) :
  0 < n -> 0 <= u < 2 ^ n ->
  bitstring.unpack_uint n
    (bitstring.BitStream
       (bitstring.tobytes {| bitstring.len := n; bitstring.uint := u |} ++ post))
  = Ok u.
Proof.
  intros Hn Hu. unfold bitstring.unpack_uint, bitstring.BitStream.
  cbn [bitstring.len bitstring.uint].
  replace (n =? 0) with false by (symmetry; apply Z.eqb_neq; lia).
  rewrite length_app, length_tobytes. cbn [bitstring.len].
  set (k := (n + 7) / 8).
  assert (Hk : 0 <= 8 * k - n /\ 0 <= k) by (subst k; Z.div_mod_to_equations; lia).
  rewrite Nat2Z.inj_add, Z2Nat.id by lia.
  set (lp := Z.of_nat (List.length post)).
  assert (Hlp : 0 <= lp) by (subst lp; lia).
  replace ((0 <? n) && (n <=? 8 * (k + lp))) with true
    by (symmetry; apply andb_true_intro; split; [apply Z.ltb_lt | apply Z.leb_le]; lia).
  f_equal. rewrite be_uint_app, be_uint_tobytes by assumption. fold k lp.
  rewrite Z.shiftr_div_pow2 by lia.
  rewrite pow256 by lia.
  replace (8 * (k + lp) - n) with ((8 * k - n) + 8 * lp) by lia.
  rewrite Z.pow_add_r by lia.
  rewrite <- Z.mul_assoc.
  pose proof (be_uint_range post) as Hr. fold lp in Hr. rewrite pow256 in Hr by lia.
  assert (Hp : 0 < 2 ^ (8 * k - n) * 2 ^ (8 * lp))
    by (apply Z.mul_pos_pos; apply Z.pow_pos_nonneg; lia).
  rewrite Z.div_add_l by lia.
  rewrite Z.div_small; [lia|].
  split; [lia|].
  assert (1 <= 2 ^ (8 * k - n)) by (pose proof (Z.pow_pos_nonneg 2 (8 * k - n)); lia).
  nia.
Qed.

(** The leading [n] bits of a stream sit in its first [ceil(n/8)] bytes. *)
Lemma unpack_uint_leading (n : Z) (bs : list byte) :
  0 < n -> (n + 7) / 8 <= Z.of_nat (List.length bs) ->
  bitstring.unpack_uint n (bitstring.BitStream bs)
  = Ok (Z.shiftr (be_uint (firstn (Z.to_nat ((n + 7) / 8)) bs))
                 (8 * ((n + 7) / 8) - n)).
Proof.
  intros Hn Hlen. unfold bitstring.unpack_uint, bitstring.BitStream.
  cbn [bitstring.len bitstring.uint].
  replace (n =? 0) with false by (symmetry; apply Z.eqb_neq; lia).
  set (k := (n + 7) / 8) in *.
  assert (Hk : 0 <= 8 * k - n /\ 0 <= k) by (subst k; Z.div_mod_to_equations; lia).
  replace ((0 <? n) && (n <=? 8 * Z.of_nat (List.length bs))) with true
    by (symmetry; apply andb_true_intro; split; [apply Z.ltb_lt | apply Z.leb_le]; lia).
  f_equal.
  rewrite <- (firstn_skipn (Z.to_nat k) bs) at 1 2.
  set (hd := firstn (Z.to_nat k) bs). set (tl := skipn (Z.to_nat k) bs).
  assert (Hhd : Z.of_nat (List.length hd) = k)
    by (subst hd; rewrite length_firstn; lia).
  rewrite be_uint_app, length_app, Nat2Z.inj_add, Hhd.
  set (lp := Z.of_nat (List.length tl)).
  assert (Hlp : 0 <= lp) by (subst lp; lia).
  rewrite !Z.shiftr_div_pow2 by lia.
  rewrite pow256 by lia.
  replace (8 * (k + lp) - n) with (8 * lp + (8 * k - n)) by lia.
  rewrite Z.pow_add_r by lia.
  pose proof (be_uint_range tl) as Hr. fold lp in Hr. rewrite pow256 in Hr by lia.
  rewrite <- Z.div_div by (try apply Z.pow_pos_nonneg; lia).
  rewrite Z.div_add_l by lia.
  rewrite (Z.div_small (be_uint tl)) by lia.
  rewrite Z.add_0_r. reflexivity.
Qed.

(** ** Ceilings *)

Lemma Qceiling_div8 (x : Q) :
  Qceiling (x / inject_Z 8) = (Qceiling x + 7) / 8.
Proof.
  destruct x as [n d]. unfold Qceiling, Qfloor, Qdiv, Qmult, Qinv, Qopp, inject_Z.
  cbn [Qnum Qden]. cbn [Z.mul Pos.mul].
  rewrite Z.mul_1_r, Pos2Z.inj_mul.
  rewrite <- Z.div_div by lia.
  Z.div_mod_to_equations. lia.
Qed.

Lemma int_of_float_inject_Z (z : Z) : int_of_float (inject_Z z) = z.
Proof.
  unfold int_of_float, inject_Z. cbn [Qnum Qden]. apply Z.quot_1_r.
Qed.

Lemma int_of_float_div8 (bits : Z) :
  int_of_float (inject_Z bits / inject_Z 8) = Z.quot bits 8.
Proof.
  unfold int_of_float, inject_Z, Qdiv, Qmult, Qinv. cbn [Qnum Qden].
  cbn [Z.mul Pos.mul]. rewrite Z.mul_1_r. reflexivity.
Qed.

(** ** Strings and dictionaries *)

Lemma str_eqb_eq (a b : str) : str_eqb a b = true <-> a = b.
Proof.
  unfold str_eqb. destruct (list_eq_dec N.eq_dec a b); split; congruence.
Qed.

Lemma dict_set_fresh {V} (k : str) (v : V) (d : dict V) :
  ~ In k (map fst d) -> dict_set k v d = d ++ [(k, v)].
Proof.
  induction d as [|[k' v'] d IH]; cbn [dict_set map fst In app]; intros Hk.
  - reflexivity.
  - destruct (str_eqb k k') eqn:E.
    + apply str_eqb_eq in E. subst. tauto.
    + rewrite IH by tauto. reflexivity.
Qed.

Lemma dict_get_set {V} (k : str) (v : V) (d : dict V) :
  dict_get k (dict_set k v d) = Some v.
Proof.
  assert (Hk : str_eqb k k = true) by (apply str_eqb_eq; reflexivity).
  induction d as [|[k' v'] d IH]; cbn [dict_set dict_get].
  - rewrite Hk. reflexivity.
  - destruct (str_eqb k k') eqn:E; cbn [dict_get].
    + rewrite Hk. reflexivity.
    + rewrite E. exact IH.
Qed.

(** ** The ASCII runtime *)

Lemma ascii_runtime_classes : ascii_classes ascii_runtime.
Proof.
  intros c Hc. apply N.ltb_lt in Hc. cbn. rewrite Hc. auto.
Qed.

Lemma ascii_runtime_log2 : log2_exact ascii_runtime.
Proof.
  intros m Hm. unfold Qceiling, Qfloor, log2, ascii_runtime, inject_Z, Qopp.
  cbn [Qnum Qden]. rewrite Z.div_1_r. lia.
Qed.

(** ** Enum fields: bit width, encoded length and offset step *)

Section EnumWidth.
Context (rt : Runtime).

Lemma encode_enum_inv (f : Field) (items : list str) (input : str)
  (out : list byte) :
  type f = ENUM -> value f = Items items ->
  Field.encode rt f input = Ok out ->
  exists i,
    index str_eqb input items = Some i /\
    0 < Field.enum_bits rt items /\
    0 <= Z.of_nat i < 2 ^ Field.enum_bits rt items /\
    out = bitstring.tobytes
            {| bitstring.len := Field.enum_bits rt items;
               bitstring.uint := Z.of_nat i |}.
Proof.
  intros Ht Hv. unfold Field.encode. rewrite Ht, Hv. cbn [Field.items_of bind].
  destruct (negb (existsb (str_eqb input) items)); [discriminate|].
  destruct (index str_eqb input items) as [i|]; [|discriminate].
  cbn [of_option bind]. unfold bitstring.pack_uint.
  destruct ((0 <? Field.enum_bits rt items) && (0 <=? Z.of_nat i)
            && (Z.of_nat i <? 2 ^ Field.enum_bits rt items)) eqn:E;
    [|discriminate].
  cbn [bind]. intros [= <-]. exists i.
  apply andb_prop in E as [E E3]. apply andb_prop in E as [E1 E2].
  apply Z.ltb_lt in E1, E3. repeat split; try assumption; lia.
Qed.

Lemma size_enum (f : Field) (items : list str) :
  type f = ENUM -> value f = Items items ->
  Field.size rt f = Ok (inject_Z ((Field.enum_bits rt items + 7) / 8)).
Proof.
  intros Ht Hv. unfold Field.size. rewrite Ht, Hv. cbn [Field.items_of bind].
  rewrite Qceiling_div8. reflexivity.
Qed.

(** The bytes an enum field writes are as many as the decoder steps over. *)
Lemma enum_length_is_step (f : Field) (items : list str) (input : str)
  (out : list byte) :
  type f = ENUM -> value f = Items items ->
  Field.encode rt f input = Ok out ->
  exists sz, Field.size rt f = Ok sz /\
             int_of_float sz = Z.of_nat (List.length out).
Proof.
  intros Ht Hv He.
  destruct (encode_enum_inv f items input out Ht Hv He) as (i & _ & Hb & _ & ->).
  exists (inject_Z ((Field.enum_bits rt items + 7) / 8)).
  split; [apply size_enum; assumption|].
  rewrite int_of_float_inject_Z, length_tobytes. cbn [bitstring.len].
  rewrite Z2Nat.id; [reflexivity | Z.div_mod_to_equations; lia].
Qed.

Lemma enum_bits_exact (items : list str) :
  log2_exact rt ->
  Field.enum_bits rt items = Z.log2_up (Z.of_nat (List.length items) + 1).
Proof.
  intros Hlog. unfold Field.enum_bits. apply Hlog. lia.
Qed.

End EnumWidth.

(** C4 (as amended).  For every enum field, whatever the number of its
    items and whatever value [math.log2] returns, the number of bytes
    [Field.encode] writes equals the step [int(field.size())] by which
    [Form.decode] advances: the two formulas never disagree. *)
Theorem enum_encode_length_eq_size (rt : Runtime) (f : Field)
  (items : list str) (input : str) (out : list byte) :
  type f = ENUM -> value f = Items items ->
  Field.encode rt f input = Ok out ->
  exists sz, Field.size rt f = Ok sz /\
             int_of_float sz = Z.of_nat (List.length out).
Proof.
  apply enum_length_is_step.
Qed.

Lemma enum_encode_length_eq_size_witness :
  exists sz,
    Field.size ascii_runtime
      {| name := cps "e"; type := ENUM;
         value := Items [cps "a"; cps "b"; cps "c"] |} = Ok sz /\
    int_of_float sz = Z.of_nat (List.length [x80]).
Proof.
  apply (enum_encode_length_eq_size ascii_runtime _
           [cps "a"; cps "b"; cps "c"] (cps "c") [x80]);
    reflexivity.
Defined.

(** C4 (as stated) does not hold: no enum field, with one item or more,
    has an encoded length that differs from the decoder's offset step. *)
Lemma enum_formulas_never_disagree :
  ~ exists (rt : Runtime) (f : Field) (items : list str) (input : str)
      (out : list byte) (sz : Q),
      type f = ENUM /\ value f = Items items /\
      (1 <= List.length items)%nat /\
      Field.encode rt f input = Ok out /\
      Field.size rt f = Ok sz /\
      int_of_float sz <> Z.of_nat (List.length out).
Proof.
  intros (rt & f & items & input & out & sz & Ht & Hv & _ & He & Hs & Hne).
  destruct (enum_length_is_step rt f items input out Ht Hv He) as (sz' & Hs' & Heq).
  rewrite Hs in Hs'. injection Hs' as ->. contradiction.
Qed.

(** C5.  With 3 items an enum takes 2 bits and 1 byte, with 255 items 8
    bits and 1 byte, with 256 items 9 bits and 2 bytes, both in what
    [Field.encode] writes and in the step [int(field.size())] of the
    decoder. *)
Theorem enum_width_boundary (rt : Runtime) (f : Field) (items : list str)
  (input : str) (out : list byte) :
  log2_exact rt ->
  type f = ENUM -> value f = Items items ->
  Field.encode rt f input = Ok out ->
  let n := List.length items in
  let step := bind (Field.size rt f) (fun sz => Ok (int_of_float sz)) in
  (n = 3%nat ->
   Field.enum_bits rt items = 2 /\ List.length out = 1%nat /\ step = Ok 1) /\
  (n = 255%nat ->
   Field.enum_bits rt items = 8 /\ List.length out = 1%nat /\ step = Ok 1) /\
  (n = 256%nat ->
   Field.enum_bits rt items = 9 /\ List.length out = 2%nat /\ step = Ok 2).
Proof.
  intros Hlog Ht Hv He n step.
  destruct (encode_enum_inv rt f items input out Ht Hv He) as (i & _ & _ & _ & ->).
  subst step. rewrite (size_enum rt f items Ht Hv). cbn [bind].
  rewrite int_of_float_inject_Z, length_tobytes. cbn [bitstring.len].
  rewrite (enum_bits_exact rt items Hlog). subst n.
  split; [|split]; intros Hn; rewrite Hn; repeat split; reflexivity.
Qed.

Lemma enum_width_boundary_witness :
  let items := [cps "a"; cps "b"; cps "c"] in
  let f := {| name := cps "e"; type := ENUM; value := Items items |} in
  let step :=
    bind (Field.size ascii_runtime f) (fun sz => Ok (int_of_float sz)) in
  (List.length items = 3%nat ->
   Field.enum_bits ascii_runtime items = 2 /\
   List.length [x80] = 1%nat /\ step = Ok 1) /\
  (List.length items = 255%nat ->
   Field.enum_bits ascii_runtime items = 8 /\
   List.length [x80] = 1%nat /\ step = Ok 1) /\
  (List.length items = 256%nat ->
   Field.enum_bits ascii_runtime items = 9 /\
   List.length [x80] = 2%nat /\ step = Ok 2).
Proof.
  apply (enum_width_boundary ascii_runtime _ _ (cps "c") [x80]).
  - exact ascii_runtime_log2.
  - reflexivity.
  - reflexivity.
  - reflexivity.
Defined.

(** ** Decoding an enum field *)

Lemma log2_up_pos (n : Z) : 1 <= n -> 0 < Z.log2_up (n + 1).
Proof.
  intros Hn. apply Z.log2_up_pos. lia.
Qed.

(** C8.  With [ceil(bits/8)] bytes or more left at [offset], decoding an
    enum field with [n] items reads the leading
    [bits = ceil(log2(n + 1))] bits, the least number of bits with
    [n + 1 <= 2^bits], as an unsigned big-endian index; it fails exactly
    when that index is [n] or more, and otherwise returns
    [items[index]]. *)
Theorem decode_enum_index (rt : Runtime) (f : Field) (items : list str)
  (input : list byte) (offset : nat) :
  log2_exact rt ->
  type f = ENUM -> value f = Items items ->
  let n := Z.of_nat (List.length items) in
  let bits := Z.log2_up (n + 1) in
  let nbytes := Z.to_nat ((bits + 7) / 8) in
  (offset + nbytes <= List.length input)%nat ->
  let idx :=
    Z.shiftr (be_uint (slice offset (offset + nbytes) input))
             (8 * Z.of_nat nbytes - bits) in
  ((exists e, Field.decode rt f input offset = Raise e) <-> n <= idx) /\
  (idx < n ->
   exists s, nth_error items (Z.to_nat idx) = Some s /\
             Field.decode rt f input offset = Ok (VStr s)).
Proof.
  intros Hlog Ht Hv n bits nbytes Hlen index.
  assert (Hbits : Field.enum_bits rt items = bits)
    by (apply enum_bits_exact; assumption).
  assert (Hidx : 0 <= index) by (apply Z.shiftr_nonneg, be_uint_range).
  unfold Field.decode. rewrite Ht, Hv. cbn [Field.items_of bind].
  rewrite Hbits.
  destruct (Z.eq_dec n 0) as [Hn0|Hn0].
  - (* no items: a read of no bits *)
    assert (Hb0 : bits = 0) by (subst bits; rewrite Hn0; reflexivity).
    unfold bitstring.unpack_uint. rewrite Hb0.
    change (0 =? 0) with true. cbn [bind].
    split; [split; [lia | eauto] | lia].
  - assert (Hpos : 0 < bits) by (subst bits; apply log2_up_pos; lia).
    assert (Hk : 0 <= (bits + 7) / 8) by (Z.div_mod_to_equations; lia).
    rewrite unpack_uint_leading; [|assumption|rewrite length_skipn; lia].
    cbn [bind].
    assert (Hsame :
      Z.shiftr (be_uint (firstn (Z.to_nat ((bits + 7) / 8)) (skipn offset input)))
               (8 * ((bits + 7) / 8) - bits) = index).
    { subst index nbytes. unfold slice. rewrite Z2Nat.id by assumption.
      do 3 f_equal. lia. }
    rewrite Hsame.
    destruct (nth_error items (Z.to_nat index)) as [s|] eqn:E.
    + assert (Z.to_nat index < List.length items)%nat
        by (apply nth_error_Some; congruence).
      cbn [of_option bind]. split.
      * split; [intros [e He]; discriminate | lia].
      * intros _. exists s. split; reflexivity.
    + apply nth_error_None in E. cbn [of_option bind]. split.
      * split; [lia | eauto].
      * lia.
Qed.

Lemma decode_enum_index_witness :
  let items := [cps "a"; cps "b"; cps "c"] in
  let f := {| name := cps "e"; type := ENUM; value := Items items |} in
  let idx := Z.shiftr (be_uint (slice 1 (1 + 1) [x00; x80; xff])) (8 * 1 - 2) in
  ((exists e, Field.decode ascii_runtime f [x00; x80; xff] 1 = Raise e)
   <-> 3 <= idx) /\
  (idx < 3 ->
   exists s, nth_error items (Z.to_nat idx) = Some s /\
             Field.decode ascii_runtime f [x00; x80; xff] 1 = Ok (VStr s)).
Proof.
  apply (decode_enum_index ascii_runtime
           {| name := cps "e"; type := ENUM;
              value := Items [cps "a"; cps "b"; cps "c"] |}
           [cps "a"; cps "b"; cps "c"] [x00; x80; xff] 1).
  - exact ascii_runtime_log2.
  - reflexivity.
  - reflexivity.
  - vm_compute. lia.
Defined.

(** ** String fields and text beyond ASCII *)

Lemma encode_char_length (c : codepoint) (b : list byte) :
  utf8.encode_char c = Some b ->
  if is_ascii c then b = [utf8.put c] else (2 <= List.length b)%nat.
Proof.
  unfold utf8.encode_char, is_ascii.
  destruct (c <? 128)%N; [intros [= <-]; reflexivity|].
  destruct (c <? 2048)%N; [intros [= <-]; cbn; lia|].
  destruct (c <? 65536)%N.
  - destruct ((55296 <=? c) && (c <=? 57343))%N; [discriminate|].
    intros [= <-]. cbn. lia.
  - destruct (c <? 1114112)%N; [|discriminate]. intros [= <-]. cbn. lia.
Qed.

Lemma utf8_encode_length (s : str) (data : list byte) :
  utf8.encode s = Ok data ->
  if forallb is_ascii s
  then data = map utf8.put s
  else (List.length s < List.length data)%nat.
Proof.
  revert data. induction s as [|c s IH]; intros data; cbn [utf8.encode forallb].
  - intros [= <-]. reflexivity.
  - destruct (utf8.encode_char c) as [b|] eqn:Ec; [|discriminate].
    cbn [of_option bind].
    destruct (utf8.encode s) as [bs|]; [|discriminate].
    cbn [bind]. intros [= <-].
    specialize (IH bs eq_refl). apply encode_char_length in Ec.
    rewrite length_app. cbn [List.length].
    destruct (is_ascii c); cbn [andb].
    + subst b. destruct (forallb is_ascii s).
      * subst bs. reflexivity.
      * cbn. lia.
    + assert (List.length s <= List.length bs)%nat.
      { revert IH. destruct (forallb is_ascii s); intros IH;
          [subst bs; rewrite length_map; apply Nat.le_refl | lia]. }
      lia.
Qed.

Lemma tobytes_pack_bytes (n : nat) (data : list byte) (b : bitstring.Bits) :
  bitstring.pack_bytes n data = Ok b -> bitstring.tobytes b = data.
Proof.
  unfold bitstring.pack_bytes. destruct (Nat.eqb n (List.length data));
    [|discriminate].
  intros H. assert (Hb : b = bitstring.BitStream data)
    by (unfold bitstring.BitStream; congruence).
  clear H. subst b. unfold bitstring.tobytes, bitstring.BitStream.
  cbv beta iota zeta delta [bitstring.len bitstring.uint].
  assert (H : (8 * Z.of_nat (List.length data) + 7) / 8
              = Z.of_nat (List.length data))
    by (Z.div_mod_to_equations; lia).
  rewrite H, Z.sub_diag, Z.mul_1_r, Nat2Z.id. apply be_bytes_be_uint.
Qed.

Lemma utf8_encode_ascii (s : str) :
  forallb is_ascii s = true -> utf8.encode s = Ok (map utf8.put s).
Proof.
  induction s as [|c s IH]; cbn [forallb utf8.encode map]; [reflexivity|].
  intros H. apply andb_prop in H as [Hc Hs].
  unfold utf8.encode_char. unfold is_ascii in Hc. rewrite Hc.
  cbn [of_option bind]. rewrite (IH Hs). reflexivity.
Qed.

(** [Field.encode] on a string field returns the text and a [NUL] when the
    text is ASCII, and raises when it is not. *)
Lemma encode_string_ascii_only (rt : Runtime) (f : Field) (text : str) :
  type f = STRING ->
  if forallb is_ascii text
  then Field.encode rt f text = Ok (map utf8.put text ++ [x00])
  else exists e, Field.encode rt f text = Raise e.
Proof.
  intros Ht. unfold Field.encode. rewrite Ht.
  destruct (forallb is_ascii text) eqn:Ea.
  - rewrite utf8_encode_ascii
      by (rewrite forallb_app, Ea; reflexivity).
    cbn [bind]. rewrite map_app.
    destruct (bitstring.pack_bytes _ _) as [b|] eqn:Ep.
    + cbn [bind]. rewrite (tobytes_pack_bytes _ _ _ Ep). reflexivity.
    + unfold bitstring.pack_bytes in Ep.
      rewrite !length_app, length_map, Nat.eqb_refl in Ep. discriminate.
  - pose proof (utf8_encode_length (text ++ [NUL])) as Hlen.
    rewrite forallb_app, Ea in Hlen. cbn [andb] in Hlen.
    destruct (utf8.encode (text ++ [NUL])) as [data|e]; cbn [bind]; [|eauto].
    specialize (Hlen data eq_refl). unfold bitstring.pack_bytes.
    replace (Nat.eqb (List.length (text ++ [NUL])) (List.length data))
      with false by (symmetry; apply Nat.eqb_neq; lia).
    cbn [bind]. eauto.
Qed.

Lemma tobytes_BitStream (data : list byte) :
  bitstring.tobytes (bitstring.BitStream data) = data.
Proof.
  apply (tobytes_pack_bytes (List.length data)).
  unfold bitstring.pack_bytes. rewrite Nat.eqb_refl. reflexivity.
Qed.

Lemma index_lt {A} (eqb : A -> A -> bool) (x : A) (l : list A) (i : nat) :
  index eqb x l = Some i -> (i < List.length l)%nat.
Proof.
  revert i. induction l as [|y l IH]; intros i; cbn [index List.length].
  - discriminate.
  - destruct (eqb y x); [intros [= <-]; lia|].
    destruct (index eqb x l) as [j|]; [|discriminate].
    intros [= <-]. specialize (IH j eq_refl). lia.
Qed.

(** A decoded text has as many characters as bytes when the bytes are
    ASCII, and fewer when they are not. *)
Lemma decode_n_length :
  forall (n : nat) (bs : list N) (s : str),
  (List.length bs <= n)%nat ->
  utf8.decode_n bs = Ok s ->
  if forallb is_ascii bs
  then List.length s = List.length bs
  else (List.length s < List.length bs)%nat.
Proof.
  induction n as [|n IH]; intros bs s Hn.
  - destruct bs; [|cbn in Hn; lia]. intros [= <-]. reflexivity.
  - destruct bs as [|b0 r0]; [intros [= <-]; reflexivity|].
    cbn [List.length] in Hn.
    assert (Hle : forall r t, (List.length r <= n)%nat ->
                    utf8.decode_n r = Ok t ->
                    (List.length t <= List.length r)%nat).
    { intros r t Hr Hd. specialize (IH r t Hr Hd).
      destruct (forallb is_ascii r); lia. }
    cbn [utf8.decode_n forallb]. unfold is_ascii at 1.
    destruct (b0 <? 128)%N.
    + destruct (utf8.decode_n r0) as [t|] eqn:Ed; [|discriminate].
      cbn [bind andb]. intros [= <-]. cbn [List.length].
      specialize (IH r0 t ltac:(lia) Ed).
      destruct (forallb is_ascii r0); lia.
    + cbn [andb].
      destruct ((194 <=? b0) && (b0 <=? 223))%N.
      { destruct r0 as [|b1 r1]; [discriminate|].
        destruct (utf8.cont b1); [|discriminate].
        cbn [List.length] in Hn.
        destruct (utf8.decode_n r1) as [t|] eqn:Ed; [|discriminate].
        cbn [bind]. intros [= <-]. cbn [List.length].
        specialize (Hle r1 t ltac:(lia) Ed). lia. }
      destruct ((224 <=? b0) && (b0 <=? 239))%N.
      { destruct r0 as [|b1 [|b2 r2]]; try discriminate.
        destruct (utf8.cont b1 && utf8.cont b2 && _ && _); [|discriminate].
        cbn [List.length] in Hn.
        destruct (utf8.decode_n r2) as [t|] eqn:Ed; [|discriminate].
        cbn [bind]. intros [= <-]. cbn [List.length].
        specialize (Hle r2 t ltac:(lia) Ed). lia. }
      destruct ((240 <=? b0) && (b0 <=? 244))%N; [|discriminate].
      destruct r0 as [|b1 [|b2 [|b3 r3]]]; try discriminate.
      destruct (utf8.cont b1 && utf8.cont b2 && utf8.cont b3 && _ && _);
        [|discriminate].
      cbn [List.length] in Hn.
      destruct (utf8.decode_n r3) as [t|] eqn:Ed; [|discriminate].
      cbn [bind]. intros [= <-]. cbn [List.length].
      specialize (Hle r3 t ltac:(lia) Ed). lia.
Qed.

(** X1.  The step of [Form.decode] over a string field: one more than the
    number of characters decoded, which is the number of bytes taken up by
    the string and its [NUL] only when the string is ASCII. *)
Lemma decode_step_string (rt : Runtime) (input : list byte) (f : Field)
  (obj obj' : dict (pyvalue rt)) (offset offset' : nat) :
  type f = STRING ->
  Form.decode_step rt input f (obj, offset) = Ok (obj', offset') ->
  exists (zero_at : nat) (s : str),
    index byte_eqb x00 (skipn offset input) = Some zero_at /\
    Field.decode rt f input offset = Ok (VStr s) /\
    offset' = (offset + (List.length s + 1))%nat /\
    if forallb is_ascii
         (map Byte.to_N (slice offset (offset + zero_at) input))
    then offset' = (offset + (zero_at + 1))%nat
    else (offset' < offset + (zero_at + 1))%nat.
Proof.
  intros Ht. unfold Form.decode_step, Field.decode. rewrite Ht.
  destruct (index byte_eqb x00 (skipn offset input)) as [zero_at|] eqn:Ei;
    [|discriminate].
  cbn [of_option bind]. rewrite tobytes_BitStream. unfold utf8.decode.
  destruct (utf8.decode_n _) as [s|] eqn:Ed; [|discriminate].
  cbn [bind]. unfold Form.len_of. rewrite dict_get_set. cbn [of_option bind].
  intros [= <- <-]. exists zero_at, s.
  split; [reflexivity|]. split; [reflexivity|]. split; [reflexivity|].
  apply index_lt in Ei.
  pose proof (decode_n_length _ _ _ (Nat.le_refl _) Ed) as Hlen.
  assert (Hsl : List.length (map Byte.to_N (slice offset (offset + zero_at) input))
                = zero_at).
  { rewrite length_map. unfold slice. rewrite length_firstn. lia. }
  destruct (forallb is_ascii _); lia.
Qed.

(** C3, at the text of the one character U+00E9, two bytes in UTF-8:
    [Field.encode] sizes the [bytes] token by the number of characters, so
    the three bytes [C3 A9 00] are packed under [bytes:2] and
    [bitstring.pack] raises, where the specification has the three bytes
    returned. *)
Theorem encode_string_two_byte_char (rt : Runtime) :
  let f := {| name := cps "s"; type := STRING; value := NoValue |} in
  utf8.encode ([233%N] ++ [NUL]) = Ok [xc3; xa9; x00] /\
  Field.encode rt f [233%N] = Raise CreationError.
Proof.
  split; reflexivity.
Qed.

(** C2, at a buffer that holds the character U+00E9, two bytes in UTF-8:
    the string ends with the NUL at index 2 and takes up three bytes, yet
    [Form.decode] moves the offset by the number of characters plus one, 2,
    and reads the next field from the NUL byte. *)
Theorem decode_string_offset_two_byte_char (rt : Runtime) :
  let s := {| name := cps "s"; type := STRING; value := NoValue |} in
  let n := {| name := cps "n"; type := INTEGER; value := Bitsize 8 |} in
  let input := [xc3; xa9; x00; x05] in
  index byte_eqb x00 (skipn 0 input) = Some 2%nat /\
  Form.decode_step rt input s ([], 0%nat)
    = Ok ([(cps "s", VStr [233%N])], 2%nat) /\
  Form.decode rt {| fields := [s; n] |} input
    = Ok [(cps "s", VStr [233%N]); (cps "n", VInt 0)].
Proof.
  repeat split; reflexivity.
Qed.

(** ** Round trip of fixed-width forms *)

Lemma index_nth_error (x : str) (l : list str) (i : nat) :
  index str_eqb x l = Some i -> nth_error l i = Some x.
Proof.
  revert i. induction l as [|y l IH]; intros i; cbn [index].
  - discriminate.
  - destruct (str_eqb y x) eqn:E.
    + intros [= <-]. apply str_eqb_eq in E. subst. reflexivity.
    + destruct (index str_eqb x l) as [j|]; [|discriminate].
      intros [= <-]. cbn. apply IH. reflexivity.
Qed.

Lemma skipn_length_app {A} (pre l : list A) :
  skipn (List.length pre) (pre ++ l) = l.
Proof.
  induction pre; cbn; auto.
Qed.

Lemma signed_of_mod (n v : Z) :
  0 < n -> - 2 ^ (n - 1) <= v < 2 ^ (n - 1) ->
  (if v mod 2 ^ n <? 2 ^ (n - 1) then v mod 2 ^ n else v mod 2 ^ n - 2 ^ n) = v.
Proof.
  intros Hn Hv.
  assert (H2 : 2 ^ n = 2 * 2 ^ (n - 1)).
  { rewrite <- Z.pow_succ_r by lia. f_equal. lia. }
  assert (Hp : 0 < 2 ^ (n - 1)) by (apply Z.pow_pos_nonneg; lia).
  destruct (Z_lt_le_dec v 0) as [Hneg|Hpos].
  - replace (v mod 2 ^ n) with (v + 2 ^ n).
    + destruct (v + 2 ^ n <? 2 ^ (n - 1)) eqn:E; [apply Z.ltb_lt in E|]; lia.
    + apply Z.mod_unique with (q := -1); lia.
  - rewrite Z.mod_small by lia.
    destruct (v <? 2 ^ (n - 1)) eqn:E; [|apply Z.ltb_ge in E]; lia.
Qed.

Lemma bitsize_cases (bits : Z) (l : list Z) :
  existsb (Z.eqb bits) l = true -> In bits l.
Proof.
  intros H. apply existsb_exists in H as (x & Hin & Hx).
  apply Z.eqb_eq in Hx. subst. assumption.
Qed.

Section RoundTrip.
Context (rt : Runtime).

(** One field: decoding at the place where the encoding starts gives the
    value the text stands for, and the decoder's step is the length of the
    encoding. *)
Lemma decode_encode_field (f : Field) (text : str) (b pre post : list byte) :
  fixed_width f = true ->
  Field.encode rt f text = Ok b ->
  Field.decode rt f (pre ++ b ++ post) (List.length pre) = denoted rt f text /\
  type f <> STRING /\
  exists sz, Field.size rt f = Ok sz /\
             Z.to_nat (int_of_float sz) = List.length b.
Proof.
  unfold fixed_width, Field.encode, Field.decode, denoted, Field.size.
  rewrite skipn_length_app.
  destruct (type f) eqn:Ht; destruct (value f) as [bits| |items] eqn:Hv;
    try discriminate; intros Hfw He.
  - (* INTEGER *)
    destruct (int_of_str rt text) as [v|]; [|discriminate].
    cbn [of_option bind Field.bitsize] in *.
    unfold bitstring.pack_int in He.
    destruct ((0 <? bits) && (- 2 ^ (bits - 1) <=? v) && (v <? 2 ^ (bits - 1)))
      eqn:E; [|discriminate].
    apply andb_prop in E as [E E3]. apply andb_prop in E as [E1 E2].
    apply Z.ltb_lt in E1, E3. apply Z.leb_le in E2.
    cbn [bind] in He. injection He as <-.
    assert (Hm : 0 <= v mod 2 ^ bits < 2 ^ bits)
      by (apply Z.mod_pos_bound, Z.pow_pos_nonneg; lia).
    unfold bitstring.unpack_int. rewrite unpack_uint_tobytes by assumption.
    cbn [bind]. rewrite signed_of_mod by lia.
    split; [reflexivity|]. split; [discriminate|].
    eexists. split; [reflexivity|].
    rewrite int_of_float_div8, length_tobytes. cbn [bitstring.len].
    apply bitsize_cases in Hfw. cbn [In] in Hfw.
    destruct Hfw as [<-|[<-|[<-|[<-|[]]]]]; reflexivity.
  - (* FLOAT *)
    destruct (float_of_str rt text) as [x|]; [|discriminate].
    cbn [of_option bind Field.bitsize] in *.
    destruct (float_pack rt bits x) as [p|]; [|discriminate].
    cbn [of_option bind] in *. injection He as <-.
    assert (Hb : 0 < bits).
    { apply bitsize_cases in Hfw. cbn [In] in Hfw. lia. }
    assert (Hm : 0 <= p mod 2 ^ bits < 2 ^ bits)
      by (apply Z.mod_pos_bound, Z.pow_pos_nonneg; lia).
    rewrite unpack_uint_tobytes by assumption. cbn [bind].
    split; [reflexivity|]. split; [discriminate|].
    eexists. split; [reflexivity|].
    rewrite int_of_float_div8, length_tobytes. cbn [bitstring.len].
    apply bitsize_cases in Hfw. cbn [In] in Hfw.
    destruct Hfw as [<-|[<-|[]]]; reflexivity.
  - (* ENUM *)
    assert (He' : Field.encode rt f text = Ok b)
      by (unfold Field.encode; rewrite Ht, Hv; exact He).
    destruct (encode_enum_inv rt f items text b Ht Hv He')
      as (i & Hi & Hbits & Hrange & ->).
    cbn [Field.items_of bind].
    rewrite unpack_uint_tobytes by assumption. cbn [bind].
    rewrite Nat2Z.id, (index_nth_error _ _ _ Hi). cbn [of_option bind].
    split; [reflexivity|]. split; [discriminate|].
    exists (inject_Z ((Field.enum_bits rt items + 7) / 8)).
    rewrite Qceiling_div8. split; [reflexivity|].
    rewrite int_of_float_inject_Z, length_tobytes. reflexivity.
Qed.

Lemma decode_loop_encode_loop (fs : list Field) :
  forall (values : list str) (acc buf : list byte) (rest : list str)
         (obj : dict (pyvalue rt)) (post : list byte),
  forallb fixed_width fs = true ->
  NoDup (map name fs) ->
  (forall k, In k (map name fs) -> ~ In k (map fst obj)) ->
  Form.encode_loop rt fs values acc = Ok (buf, rest) ->
  exists tail,
    buf = acc ++ tail /\
    Form.decode_loop rt fs (acc ++ tail ++ post) (obj, List.length acc)
    = (vs <- denoted_all rt fs values ;;
       Ok (obj ++ combine (map name fs) vs, List.length buf)).
Proof.
  induction fs as [|f fs IH]; intros values acc buf rest obj post Hfw Hnd Hfresh He.
  - cbn in He. injection He as <- <-. exists []. split; [now rewrite app_nil_r|].
    cbn. rewrite app_nil_r. reflexivity.
  - cbn [Form.encode_loop] in He.
    destruct values as [|line values]; [discriminate|].
    cbn [Form.input bind] in He.
    destruct (Field.encode rt f line) as [b|] eqn:Eb; [|discriminate].
    cbn [bind] in He.
    cbn [forallb] in Hfw. apply andb_prop in Hfw as [Hf Hfw].
    cbn [map] in Hnd. inversion Hnd as [|? ? Hnotin Hnd']; subst.
    assert (Hrest : forall k, In k (map name fs) -> ~ In k (map fst obj))
      by (intros k Hk; apply Hfresh; right; assumption).
    destruct (denoted rt f line) as [v|e] eqn:Ed.
    + destruct (IH values (acc ++ b) buf rest (obj ++ [(name f, v)]) post
                  Hfw Hnd') as (tail & Hbuf & Hdec); [| exact He |].
      { intros k Hk. rewrite map_app, in_app_iff. cbn [map fst In].
        intros [Hin|[<-|[]]]; [exact (Hrest k Hk Hin) | contradiction]. }
      exists (b ++ tail). split; [rewrite Hbuf, app_assoc; reflexivity|].
      destruct (decode_encode_field f line b acc (tail ++ post) Hf Eb)
        as (Hd & Hns & sz & Hsz & Hlen).
      cbn [Form.decode_loop denoted_all]. unfold Form.decode_step.
      rewrite <- app_assoc, Hd, Ed. cbn [bind].
      rewrite dict_set_fresh by (apply Hfresh; left; reflexivity).
      rewrite Hsz. cbn [bind]. rewrite <- app_assoc in Hdec.
      destruct (type f); [| |congruence|];
        cbn [bind]; rewrite Hlen, <- length_app, Hdec;
        (destruct (denoted_all rt fs values) as [vs|e]; [|reflexivity]);
        cbn [bind map combine]; rewrite <- !app_assoc; reflexivity.
    + destruct (IH values (acc ++ b) buf rest obj post Hfw Hnd' Hrest He)
        as (tail & Hbuf & _).
      exists (b ++ tail). split; [rewrite Hbuf, app_assoc; reflexivity|].
      destruct (decode_encode_field f line b acc (tail ++ post) Hf Eb)
        as (Hd & _).
      cbn [Form.decode_loop denoted_all]. unfold Form.decode_step.
      rewrite <- app_assoc, Hd, Ed. reflexivity.
Qed.

End RoundTrip.

(** C1 (as amended).  For a form of integer, float and enum fields whose
    names are pairwise distinct, and texts that [Form.encode] accepts,
    decoding the encoded buffer maps each field name, in order, to the
    value its text stands for: the integer it spells, the enum item, and for
    a float the number its packed pattern denotes. *)
Theorem decode_encode_fixed_width (rt : Runtime) (form : Form)
  (values rest : list str) (buf : list byte) :
  forallb fixed_width (fields form) = true ->
  NoDup (map name (fields form)) ->
  Form.encode rt form values = Ok (buf, rest) ->
  Form.decode rt form buf
  = (vs <- denoted_all rt (fields form) values ;;
     Ok (combine (map name (fields form)) vs)).
Proof.
  intros Hfw Hnd He. unfold Form.encode in He. unfold Form.decode.
  destruct (decode_loop_encode_loop rt (fields form) values [] buf rest [] []
              Hfw Hnd) as (tail & Hbuf & Hdec); [intros k _ [] | exact He |].
  cbn [app] in Hbuf, Hdec. rewrite app_nil_r in Hdec. subst tail.
  cbn [List.length] in Hdec. unfold dict in *. rewrite Hdec.
  destruct (denoted_all rt (fields form) values); reflexivity.
Qed.

Lemma decode_encode_fixed_width_witness :
  let form :=
    {| fields :=
         [{| name := cps "a"; type := INTEGER; value := Bitsize 16 |};
          {| name := cps "b"; type := ENUM;
             value := Items [cps "on"; cps "off"] |}] |} in
  Form.decode ascii_runtime form [xff; xfe; x40]
  = (vs <- denoted_all ascii_runtime (fields form) [cps "-2"; cps "off"] ;;
     Ok (combine (map name (fields form)) vs)).
Proof.
  apply (decode_encode_fixed_width ascii_runtime _ [cps "-2"; cps "off"] []).
  - reflexivity.
  - cbn. repeat constructor; cbn; intuition discriminate.
  - reflexivity.
Defined.

(** C1 (as stated) does not hold: with a field name used twice the decoded
    mapping keeps one value for it, the last. *)
Lemma roundtrip_repeated_name :
  let form :=
    {| fields :=
         [{| name := cps "a"; type := INTEGER; value := Bitsize 8 |};
          {| name := cps "a"; type := INTEGER; value := Bitsize 8 |}] |} in
  let values := [cps "1"; cps "2"] in
  forallb fixed_width (fields form) = true /\
  Form.encode ascii_runtime form values = Ok ([x01; x02], []) /\
  denoted_all ascii_runtime (fields form) values = Ok [VInt 1; VInt 2] /\
  Form.decode ascii_runtime form [x01; x02] = Ok [(cps "a", VInt 2)] /\
  map snd [(cps "a", @VInt ascii_runtime 2)] <> [VInt 1; VInt 2].
Proof.
  repeat split; try reflexivity. discriminate.
Qed.

(** ** The parser: first character *)

(** C9.  On the empty schema [parse_form] raises [IndexError] from
    [codeform[self.cursor]], before anything is read: the result is neither
    a form nor one of the parser's own errors. *)
Theorem parse_form_empty (rt : Runtime) :
  FormParser.parse_form rt [] = Raise IndexError.
Proof.
  reflexivity.
Qed.

Lemma parse_form_not_letter (rt : Runtime) (c : codepoint) (rest : str) :
  isalpha rt c = false ->
  FormParser.parse_form rt (c :: rest) = Raise (WordStart c 0).
Proof.
  intros Hc. unfold FormParser.parse_form, FormParser.parse_form_run.
  cbn [FormParser.form_loop List.length FormParser.cursor FormParser.length
       Nat.ltb Nat.leb].
  unfold FormParser.parse_field, FormParser.collect_word.
  cbn [FormParser.char FormParser.cursor]. rewrite Hc. reflexivity.
Qed.

(** C7.  ["1name:i8"] is rejected with the position 0, and so is every
    schema whose first character is not a letter. *)
Theorem parse_form_first_char (rt : Runtime) :
  ascii_classes rt ->
  FormParser.parse_form rt (cps "1name:i8") = Raise (WordStart 49%N 0) /\
  forall (c : codepoint) (rest : str),
    isalpha rt c = false ->
    FormParser.parse_form rt (c :: rest) = Raise (WordStart c 0).
Proof.
  intros Hascii. split.
  - apply parse_form_not_letter.
    destruct (Hascii 49%N) as (-> & _); [lia | reflexivity].
  - apply parse_form_not_letter.
Qed.

Lemma parse_form_first_char_witness :
  FormParser.parse_form ascii_runtime (cps "1name:i8")
    = Raise (WordStart 49%N 0) /\
  forall (c : codepoint) (rest : str),
    isalpha ascii_runtime c = false ->
    FormParser.parse_form ascii_runtime (c :: rest) = Raise (WordStart c 0).
Proof.
  apply (parse_form_first_char ascii_runtime ascii_runtime_classes).
Defined.

(** ** The parser on a source and on an extension of it *)

Lemma advance_at (s : str) (k : nat) :
  FormParser.advance (at_pos s k) = at_pos s (S k).
Proof.
  unfold FormParser.advance, at_pos.
  cbn [FormParser.source FormParser.length FormParser.cursor FormParser.char].
  f_equal.
  destruct (S k <? List.length s)%nat eqn:E; [reflexivity|].
  apply Nat.ltb_ge in E. symmetry. apply nth_overflow. lia.
Qed.

Lemma nth_not_NUL (s : str) (k : nat) :
  nth k s NUL <> NUL -> (k < List.length s)%nat.
Proof.
  intros H. destruct (Nat.lt_ge_cases k (List.length s)) as [Hlt|Hge];
    [assumption|].
  exfalso. apply H. apply nth_overflow. assumption.
Qed.

Lemma codepoint_eqb_not_NUL (s : str) (k : nat) (c : codepoint) :
  (nth k s NUL =? c)%N = true -> c <> NUL -> (k < List.length s)%nat.
Proof.
  intros Heq Hc. apply N.eqb_eq in Heq. apply nth_not_NUL. congruence.
Qed.

(** A character that was compared equal to something other than [NUL] was
    read inside the source. *)
Ltac in_source :=
  eapply codepoint_eqb_not_NUL; [eassumption | discriminate].

Section Extension.
Context (rt : Runtime) (s1 t : str).
Hypothesis isalpha_NUL : isalpha rt NUL = false.

Let s2 : str := s1 ++ t.
(** The character that follows [s1] in [s2]. *)
Let c2 : codepoint := nth (List.length s1) s2 NUL.

Lemma nth_extension (j : nat) :
  (j < List.length s1)%nat -> nth j s2 NUL = nth j s1 NUL.
Proof.
  intros Hj. unfold s2. apply app_nth1. assumption.
Qed.

Lemma char_extension (p : codepoint -> bool) (k : nat) :
  (k <= List.length s1)%nat ->
  ((k = List.length s1)%nat -> p c2 = p (nth k s1 NUL)) ->
  p (nth k s2 NUL) = p (nth k s1 NUL).
Proof.
  intros Hk Hend. destruct (Nat.eq_dec k (List.length s1)) as [->|Hne].
  - apply Hend. reflexivity.
  - rewrite nth_extension by lia. reflexivity.
Qed.

Lemma slice_extension (k k' : nat) :
  (k' <= List.length s1)%nat -> slice k k' s2 = slice k k' s1.
Proof.
  intros Hk. unfold slice, s2.
  destruct (Nat.le_gt_cases k (List.length s1)) as [Hle|Hgt].
  - rewrite skipn_app, firstn_app, length_skipn.
    replace (k' - k - (List.length s1 - k))%nat with O by lia.
    rewrite firstn_O, app_nil_r. reflexivity.
  - replace (k' - k)%nat with O by lia. reflexivity.
Qed.

Lemma length_extension : (List.length s1 <= List.length s2)%nat.
Proof.
  unfold s2. rewrite length_app. lia.
Qed.

Lemma advance_while_extension (p : codepoint -> bool) :
  forall (fuel k : nat) (st' : FormParser.state),
  (fuel + k <= List.length s1)%nat ->
  FormParser.advance_while p fuel (at_pos s1 k) = Ok st' ->
  exists k',
    st' = at_pos s1 k' /\ (k <= k' <= List.length s1)%nat /\
    (((k' = List.length s1)%nat -> p c2 = false) ->
     forall fuel2, (fuel <= fuel2)%nat ->
       FormParser.advance_while p fuel2 (at_pos s2 k) = Ok (at_pos s2 k')).
Proof.
  induction fuel as [|fuel IH]; intros k st' Hk Hrun; cbn in Hrun;
    destruct (p (nth k s1 NUL)) eqn:Ep; try discriminate.
  - injection Hrun as <-. exists k. split; [reflexivity|]. split; [lia|].
    intros Hend fuel2 _.
    assert (Hp : p (nth k s2 NUL) = false).
    { rewrite char_extension; [assumption | lia |]. intros ->. rewrite Ep. auto. }
    destruct fuel2; cbn; rewrite Hp; reflexivity.
  - rewrite advance_at in Hrun.
    destruct (IH (S k) st' ltac:(lia) Hrun) as (k' & -> & Hk' & Hsim).
    exists k'. split; [reflexivity|]. split; [lia|].
    intros Hend fuel2 Hf. destruct fuel2 as [|fuel2]; [lia|].
    cbn. rewrite nth_extension, Ep, advance_at by lia.
    apply Hsim; [assumption | lia].
  - injection Hrun as <-. exists k. split; [reflexivity|]. split; [lia|].
    intros Hend fuel2 _.
    assert (Hp : p (nth k s2 NUL) = false).
    { rewrite char_extension; [assumption | lia |]. intros ->. rewrite Ep. auto. }
    destruct fuel2; cbn; rewrite Hp; reflexivity.
Qed.

Lemma remaining_at (s : str) (k : nat) :
  FormParser.remaining (at_pos s k) = (List.length s - k)%nat.
Proof.
  reflexivity.
Qed.

Lemma collect_word_extension (k : nat) (w : str) (st' : FormParser.state) :
  (k <= List.length s1)%nat ->
  FormParser.collect_word rt (at_pos s1 k) = Ok (w, st') ->
  exists k',
    st' = at_pos s1 k' /\ (k <= k' <= List.length s1)%nat /\
    (((k' = List.length s1)%nat ->
      isalnum rt c2 || (c2 =? FormParser.underscore)%N = false) ->
     FormParser.collect_word rt (at_pos s2 k) = Ok (w, at_pos s2 k')).
Proof.
  intros Hk. unfold FormParser.collect_word.
  cbn [at_pos FormParser.char FormParser.cursor].
  destruct (isalpha rt (nth k s1 NUL)) eqn:Ea; cbn [negb]; [|discriminate].
  assert (Hlt : (k < List.length s1)%nat).
  { apply nth_not_NUL. intros E. rewrite E in Ea. congruence. }
  fold (at_pos s1 k). rewrite remaining_at.
  destruct (FormParser.advance_while _ _ (at_pos s1 k)) as [st1|] eqn:Ew;
    [|discriminate].
  cbn [bind]. intros [= <- <-].
  destruct (advance_while_extension _ (List.length s1 - k)%nat k _ ltac:(lia) Ew)
    as (k' & -> & Hk' & Hsim).
  exists k'. split; [reflexivity|]. split; [assumption|].
  intros Hend. rewrite nth_extension, Ea by assumption. cbn [negb].
  fold (at_pos s2 k). rewrite remaining_at.
  rewrite (Hsim Hend) by (pose proof length_extension; lia).
  cbn [bind at_pos FormParser.cursor FormParser.source].
  rewrite slice_extension by lia. reflexivity.
Qed.

Lemma expect_extension (c : codepoint) (k : nat) (u : unit)
  (st' : FormParser.state) :
  c <> NUL ->
  FormParser.expect c (at_pos s1 k) = Ok (u, st') ->
  st' = at_pos s1 (S k) /\ (k < List.length s1)%nat /\
  FormParser.expect c (at_pos s2 k) = Ok (u, at_pos s2 (S k)).
Proof.
  intros Hc. unfold FormParser.expect. cbn [at_pos FormParser.char].
  destruct (nth k s1 NUL =? c)%N eqn:E; [|discriminate].
  fold (at_pos s1 k) (at_pos s2 k). rewrite !advance_at. intros [= <- <-].
  assert (Hlt : (k < List.length s1)%nat)
    by (eapply codepoint_eqb_not_NUL; eassumption).
  rewrite nth_extension, E by assumption. auto.
Qed.

Lemma collect_bitsize_extension (allowed : list Z) (default : Z) (k : nat)
  (b : Z) (st' : FormParser.state) :
  (k <= List.length s1)%nat ->
  FormParser.collect_bitsize rt allowed default (at_pos s1 k) = Ok (b, st') ->
  exists k',
    st' = at_pos s1 k' /\ (k <= k' <= List.length s1)%nat /\
    (((k' = List.length s1)%nat -> isnumeric rt c2 = false) ->
     FormParser.collect_bitsize rt allowed default (at_pos s2 k)
     = Ok (b, at_pos s2 k')).
Proof.
  intros Hk. unfold FormParser.collect_bitsize, FormParser.collect_integer.
  cbn [at_pos FormParser.char FormParser.cursor].
  fold (at_pos s1 k) (at_pos s2 k). rewrite !remaining_at.
  destruct (isnumeric rt (nth k s1 NUL)) eqn:En.
  - destruct (FormParser.advance_while _ _ (at_pos s1 k)) as [st1|] eqn:Ew;
      [|discriminate].
    destruct (advance_while_extension _ (List.length s1 - k)%nat k _ ltac:(lia) Ew)
      as (k' & -> & Hk' & Hsim).
    cbn [bind at_pos FormParser.cursor FormParser.source].
    destruct (int_of_str rt (slice k k' s1)) as [bitsize|] eqn:Ei;
      [|discriminate].
    cbn [of_option bind].
    destruct (negb (existsb (Z.eqb bitsize) allowed)) eqn:Eb; [discriminate|].
    fold (at_pos s1 k'). intros [= <- <-].
    exists k'. split; [reflexivity|]. split; [assumption|].
    intros Hend.
    assert (Hlt : (k < List.length s1)%nat).
    { destruct (Nat.eq_dec k (List.length s1)) as [->|]; [|lia].
      rewrite Nat.sub_diag in Ew. cbn in Ew. rewrite En in Ew. discriminate. }
    rewrite nth_extension, En by assumption.
    rewrite (Hsim Hend) by (pose proof length_extension; lia).
    cbn [bind at_pos FormParser.cursor FormParser.source].
    rewrite slice_extension, Ei by lia. cbn [of_option bind].
    rewrite Eb. reflexivity.
  - intros [= <- <-]. exists k. split; [reflexivity|]. split; [lia|].
    intros Hend. rewrite char_extension, En; [reflexivity | lia |].
    intros ->. rewrite En. auto.
Qed.

Lemma enum_loop_extension :
  forall (fuel : nat) (items items' : list str) (k : nat)
         (st' : FormParser.state),
  (k <= List.length s1)%nat ->
  FormParser.enum_loop rt fuel items (at_pos s1 k) = Ok (items', st') ->
  exists k',
    st' = at_pos s1 k' /\ (k < k' <= List.length s1)%nat /\
    forall fuel2, (fuel <= fuel2)%nat ->
      FormParser.enum_loop rt fuel2 items (at_pos s2 k)
      = Ok (items', at_pos s2 k').
Proof.
  induction fuel as [|fuel IH]; intros items items' k st' Hk Hrun;
    [discriminate|].
  cbn [FormParser.enum_loop] in Hrun.
  destruct (FormParser.collect_word rt (at_pos s1 k)) as [[w st1]|] eqn:Ew;
    [|discriminate].
  destruct (collect_word_extension _ _ _ Hk Ew) as (k1 & -> & Hk1 & Hsim).
  cbn [bind at_pos FormParser.char] in Hrun. fold (at_pos s1 k1) in Hrun.
  destruct (nth k1 s1 NUL =? 59)%N eqn:Esemi; cbn [negb] in Hrun.
  - (* the list ends *)
    rewrite advance_at in Hrun. injection Hrun as Hi Hs. subst items' st'.
    assert (Hlt : (k1 < List.length s1)%nat) by in_source.
    exists (S k1). split; [reflexivity|]. split; [lia|].
    intros fuel2 Hf. destruct fuel2 as [|fuel2]; [lia|].
    cbn [FormParser.enum_loop]. rewrite Hsim by lia.
    cbn [bind at_pos FormParser.char]. fold (at_pos s2 k1).
    rewrite nth_extension, Esemi by assumption. cbn [negb].
    rewrite advance_at. reflexivity.
  - destruct (FormParser.expect 44%N (at_pos s1 k1)) as [[u st2]|] eqn:Ee;
      [|discriminate].
    destruct (expect_extension 44%N k1 u st2 ltac:(discriminate) Ee)
      as (-> & Hlt & Hsim2).
    cbn [bind] in Hrun.
    destruct (IH _ _ (S k1) _ ltac:(lia) Hrun) as (k' & -> & Hk' & Hsim3).
    exists k'. split; [reflexivity|]. split; [lia|].
    intros fuel2 Hf. destruct fuel2 as [|fuel2]; [lia|].
    cbn [FormParser.enum_loop]. rewrite Hsim by lia.
    cbn [bind at_pos FormParser.char]. fold (at_pos s2 k1).
    rewrite nth_extension, Esemi by assumption. cbn [negb].
    rewrite Hsim2. cbn [bind]. apply Hsim3. lia.
Qed.

Lemma collect_enum_extension (k : nat) (items : list str)
  (st' : FormParser.state) :
  (k <= List.length s1)%nat ->
  FormParser.collect_enum rt (at_pos s1 k) = Ok (items, st') ->
  exists k',
    st' = at_pos s1 k' /\ (k < k' <= List.length s1)%nat /\
    FormParser.collect_enum rt (at_pos s2 k) = Ok (items, at_pos s2 k').
Proof.
  intros Hk. unfold FormParser.collect_enum.
  destruct (FormParser.expect 91%N (at_pos s1 k)) as [[u st1]|] eqn:Ee;
    [|discriminate].
  destruct (expect_extension 91%N k u st1 ltac:(discriminate) Ee)
    as (-> & Hlt & Hsim).
  cbn [bind]. rewrite remaining_at. intros Hrun.
  destruct (enum_loop_extension _ _ _ (S k) _ ltac:(lia) Hrun)
    as (k' & -> & Hk' & Hsim2).
  exists k'. split; [reflexivity|]. split; [lia|].
  rewrite Hsim. cbn [bind]. rewrite remaining_at. apply Hsim2.
  pose proof length_extension. lia.
Qed.

Lemma collect_type_and_value_extension (k : nat) (ty : FieldType)
  (v : FieldValue) (st' : FormParser.state) :
  (k <= List.length s1)%nat ->
  FormParser.collect_type_and_value rt (at_pos s1 k) = Ok ((ty, v), st') ->
  exists k',
    st' = at_pos s1 k' /\ (k < k' <= List.length s1)%nat /\
    (((k' = List.length s1)%nat -> has_bitsize ty = true ->
      isnumeric rt c2 = false) ->
     FormParser.collect_type_and_value rt (at_pos s2 k)
     = Ok ((ty, v), at_pos s2 k')).
Proof.
  intros Hk. unfold FormParser.collect_type_and_value,
    FormParser.collect_bitsize_integer, FormParser.collect_bitsize_float.
  cbn [at_pos FormParser.char FormParser.cursor].
  fold (at_pos s1 k) (at_pos s2 k). rewrite !advance_at.
  destruct (nth k s1 NUL =? 105)%N eqn:Ei;
    [|destruct (nth k s1 NUL =? 102)%N eqn:Ef;
      [|destruct (nth k s1 NUL =? 115)%N eqn:Es;
        [|destruct (nth k s1 NUL =? 101)%N eqn:Ee; [|discriminate]]]].
  - assert (Hlt : (k < List.length s1)%nat) by in_source.
    destruct (FormParser.collect_bitsize rt [8; 16; 32; 64] 8 (at_pos s1 (S k)))
      as [[b st1]|] eqn:Eb; [|discriminate].
    destruct (collect_bitsize_extension _ _ (S k) _ _ ltac:(lia) Eb)
      as (k' & -> & Hk' & Hsim).
    cbn [bind]. intros [= <- <- <-].
    exists k'. split; [reflexivity|]. split; [lia|].
    intros Hend. rewrite nth_extension, Ei by assumption.
    rewrite Hsim by auto. reflexivity.
  - assert (Hlt : (k < List.length s1)%nat) by in_source.
    destruct (FormParser.collect_bitsize rt [32; 64] 32 (at_pos s1 (S k)))
      as [[b st1]|] eqn:Eb; [|discriminate].
    destruct (collect_bitsize_extension _ _ (S k) _ _ ltac:(lia) Eb)
      as (k' & -> & Hk' & Hsim).
    cbn [bind]. intros [= <- <- <-].
    exists k'. split; [reflexivity|]. split; [lia|].
    intros Hend. rewrite nth_extension, Ei, Ef by assumption.
    rewrite Hsim by auto. reflexivity.
  - assert (Hlt : (k < List.length s1)%nat) by in_source.
    intros [= <- <- <-].
    exists (S k). split; [reflexivity|]. split; [lia|].
    intros _. rewrite nth_extension, Ei, Ef, Es by assumption. reflexivity.
  - assert (Hlt : (k < List.length s1)%nat) by in_source.
    destruct (FormParser.collect_enum rt (at_pos s1 (S k)))
      as [[items st1]|] eqn:Eb; [|discriminate].
    destruct (collect_enum_extension (S k) _ _ ltac:(lia) Eb)
      as (k' & -> & Hk' & Hsim).
    cbn [bind]. intros [= <- <- <-].
    exists k'. split; [reflexivity|]. split; [lia|].
    intros _. rewrite nth_extension, Ei, Ef, Es, Ee by assumption.
    rewrite Hsim. reflexivity.
Qed.

Lemma parse_field_extension (k : nat) (field : Field)
  (st' : FormParser.state) :
  (k <= List.length s1)%nat ->
  FormParser.parse_field rt (at_pos s1 k) = Ok (field, st') ->
  exists k',
    st' = at_pos s1 k' /\ (k < k' <= List.length s1)%nat /\
    (((k' = List.length s1)%nat -> has_bitsize (type field) = true ->
      isnumeric rt c2 = false) ->
     FormParser.parse_field rt (at_pos s2 k) = Ok (field, at_pos s2 k')).
Proof.
  intros Hk. unfold FormParser.parse_field.
  destruct (FormParser.collect_word rt (at_pos s1 k)) as [[w st1]|] eqn:Ew;
    [|discriminate].
  destruct (collect_word_extension _ _ _ Hk Ew) as (k1 & -> & Hk1 & Hsim1).
  cbn [bind].
  destruct (FormParser.expect 58%N (at_pos s1 k1)) as [[u st2]|] eqn:Ee;
    [|discriminate].
  destruct (expect_extension 58%N k1 u st2 ltac:(discriminate) Ee)
    as (-> & Hlt & Hsim2).
  cbn [bind].
  destruct (FormParser.collect_type_and_value rt (at_pos s1 (S k1)))
    as [[[ty v] st3]|] eqn:Et; [|discriminate].
  destruct (collect_type_and_value_extension (S k1) _ _ _ ltac:(lia) Et)
    as (k' & -> & Hk' & Hsim3).
  cbn [bind]. intros [= <- <-].
  exists k'. split; [reflexivity|]. split; [lia|].
  cbn [type]. intros Hend.
  rewrite Hsim1 by lia. cbn [bind]. rewrite Hsim2. cbn [bind].
  rewrite Hsim3 by assumption. reflexivity.
Qed.

End Extension.

Lemma last_as_nth {A} (l : list A) (d : A) :
  last l d = nth (List.length l - 1) l d.
Proof.
  induction l as [|a l IH]; [reflexivity|].
  destruct l as [|b l]; [reflexivity|].
  change (last (a :: b :: l) d) with (last (b :: l) d). rewrite IH.
  cbn [List.length]. rewrite !Nat.sub_succ, !Nat.sub_0_r. reflexivity.
Qed.

Lemma ends_with_bitsize_add (form : Form) (field : Field) :
  ends_with_bitsize (Form.add_field form field) = has_bitsize (type field).
Proof.
  unfold ends_with_bitsize, Form.add_field. cbn [fields].
  rewrite rev_unit. reflexivity.
Qed.

Lemma parse_form_run_at (rt : Runtime) (s : str) :
  s <> [] ->
  FormParser.parse_form_run rt s
  = FormParser.form_loop rt (List.length s) {| fields := [] |} (at_pos s 0).
Proof.
  destruct s as [|c s]; [congruence | reflexivity].
Qed.

Section TrailingText.
Context (rt : Runtime) (s1 t : str).
Hypothesis isalpha_NUL : isalpha rt NUL = false.
(** [s1] does not end with a comma. *)
Hypothesis last_not_comma : last s1 NUL <> 44%N.

Let s2 : str := s1 ++ t.
Let c2 : codepoint := nth (List.length s1) s2 NUL.

(** What follows [s1]: something other than a comma, or one comma and
    nothing else. *)
Hypothesis tail_shape : (c2 =? 44)%N = false \/ t = [44%N].

(** Where the parser stops in [s2]. *)
Let stop : nat :=
  if (c2 =? 44)%N then S (List.length s1) else List.length s1.

Lemma form_loop_extension :
  forall (fuel : nat) (form form' : Form) (k : nat) (st' : FormParser.state),
  (k < List.length s1)%nat ->
  FormParser.form_loop rt fuel form (at_pos s1 k) = Ok (form', st') ->
  FormParser.cursor st' = List.length s1 ->
  (ends_with_bitsize form' = true -> isnumeric rt c2 = false) ->
  forall fuel2, (fuel <= fuel2)%nat ->
    FormParser.form_loop rt fuel2 form (at_pos s2 k) = Ok (form', at_pos s2 stop).
Proof.
  induction fuel as [|fuel IH]; intros form form' k st' Hk Hrun Hcur Hnum fuel2 Hf.
  - cbn [FormParser.form_loop at_pos FormParser.cursor FormParser.length]
      in Hrun.
    apply Nat.ltb_lt in Hk. rewrite Hk in Hrun. discriminate.
  - destruct fuel2 as [|fuel2]; [lia|].
    pose proof (length_extension s1 t) as Hlen. fold s2 in Hlen.
    cbn [FormParser.form_loop at_pos FormParser.cursor FormParser.length] in *.
    fold (at_pos s1 k) in Hrun. fold (at_pos s2 k).
    replace (k <? List.length s1)%nat with true in Hrun
      by (symmetry; apply Nat.ltb_lt; lia).
    replace (k <? List.length s2)%nat with true
      by (symmetry; apply Nat.ltb_lt; lia).
    destruct (FormParser.parse_field rt (at_pos s1 k)) as [[field st1]|] eqn:Ep;
      [|discriminate].
    destruct (parse_field_extension rt s1 t isalpha_NUL k field st1
                ltac:(lia) Ep) as (k1 & -> & Hk1 & Hsim).
    fold s2 c2 in Hsim.
    cbn [bind at_pos FormParser.char] in Hrun. fold (at_pos s1 k1) in Hrun.
    destruct (nth k1 s1 NUL =? 44)%N eqn:Ec; cbn [negb] in Hrun.
    + (* a comma inside [s1]: both parsers go on *)
      assert (Hlt : (k1 < List.length s1)%nat) by in_source.
      rewrite advance_at in Hrun.
      rewrite Hsim by lia. cbn [bind at_pos FormParser.char].
      fold (at_pos s2 k1). unfold s2 at 1. rewrite app_nth1 by assumption.
      rewrite Ec. cbn [negb]. rewrite advance_at.
      destruct (Nat.eq_dec (S k1) (List.length s1)) as [Hend|Hne].
      * exfalso. apply last_not_comma. rewrite last_as_nth.
        replace (List.length s1 - 1)%nat with k1 by lia.
        apply N.eqb_eq. assumption.
      * apply (IH _ _ (S k1) st'); try assumption; lia.
    + (* the parser of [s1] stops here, at the end of [s1] *)
      injection Hrun as <- <-. cbn [at_pos FormParser.cursor] in Hcur. subst k1.
      rewrite ends_with_bitsize_add in Hnum.
      rewrite Hsim by auto. cbn [bind at_pos FormParser.char].
      fold c2. fold (at_pos s2 (List.length s1)). unfold stop.
      destruct tail_shape as [Hc|Ht].
      * rewrite Hc. reflexivity.
      * assert (Hc : (c2 =? 44)%N = true).
        { unfold c2, s2. rewrite Ht, app_nth2, Nat.sub_diag by lia. reflexivity. }
        rewrite Hc. cbn [negb]. rewrite advance_at.
        assert (Hl2 : List.length s2 = S (List.length s1))
          by (unfold s2; rewrite Ht, length_app; cbn; lia).
        destruct fuel2; cbn [FormParser.form_loop at_pos FormParser.cursor
                               FormParser.length];
          rewrite Hl2, Nat.ltb_irrefl; reflexivity.
Qed.

Lemma parse_form_run_extension (form : Form) (st : FormParser.state) :
  FormParser.parse_form_run rt s1 = Ok (form, st) ->
  FormParser.cursor st = List.length s1 ->
  (ends_with_bitsize form = true -> isnumeric rt c2 = false) ->
  FormParser.parse_form rt s2 = Ok form.
Proof.
  intros Hrun Hcur Hnum.
  assert (Hne : s1 <> []) by (intros E; rewrite E in Hrun; discriminate).
  assert (Hpos : (0 < List.length s1)%nat)
    by (destruct s1; [congruence | cbn; lia]).
  assert (Hne2 : s2 <> []).
  { unfold s2. intros E. apply app_eq_nil in E as [E _]. contradiction. }
  rewrite parse_form_run_at in Hrun by assumption.
  unfold FormParser.parse_form. rewrite parse_form_run_at by assumption.
  rewrite (form_loop_extension _ _ _ _ _ Hpos Hrun Hcur Hnum (List.length s2)).
  - reflexivity.
  - apply length_extension.
Qed.

End TrailingText.

(** ** The parser always returns

    With the usual character classes on ASCII no loop of the parser runs
    for ever: [NUL], the character past the end of the source, is neither a
    letter nor a digit. *)

Section Termination.
Context (rt : Runtime) (s : str).
Hypothesis classes : ascii_classes rt.

Lemma advance_while_returns (p : codepoint -> bool) :
  p NUL = false ->
  forall (fuel k : nat),
  (List.length s <= fuel + k)%nat ->
  exists k', FormParser.advance_while p fuel (at_pos s k) = Ok (at_pos s k')
             /\ (k <= k')%nat.
Proof.
  intros Hp. induction fuel as [|fuel IH]; intros k Hk;
    cbn [FormParser.advance_while at_pos FormParser.char].
  - rewrite nth_overflow, Hp by lia. exists k. split; [reflexivity | lia].
  - destruct (p (nth k s NUL)).
    + fold (at_pos s k). rewrite advance_at.
      destruct (IH (S k) ltac:(lia)) as (k' & -> & Hk').
      exists k'. split; [reflexivity | lia].
    + exists k. split; [reflexivity | lia].
Qed.

Lemma word_class_NUL :
  isalnum rt NUL || (NUL =? FormParser.underscore)%N = false.
Proof.
  destruct (classes NUL) as (_ & -> & _); reflexivity.
Qed.

Lemma isnumeric_NUL : isnumeric rt NUL = false.
Proof.
  destruct (classes NUL) as (_ & _ & ->); reflexivity.
Qed.

Lemma collect_word_returns (k : nat) :
  FormParser.collect_word rt (at_pos s k) <> Raise Diverges /\
  forall w st', FormParser.collect_word rt (at_pos s k) = Ok (w, st') ->
    exists k', st' = at_pos s k' /\ (k <= k')%nat.
Proof.
  unfold FormParser.collect_word. cbn [at_pos FormParser.char FormParser.cursor].
  destruct (negb (isalpha rt (nth k s NUL))); [split; discriminate|].
  fold (at_pos s k). rewrite remaining_at.
  destruct (advance_while_returns
              (fun c => isalnum rt c || (c =? FormParser.underscore)%N)
              word_class_NUL (List.length s - k) k ltac:(lia))
    as (k' & -> & Hk').
  cbn [bind]. split; [discriminate|].
  intros w st' [= <- <-]. eauto.
Qed.

Lemma expect_returns (c : codepoint) (k : nat) :
  FormParser.expect c (at_pos s k) <> Raise Diverges /\
  forall u st', FormParser.expect c (at_pos s k) = Ok (u, st') ->
    st' = at_pos s (S k) /\ (c <> NUL -> (k < List.length s)%nat).
Proof.
  unfold FormParser.expect.
  destruct (FormParser.char (at_pos s k) =? c)%N eqn:E; [|split; discriminate].
  rewrite advance_at. split; [discriminate|]. intros u st' [= <- <-].
  split; [reflexivity|]. apply codepoint_eqb_not_NUL. exact E.
Qed.

Lemma collect_bitsize_returns (allowed : list Z) (default : Z) (k : nat) :
  FormParser.collect_bitsize rt allowed default (at_pos s k) <> Raise Diverges /\
  forall b st',
    FormParser.collect_bitsize rt allowed default (at_pos s k) = Ok (b, st') ->
    exists k', st' = at_pos s k' /\ (k <= k')%nat.
Proof.
  unfold FormParser.collect_bitsize, FormParser.collect_integer.
  destruct (isnumeric rt (FormParser.char (at_pos s k))).
  - rewrite remaining_at.
    destruct (advance_while_returns (isnumeric rt) isnumeric_NUL
                (List.length s - k) k ltac:(lia)) as (k' & -> & Hk').
    cbn [bind at_pos FormParser.cursor FormParser.source].
    destruct (int_of_str rt (slice k k' s)) as [bitsize|]; cbn [of_option bind];
      [|split; discriminate].
    destruct (negb (existsb (Z.eqb bitsize) allowed)); [split; discriminate|].
    split; [discriminate|]. intros b st' [= <- <-]. exists k'. auto.
  - split; [discriminate|]. intros b st' [= <- <-]. exists k. auto.
Qed.

Lemma enum_loop_returns :
  forall (fuel : nat) (items : list str) (k : nat),
  (k <= List.length s < fuel + k)%nat ->
  FormParser.enum_loop rt fuel items (at_pos s k) <> Raise Diverges /\
  forall items' st',
    FormParser.enum_loop rt fuel items (at_pos s k) = Ok (items', st') ->
    exists k', st' = at_pos s k' /\ (k <= k')%nat.
Proof.
  induction fuel as [|fuel IH]; intros items k Hk.
  - exfalso. lia.
  - cbn [FormParser.enum_loop].
    destruct (collect_word_returns k) as (Hw & Hw').
    destruct (FormParser.collect_word rt (at_pos s k)) as [[w st1]|e] eqn:Ew.
    + destruct (Hw' w st1 eq_refl) as (k1 & -> & Hk1). cbn [bind].
      destruct (negb (FormParser.char (at_pos s k1) =? 59)%N) eqn:Esemi.
      * destruct (expect_returns 44%N k1) as (He & He').
        destruct (FormParser.expect 44%N (at_pos s k1)) as [[u st2]|e] eqn:Ee.
        -- destruct (He' u st2 eq_refl) as (-> & Hin).
           specialize (Hin ltac:(discriminate)). cbn [bind].
           destruct (IH (items ++ [w]) (S k1) ltac:(lia)) as (Hd & Hok).
           split; [assumption|].
           intros items' st' Hrun. destruct (Hok _ _ Hrun) as (k' & -> & ?).
           exists k'. split; [reflexivity | lia].
        -- cbn [bind]. split; [congruence|]. discriminate.
      * rewrite advance_at. split; [discriminate|].
        intros items' st' [= <- <-]. exists (S k1). split; [reflexivity | lia].
    + cbn [bind]. split; [congruence|]. discriminate.
Qed.

Lemma collect_enum_returns (k : nat) :
  FormParser.collect_enum rt (at_pos s k) <> Raise Diverges /\
  forall items st',
    FormParser.collect_enum rt (at_pos s k) = Ok (items, st') ->
    exists k', st' = at_pos s k' /\ (k <= k')%nat.
Proof.
  unfold FormParser.collect_enum.
  destruct (expect_returns 91%N k) as (He & He').
  destruct (FormParser.expect 91%N (at_pos s k)) as [[u st1]|e] eqn:Ee.
  - destruct (He' u st1 eq_refl) as (-> & Hin).
    specialize (Hin ltac:(discriminate)). cbn [bind]. rewrite remaining_at.
    destruct (enum_loop_returns (S (List.length s - S k)) [] (S k) ltac:(lia))
      as (Hd & Hok).
    split; [assumption|]. intros items st' Hrun.
    destruct (Hok _ _ Hrun) as (k' & -> & ?).
    exists k'. split; [reflexivity | lia].
  - cbn [bind]. split; [congruence | discriminate].
Qed.

Lemma collect_type_and_value_returns (k : nat) :
  FormParser.collect_type_and_value rt (at_pos s k) <> Raise Diverges /\
  forall tv st',
    FormParser.collect_type_and_value rt (at_pos s k) = Ok (tv, st') ->
    exists k', st' = at_pos s k' /\ (k < k')%nat.
Proof.
  unfold FormParser.collect_type_and_value,
    FormParser.collect_bitsize_integer, FormParser.collect_bitsize_float.
  rewrite !advance_at.
  destruct (FormParser.char (at_pos s k) =? 105)%N;
    [|destruct (FormParser.char (at_pos s k) =? 102)%N;
      [|destruct (FormParser.char (at_pos s k) =? 115)%N;
        [|destruct (FormParser.char (at_pos s k) =? 101)%N;
          [|split; discriminate]]]].
  - destruct (collect_bitsize_returns [8; 16; 32; 64] 8 (S k)) as (Hd & Hok).
    destruct (FormParser.collect_bitsize rt [8; 16; 32; 64] 8 (at_pos s (S k)))
      as [[b st1]|e]; cbn [bind]; [|split; [congruence | discriminate]].
    split; [discriminate|]. intros tv st' [= <- <-].
    destruct (Hok _ _ eq_refl) as (k' & -> & ?).
    exists k'. split; [reflexivity | lia].
  - destruct (collect_bitsize_returns [32; 64] 32 (S k)) as (Hd & Hok).
    destruct (FormParser.collect_bitsize rt [32; 64] 32 (at_pos s (S k)))
      as [[b st1]|e]; cbn [bind]; [|split; [congruence | discriminate]].
    split; [discriminate|]. intros tv st' [= <- <-].
    destruct (Hok _ _ eq_refl) as (k' & -> & ?).
    exists k'. split; [reflexivity | lia].
  - split; [discriminate|]. intros tv st' [= <- <-].
    exists (S k). split; [reflexivity | lia].
  - destruct (collect_enum_returns (S k)) as (Hd & Hok).
    destruct (FormParser.collect_enum rt (at_pos s (S k)))
      as [[items st1]|e]; cbn [bind]; [|split; [congruence | discriminate]].
    split; [discriminate|]. intros tv st' [= <- <-].
    destruct (Hok _ _ eq_refl) as (k' & -> & ?).
    exists k'. split; [reflexivity | lia].
Qed.

Lemma parse_field_returns (k : nat) :
  FormParser.parse_field rt (at_pos s k) <> Raise Diverges /\
  forall field st',
    FormParser.parse_field rt (at_pos s k) = Ok (field, st') ->
    exists k', st' = at_pos s k' /\ (k < k')%nat.
Proof.
  unfold FormParser.parse_field.
  destruct (collect_word_returns k) as (Hw & Hw').
  destruct (FormParser.collect_word rt (at_pos s k)) as [[w st1]|e];
    cbn [bind]; [|split; [congruence | discriminate]].
  destruct (Hw' _ _ eq_refl) as (k1 & -> & Hk1).
  destruct (expect_returns 58%N k1) as (He & He').
  destruct (FormParser.expect 58%N (at_pos s k1)) as [[u st2]|e];
    cbn [bind]; [|split; [congruence | discriminate]].
  destruct (He' _ _ eq_refl) as (-> & _).
  destruct (collect_type_and_value_returns (S k1)) as (Ht & Ht').
  destruct (FormParser.collect_type_and_value rt (at_pos s (S k1)))
    as [[[ty v] st3]|e]; cbn [bind]; [|split; [congruence | discriminate]].
  destruct (Ht' _ _ eq_refl) as (k' & -> & Hk').
  split; [discriminate|]. intros field st' [= <- <-].
  exists k'. split; [reflexivity | lia].
Qed.

Lemma form_loop_returns :
  forall (fuel : nat) (form : Form) (k : nat),
  (List.length s <= fuel + k)%nat ->
  FormParser.form_loop rt fuel form (at_pos s k) <> Raise Diverges.
Proof.
  induction fuel as [|fuel IH]; intros form k Hk;
    cbn [FormParser.form_loop at_pos FormParser.cursor FormParser.length].
  - replace (k <? List.length s)%nat with false
      by (symmetry; apply Nat.ltb_ge; lia).
    discriminate.
  - destruct (k <? List.length s)%nat; [|discriminate].
    fold (at_pos s k).
    destruct (parse_field_returns k) as (Hp & Hp').
    destruct (FormParser.parse_field rt (at_pos s k)) as [[field st1]|e];
      cbn [bind]; [|congruence].
    destruct (Hp' _ _ eq_refl) as (k1 & -> & Hk1).
    destruct (negb (FormParser.char (at_pos s k1) =? 44)%N); [discriminate|].
    rewrite advance_at. apply IH. lia.
Qed.

End Termination.

(** X2.  The parser ends on every schema: it returns a form or raises an
    exception, and none of its loops, in [parse_form], [collect_word],
    [collect_integer] and [collect_enum], runs on for ever. *)
Lemma parse_form_returns (rt : Runtime) (s : str) :
  ascii_classes rt ->
  (exists form, FormParser.parse_form rt s = Ok form) \/
  (exists e, FormParser.parse_form rt s = Raise e /\ e <> Diverges).
Proof.
  intros Hclasses. unfold FormParser.parse_form.
  destruct s as [|c s]; [right; exists IndexError; split; [reflexivity | discriminate]|].
  rewrite parse_form_run_at by discriminate.
  pose proof (form_loop_returns rt (c :: s) Hclasses (List.length (c :: s))
                {| fields := [] |} 0 ltac:(lia)) as Hd.
  destruct (FormParser.form_loop rt (List.length (c :: s)) {| fields := [] |}
              (at_pos (c :: s) 0)) as [[form st]|e]; cbn [bind].
  - left. eauto.
  - right. exists e. split; [reflexivity | congruence].
Qed.

(** ** The fields the parser builds *)

Section ParsedFields.
Context (rt : Runtime).

Lemma collect_bitsize_allowed (allowed : list Z) (default : Z)
  (st st' : FormParser.state) (b : Z) :
  existsb (Z.eqb default) allowed = true ->
  FormParser.collect_bitsize rt allowed default st = Ok (b, st') ->
  existsb (Z.eqb b) allowed = true.
Proof.
  intros Hd. unfold FormParser.collect_bitsize.
  destruct (isnumeric rt (FormParser.char st)).
  - destruct (FormParser.collect_integer rt st) as [[digits st1]|];
      [|discriminate].
    cbn [bind].
    destruct (int_of_str rt digits) as [bitsize|]; [|discriminate].
    cbn [of_option bind].
    destruct (existsb (Z.eqb bitsize) allowed) eqn:E; [|discriminate].
    cbn [negb]. intros [= <- <-]. exact E.
  - intros [= <- <-]. exact Hd.
Qed.

Lemma parse_field_parsed (st st' : FormParser.state) (f : Field) :
  FormParser.parse_field rt st = Ok (f, st') -> parsed_field f = true.
Proof.
  unfold FormParser.parse_field.
  destruct (FormParser.collect_word rt st) as [[w st1]|]; [|discriminate].
  cbn [bind].
  destruct (FormParser.expect 58%N st1) as [[u st2]|]; [|discriminate].
  cbn [bind]. unfold FormParser.collect_type_and_value,
    FormParser.collect_bitsize_integer, FormParser.collect_bitsize_float.
  destruct (FormParser.char st2 =? 105)%N.
  { destruct (FormParser.collect_bitsize rt [8; 16; 32; 64] 8 _)
      as [[b st3]|] eqn:Eb; [|discriminate].
    cbn [bind]. intros [= <- <-].
    apply collect_bitsize_allowed in Eb; [exact Eb | reflexivity]. }
  destruct (FormParser.char st2 =? 102)%N.
  { destruct (FormParser.collect_bitsize rt [32; 64] 32 _)
      as [[b st3]|] eqn:Eb; [|discriminate].
    cbn [bind]. intros [= <- <-].
    apply collect_bitsize_allowed in Eb; [exact Eb | reflexivity]. }
  destruct (FormParser.char st2 =? 115)%N.
  { intros [= <- <-]. reflexivity. }
  destruct (FormParser.char st2 =? 101)%N; [|discriminate].
  destruct (FormParser.collect_enum rt _) as [[items st3]|]; [|discriminate].
  cbn [bind]. intros [= <- <-]. reflexivity.
Qed.

Lemma form_loop_parsed :
  forall (fuel : nat) (form form' : Form) (st st' : FormParser.state),
  forallb parsed_field (fields form) = true ->
  FormParser.form_loop rt fuel form st = Ok (form', st') ->
  forallb parsed_field (fields form') = true.
Proof.
  induction fuel as [|fuel IH]; intros form form' st st' Hform;
    cbn [FormParser.form_loop];
    destruct (FormParser.cursor st <? FormParser.length st)%nat;
    try discriminate; try (intros [= <- <-]; exact Hform).
  destruct (FormParser.parse_field rt st) as [[field st1]|] eqn:Ep;
    [|discriminate].
  cbn [bind].
  assert (Hadd : forallb parsed_field (fields (Form.add_field form field))
                 = true).
  { unfold Form.add_field. cbn [fields].
    rewrite forallb_app, Hform. cbn [forallb andb].
    rewrite (parse_field_parsed _ _ _ Ep). reflexivity. }
  destruct (negb (FormParser.char st1 =? 44)%N).
  - intros [= <- <-]. exact Hadd.
  - apply IH. exact Hadd.
Qed.

End ParsedFields.

(** X3.  Every field of a form that [parse_form] returns is a string field or a
    fixed-width field with a bit size the data model allows. *)
Lemma parse_form_parsed (rt : Runtime) (s : str) (form : Form) :
  FormParser.parse_form rt s = Ok form ->
  forallb parsed_field (fields form) = true.
Proof.
  unfold FormParser.parse_form, FormParser.parse_form_run.
  destruct s as [|c s]; [discriminate|].
  destruct (FormParser.form_loop _ _ _ _) as [[form' st]|] eqn:El;
    [|discriminate].
  cbn [bind]. intros [= <-].
  apply (form_loop_parsed rt _ {| fields := [] |} _ _ _ eq_refl El).
Qed.

(** ** The parser: what follows the last field *)

Lemma ascii_isalpha_NUL (rt : Runtime) :
  ascii_classes rt -> isalpha rt NUL = false.
Proof.
  intros H. destruct (H NUL) as (-> & _); [reflexivity | reflexivity].
Qed.

Lemma nth_after {A} (l : list A) (c : A) (rest : list A) (d : A) :
  nth (List.length l) (l ++ c :: rest) d = c.
Proof.
  rewrite app_nth2, Nat.sub_diag by lia. reflexivity.
Qed.

(** One turn of the loop of [parse_form]. *)
Lemma form_loop_turn (rt : Runtime) (fuel : nat) (form : Form)
  (st st1 : FormParser.state) (field : Field) :
  (FormParser.cursor st < FormParser.length st)%nat ->
  FormParser.parse_field rt st = Ok (field, st1) ->
  FormParser.form_loop rt (S fuel) form st
  = if (FormParser.char st1 =? 44)%N
    then FormParser.form_loop rt fuel (Form.add_field form field)
           (FormParser.advance st1)
    else Ok (Form.add_field form field, st1).
Proof.
  intros Hlt Hp. cbn [FormParser.form_loop].
  apply Nat.ltb_lt in Hlt. rewrite Hlt, Hp. cbn [bind].
  destruct (FormParser.char st1 =? 44)%N; reflexivity.
Qed.



(** C6 (as amended).  After the type of a field the parser goes on past a
    comma and stops without error at anything else: a schema that is read to
    its end as fields gives the same form when any text that does not start
    with a comma is put after it (after an integer or a float, text that
    does not start with a digit either, for a digit there is read as the bit
    size).  An enum ends at its [;] and no [ ] ] is read, so an enum followed
    by [ ] ], or by any character but a comma, ends the form and the fields
    written after it are dropped. *)
Theorem parse_form_stops_after_field (rt : Runtime) (s : str) (form : Form)
  (st : FormParser.state) (c : codepoint) (rest : str) :
  ascii_classes rt ->
  FormParser.parse_form_run rt s = Ok (form, st) ->
  FormParser.cursor st = List.length s ->
  last s NUL <> 44%N ->
  c <> 44%N ->
  (ends_with_bitsize form = true -> isnumeric rt c = false) ->
  FormParser.parse_form rt (s ++ c :: rest) = Ok form /\
  forall (fuel : nat) (form0 : Form) (st0 st1 : FormParser.state)
         (field : Field),
    (FormParser.cursor st0 < FormParser.length st0)%nat ->
    FormParser.parse_field rt st0 = Ok (field, st1) ->
    FormParser.form_loop rt (S fuel) form0 st0
    = if (FormParser.char st1 =? 44)%N
      then FormParser.form_loop rt fuel (Form.add_field form0 field)
             (FormParser.advance st1)
      else Ok (Form.add_field form0 field, st1).
Proof.
  intros Hascii Hrun Hcur Hlast Hc Hnum. split.
  - apply (parse_form_run_extension rt s (c :: rest)
             (ascii_isalpha_NUL rt Hascii) Hlast) with (st := st);
      try assumption.
    + left. rewrite nth_after. apply N.eqb_neq. assumption.
    + rewrite nth_after. assumption.
  - intros fuel form0 st0 st1 field. apply form_loop_turn.
Qed.

Lemma parse_form_stops_after_field_witness :
  FormParser.parse_form ascii_runtime (cps "a:e[x,y;" ++ 93%N :: cps ",b:i8")
  = Ok {| fields :=
            [{| name := cps "a"; type := ENUM;
                value := Items [cps "x"; cps "y"] |}] |} /\
  forall (fuel : nat) (form0 : Form) (st0 st1 : FormParser.state)
         (field : Field),
    (FormParser.cursor st0 < FormParser.length st0)%nat ->
    FormParser.parse_field ascii_runtime st0 = Ok (field, st1) ->
    FormParser.form_loop ascii_runtime (S fuel) form0 st0
    = if (FormParser.char st1 =? 44)%N
      then FormParser.form_loop ascii_runtime fuel
             (Form.add_field form0 field) (FormParser.advance st1)
      else Ok (Form.add_field form0 field, st1).
Proof.
  apply (parse_form_stops_after_field ascii_runtime (cps "a:e[x,y;") _
           (at_pos (cps "a:e[x,y;") 8) 93%N (cps ",b:i8")).
  - exact ascii_runtime_classes.
  - reflexivity.
  - reflexivity.
  - vm_compute. discriminate.
  - discriminate.
  - discriminate.
Defined.

(** C6 (as stated) does not hold: an enum that is not the last field, with
    the comma right after its [;], is followed by the next field. *)
Lemma enum_then_comma_continues :
  FormParser.parse_form ascii_runtime (cps "a:e[x;,b:i8")
  = Ok {| fields :=
            [{| name := cps "a"; type := ENUM; value := Items [cps "x"] |};
             {| name := cps "b"; type := INTEGER; value := Bitsize 8 |}] |}.
Proof.
  reflexivity.
Qed.
(** ** Integer fields: bounds and value *)

(** X4.  [Field.decode] on an integer field of 8, 16, 32 or 64 bits reads the
    [bits/8] bytes at [offset] as a big-endian two's-complement number, and
    raises when fewer bytes are left. *)
Theorem decode_integer_bounds (rt : Runtime) (f : Field) (bits : Z)
  (input : list byte) (offset : nat) :
  type f = INTEGER -> value f = Bitsize bits -> In bits [8; 16; 32; 64] ->
  let nbytes := Z.to_nat (bits / 8) in
  let u := be_uint (slice offset (offset + nbytes) input) in
  Field.decode rt f input offset
  = if (offset + nbytes <=? List.length input)%nat
    then Ok (VInt (if u <? 2 ^ (bits - 1) then u else u - 2 ^ bits))
    else Raise ReadError.
Proof.
  intros Ht Hv Hbits nbytes u. unfold Field.decode. rewrite Ht, Hv.
  cbn [Field.bitsize bind]. unfold bitstring.unpack_int.
  assert (Hb : 0 < bits /\ (bits + 7) / 8 = bits / 8 /\ 8 * (bits / 8) = bits).
  { cbn [In] in Hbits.
    destruct Hbits as [<-|[<-|[<-|[<-|[]]]]]; repeat split; reflexivity. }
  destruct Hb as (Hpos & Hceil & Hmul).
  destruct (offset + nbytes <=? List.length input)%nat eqn:E.
  - apply Nat.leb_le in E.
    rewrite unpack_uint_leading;
      [|assumption|rewrite Hceil, length_skipn; subst nbytes; lia].
    cbn [bind]. rewrite Hceil, Hmul, Z.sub_diag, Z.shiftr_0_r.
    replace (firstn (Z.to_nat (bits / 8)) (skipn offset input))
      with (slice offset (offset + nbytes) input)
      by (unfold slice; subst nbytes; f_equal; lia).
    reflexivity.
  - apply Nat.leb_gt in E. unfold bitstring.unpack_uint, bitstring.BitStream.
    cbn [bitstring.len].
    replace (bits =? 0) with false by (symmetry; apply Z.eqb_neq; lia).
    replace ((0 <? bits) && (bits <=? 8 * Z.of_nat (List.length (skipn offset input))))
      with false; [reflexivity|].
    symmetry. apply andb_false_iff. right. apply Z.leb_gt.
    rewrite length_skipn. subst nbytes. lia.
Qed.

Lemma decode_integer_bounds_witness :
  Field.decode ascii_runtime
    {| name := cps "n"; type := INTEGER; value := Bitsize 16 |}
    [x00; xff; xfe] 1
  = if (1 + Z.to_nat (16 / 8) <=? List.length [x00; xff; xfe])%nat
    then Ok (VInt (if be_uint (slice 1 (1 + Z.to_nat (16 / 8)) [x00; xff; xfe])
                      <? 2 ^ (16 - 1)
                   then be_uint (slice 1 (1 + Z.to_nat (16 / 8)) [x00; xff; xfe])
                   else be_uint (slice 1 (1 + Z.to_nat (16 / 8)) [x00; xff; xfe])
                        - 2 ^ 16))
    else Raise ReadError.
Proof.
  apply (decode_integer_bounds ascii_runtime
           {| name := cps "n"; type := INTEGER; value := Bitsize 16 |} 16
           [x00; xff; xfe] 1).
  - reflexivity.
  - reflexivity.
  - cbn. auto.
Defined.

(** ** Enum fields: which texts are accepted *)

Lemma existsb_index (x : str) (l : list str) :
  existsb (str_eqb x) l = true ->
  exists i, index str_eqb x l = Some i /\ (i < List.length l)%nat.
Proof.
  induction l as [|y l IH]; cbn [existsb index List.length]; [discriminate|].
  destruct (str_eqb y x) eqn:Eyx.
  - intros _. exists O. split; [reflexivity | lia].
  - destruct (str_eqb x y) eqn:Exy.
    + apply str_eqb_eq in Exy. subst.
      assert (str_eqb y y = true) by (apply str_eqb_eq; reflexivity).
      congruence.
    + cbn [orb]. intros H. destruct (IH H) as (i & -> & Hi).
      exists (S i). split; [reflexivity | lia].
Qed.

Lemma existsb_str_In (x : str) (l : list str) :
  existsb (str_eqb x) l = true <-> In x l.
Proof.
  rewrite existsb_exists. split.
  - intros (y & Hin & Hy). apply str_eqb_eq in Hy. subst. assumption.
  - intros Hin. exists x. split; [assumption | apply str_eqb_eq; reflexivity].
Qed.

(** X5.  [Field.encode] on an enum field accepts exactly the items: the bit
    width [ceil(log2(n + 1))] holds every index, and a text that is not an
    item is rejected with the list of the items. *)
Theorem encode_enum_member (rt : Runtime) (f : Field) (items : list str)
  (text : str) :
  log2_exact rt ->
  type f = ENUM -> value f = Items items ->
  (In text items -> exists out, Field.encode rt f text = Ok out) /\
  (~ In text items -> Field.encode rt f text = Raise (InvalidEnum items text)).
Proof.
  intros Hlog Ht Hv. unfold Field.encode. rewrite Ht, Hv.
  cbn [Field.items_of bind]. split.
  - intros Hin. apply existsb_str_In in Hin. rewrite Hin. cbn [negb].
    destruct (existsb_index _ _ Hin) as (i & -> & Hi). cbn [of_option bind].
    unfold bitstring.pack_uint. rewrite (enum_bits_exact rt items Hlog).
    set (n := Z.of_nat (List.length items)).
    assert (Hn : 1 < n + 1) by (subst n; lia).
    pose proof (Z.log2_up_spec (n + 1) Hn) as [_ Hup].
    pose proof (Z.log2_up_pos (n + 1) Hn) as Hpos.
    replace ((0 <? Z.log2_up (n + 1)) && (0 <=? Z.of_nat i)
             && (Z.of_nat i <? 2 ^ Z.log2_up (n + 1))) with true.
    + cbn [bind]. eauto.
    + symmetry. rewrite !andb_true_iff. repeat split;
        [apply Z.ltb_lt | apply Z.leb_le | apply Z.ltb_lt]; subst n; lia.
  - intros Hnot.
    destruct (existsb (str_eqb text) items) eqn:E; [|reflexivity].
    apply existsb_str_In in E. contradiction.
Qed.

Lemma encode_enum_member_witness :
  let items := [cps "on"; cps "off"] in
  let f := {| name := cps "s"; type := ENUM; value := Items items |} in
  (In (cps "maybe") items ->
   exists out, Field.encode ascii_runtime f (cps "maybe") = Ok out) /\
  (~ In (cps "maybe") items ->
   Field.encode ascii_runtime f (cps "maybe")
   = Raise (InvalidEnum items (cps "maybe"))).
Proof.
  apply (encode_enum_member ascii_runtime
           {| name := cps "s"; type := ENUM;
              value := Items [cps "on"; cps "off"] |}).
  - exact ascii_runtime_log2.
  - reflexivity.
  - reflexivity.
Defined.
(** ** String fields: the terminating NUL and ASCII round trip *)

Lemma index_byte_None (l : list byte) :
  index byte_eqb x00 l = None <-> ~ In x00 l.
Proof.
  induction l as [|y l IH]; cbn [index In]; [tauto|].
  unfold byte_eqb at 1. destruct (Byte.eqb y x00) eqn:E.
  - apply Byte.byte_dec_bl in E. subst. split; [discriminate|].
    intros H. exfalso. apply H. left. reflexivity.
  - apply Byte.eqb_false in E.
    destruct (index byte_eqb x00 l) as [n|]; cbn [option_map].
    + split; [discriminate|]. intros H.
      assert (Hn : Some n = None)
        by (apply IH; intros Hin; apply H; right; exact Hin).
      discriminate.
    + split; [|reflexivity]. intros _ [H|H]; [congruence|].
      apply (proj1 IH eq_refl). exact H.
Qed.

Lemma decode_n_raises :
  forall (n : nat) (bs : list N) (e : exn),
  (List.length bs <= n)%nat ->
  utf8.decode_n bs = Raise e -> e = UnicodeError.
Proof.
  induction n as [|n IH]; intros bs e Hn.
  - destruct bs; [discriminate | cbn in Hn; lia].
  - destruct bs as [|b0 r0]; [discriminate|].
    cbn [List.length] in Hn. cbn [utf8.decode_n].
    assert (Hrec : forall r (k : str -> result str),
              (List.length r <= n)%nat ->
              (forall t, k t <> Raise e \/ e = UnicodeError) ->
              bind (utf8.decode_n r) k = Raise e -> e = UnicodeError).
    { intros r k Hr Hk. destruct (utf8.decode_n r) as [t|e'] eqn:Ed; cbn [bind].
      - intros H. destruct (Hk t); [contradiction | assumption].
      - intros [= ->]. apply (IH r e Hr Ed). }
    destruct (b0 <? 128)%N.
    { apply Hrec; [lia|]. intros t. left. discriminate. }
    destruct ((194 <=? b0) && (b0 <=? 223))%N.
    { destruct r0 as [|b1 r1]; [congruence|].
      destruct (utf8.cont b1); [|congruence]. cbn [List.length] in Hn.
      apply Hrec; [lia|]. intros t. left. discriminate. }
    destruct ((224 <=? b0) && (b0 <=? 239))%N.
    { destruct r0 as [|b1 [|b2 r2]]; try congruence.
      destruct (utf8.cont b1 && utf8.cont b2 && _ && _); [|congruence].
      cbn [List.length] in Hn.
      apply Hrec; [lia|]. intros t. left. discriminate. }
    destruct ((240 <=? b0) && (b0 <=? 244))%N; [|congruence].
    destruct r0 as [|b1 [|b2 [|b3 r3]]]; try congruence.
    destruct (utf8.cont b1 && utf8.cont b2 && utf8.cont b3 && _ && _);
      [|congruence].
    cbn [List.length] in Hn.
    apply Hrec; [lia|]. intros t. left. discriminate.
Qed.

(** X6.  [Field.decode] on a string field raises [ValueError], from
    [bytes.index], exactly when no NUL byte is left at or after [offset];
    an offset past the end of the buffer is such a case. *)
Theorem decode_string_no_nul (rt : Runtime) (f : Field) (input : list byte)
  (offset : nat) :
  type f = STRING ->
  Field.decode rt f input offset = Raise ValueError
  <-> ~ In x00 (skipn offset input).
Proof.
  intros Ht. unfold Field.decode. rewrite Ht.
  rewrite <- index_byte_None.
  destruct (index byte_eqb x00 (skipn offset input)) as [z|];
    cbn [of_option bind]; [|tauto].
  split; [|discriminate].
  unfold utf8.decode.
  destruct (utf8.decode_n _) as [s|e] eqn:Ed; cbn [bind]; [discriminate|].
  intros [= ->]. apply decode_n_raises with (n := List.length
    (map Byte.to_N (bitstring.tobytes (bitstring.BitStream
       (slice offset (offset + z) input))))) in Ed; [discriminate | lia].
Qed.

Lemma decode_string_no_nul_witness :
  Field.decode ascii_runtime
    {| name := cps "s"; type := STRING; value := NoValue |} [x61; x62] 0
  = Raise ValueError
  <-> ~ In x00 (skipn 0 [x61; x62]).
Proof.
  apply (decode_string_no_nul ascii_runtime
           {| name := cps "s"; type := STRING; value := NoValue |}
           [x61; x62] 0).
  reflexivity.
Defined.

Lemma to_N_put (c : N) : (c < 256)%N -> Byte.to_N (utf8.put c) = c.
Proof.
  intros Hc. unfold utf8.put.
  destruct (Byte.of_N c) as [b|] eqn:E.
  - apply Byte.to_of_N. assumption.
  - apply Byte.of_N_None_iff in E. lia.
Qed.

Lemma map_to_N_put (s : str) :
  forallb is_ascii s = true -> map Byte.to_N (map utf8.put s) = s.
Proof.
  induction s as [|c s IH]; cbn [forallb map]; [reflexivity|].
  intros H. apply andb_prop in H as [Hc Hs]. unfold is_ascii in Hc.
  apply N.ltb_lt in Hc. rewrite to_N_put, IH by (assumption || lia).
  reflexivity.
Qed.

Lemma decode_n_ascii (s : str) :
  forallb is_ascii s = true -> utf8.decode_n s = Ok s.
Proof.
  induction s as [|c s IH]; cbn [forallb utf8.decode_n]; [reflexivity|].
  intros H. apply andb_prop in H as [Hc Hs]. unfold is_ascii in Hc.
  rewrite Hc, (IH Hs). reflexivity.
Qed.

Lemma index_put_text (text : str) (rest : list byte) :
  forallb is_ascii text = true -> ~ In NUL text ->
  index byte_eqb x00 (map utf8.put text ++ x00 :: rest)
  = Some (List.length text).
Proof.
  induction text as [|c text IH]; cbn [forallb map app index List.length In];
    [reflexivity|].
  intros H Hnul. apply andb_prop in H as [Hc Hs]. unfold is_ascii in Hc.
  apply N.ltb_lt in Hc. unfold byte_eqb at 1.
  destruct (Byte.eqb (utf8.put c) x00) eqn:E.
  - apply Byte.byte_dec_bl in E. exfalso. apply Hnul. left.
    rewrite <- (to_N_put c) by lia. rewrite E. reflexivity.
  - rewrite IH by tauto. reflexivity.
Qed.

(** A string field gives back an ASCII text that holds no NUL, wherever its
    encoding lies in the buffer, and the encoding has one byte more than
    the text has characters. *)
Lemma decode_encode_string (rt : Runtime) (f : Field) (text : str)
  (b pre post : list byte) :
  type f = STRING ->
  forallb is_ascii text = true -> ~ In NUL text ->
  Field.encode rt f text = Ok b ->
  Field.decode rt f (pre ++ b ++ post) (List.length pre) = Ok (VStr text) /\
  List.length b = S (List.length text).
Proof.
  intros Ht Hascii Hnul He.
  pose proof (encode_string_ascii_only rt f text Ht) as Henc.
  rewrite Hascii, He in Henc. injection Henc as ->.
  split; [|rewrite length_app, length_map; cbn [List.length];
           apply Nat.add_1_r].
  unfold Field.decode. rewrite Ht, skipn_length_app, <- app_assoc.
  cbn [app]. rewrite index_put_text by assumption. cbn [of_option bind].
  rewrite tobytes_BitStream. unfold slice.
  replace (List.length pre + List.length text - List.length pre)%nat
    with (List.length text) by lia.
  rewrite skipn_length_app.
  replace (firstn (List.length text) (map utf8.put text ++ x00 :: post))
    with (map utf8.put text).
  - unfold utf8.decode. rewrite map_to_N_put, decode_n_ascii by assumption.
    reflexivity.
  - rewrite firstn_app, length_map, Nat.sub_diag, firstn_O, app_nil_r.
    rewrite <- (length_map utf8.put text) at 1. rewrite firstn_all.
    reflexivity.
Qed.
(** ** Whole forms: what [Form.encode] reads and writes *)

Section FormEncode.
Context (rt : Runtime).


Lemma encode_loop_lines (fs : list Field) :
  forall (stdin : list str) (acc buf : list byte) (rest : list str),
  Form.encode_loop rt fs stdin acc = Ok (buf, rest) ->
  (List.length fs <= List.length stdin)%nat /\
  rest = skipn (List.length fs) stdin /\
  forall extra,
    Form.encode_loop rt fs (stdin ++ extra) acc = Ok (buf, rest ++ extra).
Proof.
  induction fs as [|f fs IH]; intros stdin acc buf rest;
    cbn [Form.encode_loop List.length].
  - intros [= <- <-]. split; [lia|]. split; reflexivity.
  - destruct stdin as [|line stdin]; [discriminate|].
    cbn [Form.input bind app skipn List.length].
    destruct (Field.encode rt f line) as [b|]; [|discriminate].
    cbn [bind]. intros H. destruct (IH _ _ _ _ H) as (Hlen & Hrest & Hextra).
    split; [lia|]. split; assumption.
Qed.

(** The step of the decoder over a fixed-width field is the number of
    bytes the encoder writes for it, whatever the text. *)
Lemma size_is_encoded_length (f : Field) (text : str) (b : list byte) :
  fixed_width f = true ->
  Field.encode rt f text = Ok b ->
  exists sz, Field.size rt f = Ok sz /\
             int_of_float sz = Z.of_nat (List.length b).
Proof.
  intros Hfw He.
  destruct (type f) eqn:Ht; destruct (value f) as [bits| |items] eqn:Hv;
    unfold fixed_width in Hfw; rewrite Ht in Hfw; try rewrite Hv in Hfw;
    try discriminate.
  - unfold Field.encode in He. unfold Field.size. rewrite Ht, Hv in *.
    destruct (int_of_str rt text); [|discriminate].
    cbn [of_option bind Field.bitsize] in *.
    destruct (bitstring.pack_int bits z) as [p|] eqn:Ep; [|discriminate].
    cbn [bind] in He. injection He as <-.
    assert (Hlen : bitstring.len p = bits).
    { unfold bitstring.pack_int in Ep.
      destruct (_ && _ && _) in Ep; [|discriminate].
      injection Ep as <-. reflexivity. }
    eexists. split; [reflexivity|].
    rewrite int_of_float_div8, length_tobytes, Hlen.
    apply bitsize_cases in Hfw. cbn [In] in Hfw.
    destruct Hfw as [<-|[<-|[<-|[<-|[]]]]]; reflexivity.
  - unfold Field.encode in He. unfold Field.size. rewrite Ht, Hv in *.
    destruct (float_of_str rt text); [|discriminate].
    cbn [of_option bind Field.bitsize] in *.
    destruct (float_pack rt bits f0); [|discriminate].
    cbn [of_option bind] in He. injection He as <-.
    eexists. split; [reflexivity|].
    rewrite int_of_float_div8, length_tobytes. cbn [bitstring.len].
    apply bitsize_cases in Hfw. cbn [In] in Hfw.
    destruct Hfw as [<-|[<-|[]]]; reflexivity.
  - apply (enum_length_is_step rt f items text b Ht Hv He).
Qed.

Lemma encode_loop_length (fs : list Field) :
  forall (stdin : list str) (acc buf : list byte) (rest : list str),
  forallb fixed_width fs = true ->
  Form.encode_loop rt fs stdin acc = Ok (buf, rest) ->
  exists n, total_size rt fs = Ok n /\
            Z.of_nat (List.length buf) = Z.of_nat (List.length acc) + n.
Proof.
  induction fs as [|f fs IH]; intros stdin acc buf rest Hfw;
    cbn [Form.encode_loop total_size].
  - intros [= <- <-]. exists 0. split; [reflexivity | lia].
  - destruct stdin as [|line stdin]; [discriminate|]. cbn [Form.input bind].
    destruct (Field.encode rt f line) as [b|] eqn:Eb; [|discriminate].
    cbn [bind]. intros H.
    cbn [forallb] in Hfw. apply andb_prop in Hfw as [Hf Hfw].
    destruct (size_is_encoded_length f line b Hf Eb) as (sz & Hsz & Hlen).
    destruct (IH _ _ _ _ Hfw H) as (n & Hn & Hbuf).
    rewrite Hsz, Hn. cbn [bind]. exists (int_of_float sz + n).
    split; [reflexivity|]. rewrite Hbuf, length_app. lia.
Qed.

End FormEncode.

(** X7.  The number of bytes [Form.encode] writes for a form of fixed-width
    fields is the sum of the steps [int(field.size())] of its fields: it
    does not depend on the values. *)
Theorem form_encode_length (rt : Runtime) (form : Form) (values rest : list str)
  (buf : list byte) :
  forallb fixed_width (fields form) = true ->
  Form.encode rt form values = Ok (buf, rest) ->
  total_size rt (fields form) = Ok (Z.of_nat (List.length buf)).
Proof.
  intros Hfw He.
  destruct (encode_loop_length rt _ _ _ _ _ Hfw He) as (n & Hn & Hlen).
  rewrite Hn. f_equal. cbn [List.length] in Hlen. lia.
Qed.

Lemma form_encode_length_witness :
  total_size ascii_runtime
    [{| name := cps "a"; type := INTEGER; value := Bitsize 16 |};
     {| name := cps "b"; type := ENUM; value := Items [cps "on"; cps "off"] |}]
  = Ok (Z.of_nat (List.length [xff; xfe; x40])).
Proof.
  apply (form_encode_length ascii_runtime
           {| fields :=
                [{| name := cps "a"; type := INTEGER; value := Bitsize 16 |};
                 {| name := cps "b"; type := ENUM;
                    value := Items [cps "on"; cps "off"] |}] |}
           [cps "-2"; cps "off"] []).
  - reflexivity.
  - reflexivity.
Defined.

(** X8.  [Form.encode] reads one line for each field, in order, and leaves the
    lines after them unread: it has no check of the number of values, and
    with fewer lines than fields it does not return a buffer. *)
Theorem form_encode_lines (rt : Runtime) (form : Form) (values rest : list str)
  (buf : list byte) :
  Form.encode rt form values = Ok (buf, rest) ->
  (List.length (fields form) <= List.length values)%nat /\
  rest = skipn (List.length (fields form)) values /\
  forall extra,
    Form.encode rt form (values ++ extra) = Ok (buf, rest ++ extra).
Proof.
  apply encode_loop_lines.
Qed.

Lemma form_encode_lines_witness :
  let form :=
    {| fields := [{| name := cps "a"; type := INTEGER; value := Bitsize 8 |}] |}
  in
  (List.length (fields form) <= List.length [cps "7"; cps "x"])%nat /\
  [cps "x"] = skipn (List.length (fields form)) [cps "7"; cps "x"] /\
  forall extra,
    Form.encode ascii_runtime form ([cps "7"; cps "x"] ++ extra)
    = Ok ([x07], [cps "x"] ++ extra).
Proof.
  apply (form_encode_lines ascii_runtime
           {| fields :=
                [{| name := cps "a"; type := INTEGER; value := Bitsize 8 |}] |}
           [cps "7"; cps "x"] [cps "x"] [x07]).
  reflexivity.
Defined.


(** ** Whole forms: what [Form.decode] returns *)

Lemma keys_dict_set {V} (k : str) (v : V) (d : dict V) :
  map fst (dict_set k v d)
  = if existsb (str_eqb k) (map fst d) then map fst d else map fst d ++ [k].
Proof.
  induction d as [|[k' v'] d IH]; cbn [dict_set map fst existsb app];
    [reflexivity|].
  destruct (str_eqb k k') eqn:E; cbn [orb map fst].
  - apply str_eqb_eq in E. subst. reflexivity.
  - rewrite IH. destruct (existsb (str_eqb k) (map fst d)); reflexivity.
Qed.

Section FormDecode.
Context (rt : Runtime).

Lemma decode_step_keys (input : list byte) (f : Field)
  (obj obj' : dict (pyvalue rt)) (offset offset' : nat) :
  Form.decode_step rt input f (obj, offset) = Ok (obj', offset') ->
  map fst obj'
  = if existsb (str_eqb (name f)) (map fst obj)
    then map fst obj else map fst obj ++ [name f].
Proof.
  unfold Form.decode_step.
  destruct (Field.decode rt f input offset) as [v|]; [|discriminate].
  cbn [bind]. intros H. rewrite <- (keys_dict_set (name f) v obj).
  destruct (type f);
    [destruct (Field.size rt f) | destruct (Field.size rt f)
    | destruct (Form.len_of rt _ _) | destruct (Field.size rt f)];
    try discriminate; cbn [bind] in H; injection H as <- _; reflexivity.
Qed.

Lemma decode_loop_keys (fs : list Field) :
  forall (input : list byte) (obj obj' : dict (pyvalue rt))
         (offset offset' : nat),
  NoDup (map fst obj) ->
  Form.decode_loop rt fs input (obj, offset) = Ok (obj', offset') ->
  NoDup (map fst obj') /\
  (forall k, In k (map fst obj') <-> In k (map fst obj) \/ In k (map name fs)) /\
  (NoDup (map name fs) ->
   (forall k, In k (map name fs) -> ~ In k (map fst obj)) ->
   map fst obj' = map fst obj ++ map name fs).
Proof.
  induction fs as [|f fs IH]; intros input obj obj' offset offset' Hnd;
    cbn [Form.decode_loop map].
  - intros [= <- <-]. split; [assumption|]. split.
    + intros k. cbn [In]. tauto.
    + intros _ _. rewrite app_nil_r. reflexivity.
  - destruct (Form.decode_step rt input f (obj, offset)) as [[obj1 offset1]|]
      eqn:Es; [|discriminate].
    cbn [bind]. intros Hl. pose proof (decode_step_keys _ _ _ _ _ _ Es) as Hk.
    pose proof (existsb_str_In (name f) (map fst obj)) as Hin.
    assert (Hnd1 : NoDup (map fst obj1)).
    { rewrite Hk. destruct (existsb _ _) eqn:E; [assumption|].
      apply NoDup_app; [assumption | repeat constructor; intros [] |].
      intros a Ha [<-|[]]. apply Hin in Ha. discriminate. }
    destruct (IH _ _ _ _ _ Hnd1 Hl) as (Hnd' & Hmem & Hord).
    split; [assumption|]. split.
    + intros k. rewrite Hmem, Hk. cbn [In].
      destruct (existsb _ _) eqn:E.
      * pose proof (proj1 Hin eq_refl) as Hi. split; [tauto|].
        intros [H|[<-|H]]; tauto.
      * rewrite in_app_iff. cbn [In]. tauto.
    + intros Hnames Hfresh. inversion Hnames as [|? ? Hnot Hnames']; subst.
      rewrite Hord; [|assumption|].
      * rewrite Hk. destruct (existsb _ _) eqn:E.
        -- pose proof (proj1 Hin eq_refl) as Hi. exfalso.
           apply (Hfresh (name f)); [left; reflexivity | assumption].
        -- rewrite <- app_assoc. reflexivity.
      * intros k Hkin. rewrite Hk. destruct (existsb _ _) eqn:E.
        -- apply Hfresh. right. assumption.
        -- rewrite in_app_iff. cbn [In]. intros [H|[<-|[]]].
           ++ apply (Hfresh k); [right|]; assumption.
           ++ contradiction.
Qed.

End FormDecode.

(** X10.  The mapping [Form.decode] returns has one key for each distinct field
    name and no other; when no name is repeated the keys are the names in
    the order of the fields. *)
Theorem form_decode_keys (rt : Runtime) (form : Form) (input : list byte)
  (obj : dict (pyvalue rt)) :
  Form.decode rt form input = Ok obj ->
  NoDup (map fst obj) /\
  (forall k, In k (map fst obj) <-> In k (map name (fields form))) /\
  (NoDup (map name (fields form)) -> map fst obj = map name (fields form)).
Proof.
  unfold Form.decode.
  destruct (Form.decode_loop rt (fields form) input ([], 0%nat))
    as [[obj' offset']|] eqn:El; [|discriminate].
  cbn [bind]. intros [= <-].
  destruct (decode_loop_keys rt _ _ [] _ _ _ (NoDup_nil _) El)
    as (Hnd & Hmem & Hord).
  split; [assumption|]. split.
  - intros k. rewrite Hmem. cbn [map In]. tauto.
  - intros Hnames. apply Hord; [assumption|]. intros k _ [].
Qed.

Lemma form_decode_keys_witness :
  let form :=
    {| fields :=
         [{| name := cps "a"; type := INTEGER; value := Bitsize 8 |};
          {| name := cps "b"; type := INTEGER; value := Bitsize 8 |};
          {| name := cps "a"; type := INTEGER; value := Bitsize 8 |}] |} in
  let obj := [(cps "a", @VInt ascii_runtime 3); (cps "b", VInt 2)] in
  NoDup (map fst obj) /\
  (forall k, In k (map fst obj) <-> In k (map name (fields form))) /\
  (NoDup (map name (fields form)) -> map fst obj = map name (fields form)).
Proof.
  apply (form_decode_keys ascii_runtime
           {| fields :=
                [{| name := cps "a"; type := INTEGER; value := Bitsize 8 |};
                 {| name := cps "b"; type := INTEGER; value := Bitsize 8 |};
                 {| name := cps "a"; type := INTEGER; value := Bitsize 8 |}] |}
           [x01; x02; x03]).
  reflexivity.
Defined.
(** ** [Form.decode] does not look past what it needs *)

Lemma unpack_uint_more (n : Z) (bs extra : list byte) (u : Z) :
  bitstring.unpack_uint n (bitstring.BitStream bs) = Ok u ->
  bitstring.unpack_uint n (bitstring.BitStream (bs ++ extra)) = Ok u.
Proof.
  intros H.
  assert (Hn : 0 < n /\ n <= 8 * Z.of_nat (List.length bs)).
  { unfold bitstring.unpack_uint, bitstring.BitStream in H.
    cbn [bitstring.len] in H.
    destruct (n =? 0); [discriminate|].
    destruct ((0 <? n) && (n <=? 8 * Z.of_nat (List.length bs))) eqn:E;
      [|discriminate].
    apply andb_prop in E as [E1 E2]. apply Z.ltb_lt in E1.
    apply Z.leb_le in E2. auto. }
  destruct Hn as [Hpos Hle].
  assert (Hk : (n + 7) / 8 <= Z.of_nat (List.length bs))
    by (Z.div_mod_to_equations; lia).
  rewrite unpack_uint_leading in H by assumption.
  rewrite unpack_uint_leading by (try rewrite length_app; lia).
  rewrite firstn_app.
  replace (Z.to_nat ((n + 7) / 8) - List.length bs)%nat with O by lia.
  rewrite firstn_O, app_nil_r. exact H.
Qed.

Lemma index_more {A} (eqb : A -> A -> bool) (x : A) (l extra : list A)
  (i : nat) :
  index eqb x l = Some i -> index eqb x (l ++ extra) = Some i.
Proof.
  revert i. induction l as [|y l IH]; intros i; cbn [index app];
    [discriminate|].
  destruct (eqb y x); [auto|].
  destruct (index eqb x l) as [j|]; [|discriminate].
  rewrite (IH j eq_refl). auto.
Qed.

Section TrailingBytes.
Context (rt : Runtime).

Lemma field_decode_more (f : Field) (input extra : list byte) (offset : nat)
  (v : pyvalue rt) :
  Field.decode rt f input offset = Ok v ->
  Field.decode rt f (input ++ extra) offset = Ok v.
Proof.
  unfold Field.decode. rewrite skipn_app.
  set (bs := skipn offset input).
  set (more := skipn (offset - List.length input) extra).
  destruct (type f).
  - destruct (Field.bitsize ReadError (value f)) as [bits|]; [|discriminate].
    cbn [bind]. unfold bitstring.unpack_int.
    destruct (bitstring.unpack_uint bits (bitstring.BitStream bs)) as [u|] eqn:E;
      [|discriminate].
    rewrite (unpack_uint_more _ _ more _ E). auto.
  - destruct (Field.bitsize ReadError (value f)) as [bits|]; [|discriminate].
    cbn [bind].
    destruct (bitstring.unpack_uint bits (bitstring.BitStream bs)) as [u|] eqn:E;
      [|discriminate].
    rewrite (unpack_uint_more _ _ more _ E). auto.
  - destruct (index byte_eqb x00 bs) as [z|] eqn:E; [|discriminate].
    rewrite (index_more _ _ _ more _ E). cbn [of_option bind].
    apply index_lt in E.
    replace (slice offset (offset + z) (input ++ extra))
      with (slice offset (offset + z) input); [auto|].
    unfold slice. rewrite skipn_app. fold bs more.
    rewrite firstn_app.
    replace (offset + z - offset - List.length bs)%nat with O by lia.
    rewrite firstn_O, app_nil_r. reflexivity.
  - destruct (Field.items_of (value f)) as [items|]; [|discriminate].
    cbn [bind].
    destruct (bitstring.unpack_uint _ (bitstring.BitStream bs)) as [u|] eqn:E;
      [|discriminate].
    rewrite (unpack_uint_more _ _ more _ E). auto.
Qed.

Lemma decode_loop_more (fs : list Field) :
  forall (input extra : list byte) (st st' : dict (pyvalue rt) * nat),
  Form.decode_loop rt fs input st = Ok st' ->
  Form.decode_loop rt fs (input ++ extra) st = Ok st'.
Proof.
  induction fs as [|f fs IH]; intros input extra st st';
    cbn [Form.decode_loop]; [auto|].
  destruct (Form.decode_step rt input f st) as [st1|] eqn:Es; [|discriminate].
  cbn [bind]. intros Hl.
  assert (Hs : Form.decode_step rt (input ++ extra) f st = Ok st1).
  { unfold Form.decode_step in *. destruct st as [obj offset].
    destruct (Field.decode rt f input offset) as [v|] eqn:Ed; [|discriminate].
    rewrite (field_decode_more _ _ extra _ _ Ed). exact Es. }
  rewrite Hs. cbn [bind]. apply IH. exact Hl.
Qed.

End TrailingBytes.

(** X11.  A buffer that decodes still decodes, to the same mapping, when bytes
    are added after it: [Form.decode] does not check that the buffer is
    used up. *)
Theorem form_decode_trailing_bytes (rt : Runtime) (form : Form)
  (input extra : list byte) (obj : dict (pyvalue rt)) :
  Form.decode rt form input = Ok obj ->
  Form.decode rt form (input ++ extra) = Ok obj.
Proof.
  unfold Form.decode.
  destruct (Form.decode_loop rt (fields form) input ([], 0%nat)) as [st|] eqn:El;
    [|discriminate].
  rewrite (decode_loop_more rt _ _ extra _ _ El). auto.
Qed.

Lemma form_decode_trailing_bytes_witness :
  Form.decode ascii_runtime
    {| fields :=
         [{| name := cps "name"; type := STRING; value := NoValue |};
          {| name := cps "age"; type := INTEGER; value := Bitsize 8 |}] |}
    ([x62; x6f; x62; x00; x1e] ++ [xff; x00])
  = Ok [(cps "name", VStr (cps "bob")); (cps "age", VInt 30)].
Proof.
  apply (form_decode_trailing_bytes ascii_runtime
           {| fields :=
                [{| name := cps "name"; type := STRING; value := NoValue |};
                 {| name := cps "age"; type := INTEGER; value := Bitsize 8 |}] |}
           [x62; x6f; x62; x00; x1e] [xff; x00]).
  reflexivity.
Defined.

(** ** Round trip of forms with string fields *)

Section PlainRoundTrip.
Context (rt : Runtime).

Lemma plain_text_spec (text : str) :
  plain_text text = true ->
  forallb is_ascii text = true /\ ~ In NUL text.
Proof.
  unfold plain_text. intros H. apply andb_prop in H as [Ha Hn].
  split; [assumption|]. intros Hin.
  assert (existsb (N.eqb NUL) text = true)
    by (apply existsb_exists; exists NUL; split; [assumption | reflexivity]).
  rewrite H in Hn. discriminate.
Qed.

(** One turn of the decoder on the encoding of a text. *)
Lemma decode_step_encode (f : Field) (text : str) (b pre post : list byte)
  (obj : dict (pyvalue rt)) :
  parsed_field f = true ->
  (type f = STRING -> plain_text text = true) ->
  Field.encode rt f text = Ok b ->
  Form.decode_step rt (pre ++ b ++ post) f (obj, List.length pre)
  = (v <- denoted rt f text ;;
     Ok (dict_set (name f) v obj, List.length (pre ++ b))).
Proof.
  intros Hp Hplain He. unfold Form.decode_step.
  destruct (type f) eqn:Ht.
  1, 2, 4:
    assert (Hfw : fixed_width f = true)
      by (unfold parsed_field in Hp; rewrite Ht in Hp; exact Hp);
    destruct (decode_encode_field rt f text b pre post Hfw He)
      as (-> & _ & sz & Hsz & Hlen);
    (destruct (denoted rt f text) as [v|]; [|reflexivity]);
    cbn [bind]; rewrite Hsz; cbn [bind];
    rewrite Hlen, length_app; reflexivity.
  destruct (plain_text_spec text (Hplain eq_refl)) as [Hascii Hnul].
  destruct (decode_encode_string rt f text b pre post Ht Hascii Hnul He)
    as (-> & Hlen).
  unfold denoted. rewrite Ht. cbn [bind]. unfold Form.len_of.
  rewrite dict_get_set. cbn [of_option bind].
  rewrite length_app, Hlen. do 3 f_equal. lia.
Qed.

Lemma decode_loop_encode_plain (fs : list Field) :
  forall (values : list str) (acc buf : list byte) (rest : list str)
         (obj : dict (pyvalue rt)) (post : list byte),
  forallb parsed_field fs = true ->
  plain_strings fs values = true ->
  NoDup (map name fs) ->
  (forall k, In k (map name fs) -> ~ In k (map fst obj)) ->
  Form.encode_loop rt fs values acc = Ok (buf, rest) ->
  exists tail,
    buf = acc ++ tail /\
    Form.decode_loop rt fs (acc ++ tail ++ post) (obj, List.length acc)
    = (vs <- denoted_all rt fs values ;;
       Ok (obj ++ combine (map name fs) vs, List.length buf)).
Proof.
  induction fs as [|f fs IH];
    intros values acc buf rest obj post Hp Hplain Hnd Hfresh He.
  - cbn in He. injection He as <- <-. exists [].
    split; [now rewrite app_nil_r|]. cbn. rewrite app_nil_r. reflexivity.
  - cbn [Form.encode_loop] in He.
    destruct values as [|line values]; [discriminate|].
    cbn [Form.input bind] in He.
    destruct (Field.encode rt f line) as [b|] eqn:Eb; [|discriminate].
    cbn [bind] in He.
    cbn [forallb] in Hp. apply andb_prop in Hp as [Hf Hp].
    cbn [plain_strings] in Hplain. apply andb_prop in Hplain as [Hline Hplain].
    assert (Hline' : type f = STRING -> plain_text line = true)
      by (intros E; rewrite E in Hline; exact Hline).
    cbn [map] in Hnd. inversion Hnd as [|? ? Hnotin Hnd']; subst.
    assert (Hrest : forall k, In k (map name fs) -> ~ In k (map fst obj))
      by (intros k Hk; apply Hfresh; right; assumption).
    cbn [Form.decode_loop denoted_all].
    destruct (denoted rt f line) as [v|e] eqn:Ed.
    + destruct (IH values (acc ++ b) buf rest (obj ++ [(name f, v)]) post
                  Hp Hplain Hnd') as (tail & Hbuf & Hdec); [| exact He |].
      { intros k Hk. rewrite map_app, in_app_iff. cbn [map fst In].
        intros [Hin|[<-|[]]]; [exact (Hrest k Hk Hin) | contradiction]. }
      exists (b ++ tail). split; [rewrite Hbuf, app_assoc; reflexivity|].
      rewrite <- app_assoc.
      rewrite (decode_step_encode f line b acc (tail ++ post) obj Hf Hline' Eb).
      rewrite Ed. cbn [bind].
      rewrite dict_set_fresh by (apply Hfresh; left; reflexivity).
      rewrite <- app_assoc in Hdec. rewrite Hdec.
      destruct (denoted_all rt fs values) as [vs|]; [|reflexivity].
      cbn [bind map combine]. rewrite <- !app_assoc. reflexivity.
    + destruct (IH values (acc ++ b) buf rest obj post Hp Hplain Hnd' Hrest He)
        as (tail & Hbuf & _).
      exists (b ++ tail). split; [rewrite Hbuf, app_assoc; reflexivity|].
      rewrite <- app_assoc.
      rewrite (decode_step_encode f line b acc (tail ++ post) obj Hf Hline' Eb).
      rewrite Ed. reflexivity.
Qed.

End PlainRoundTrip.

(** X12.  A form that the parser may build, with pairwise distinct names, gives
    back every accepted sequence of texts whose strings are ASCII and hold
    no NUL: each name is mapped, in order, to the value its text stands
    for. *)
Theorem decode_encode_plain_strings (rt : Runtime) (form : Form)
  (values rest : list str) (buf : list byte) :
  forallb parsed_field (fields form) = true ->
  plain_strings (fields form) values = true ->
  NoDup (map name (fields form)) ->
  Form.encode rt form values = Ok (buf, rest) ->
  Form.decode rt form buf
  = (vs <- denoted_all rt (fields form) values ;;
     Ok (combine (map name (fields form)) vs)).
Proof.
  intros Hp Hplain Hnd He. unfold Form.encode in He. unfold Form.decode.
  destruct (decode_loop_encode_plain rt (fields form) values [] buf rest [] []
              Hp Hplain Hnd) as (tail & Hbuf & Hdec);
    [intros k _ [] | exact He |].
  cbn [app] in Hbuf, Hdec. rewrite app_nil_r in Hdec. subst tail.
  cbn [List.length] in Hdec. unfold dict in *. rewrite Hdec.
  destruct (denoted_all rt (fields form) values); reflexivity.
Qed.

Lemma decode_encode_plain_strings_witness :
  let form :=
    {| fields :=
         [{| name := cps "name"; type := STRING; value := NoValue |};
          {| name := cps "age"; type := INTEGER; value := Bitsize 8 |}] |} in
  Form.decode ascii_runtime form [x62; x6f; x62; x00; x1e]
  = (vs <- denoted_all ascii_runtime (fields form) [cps "bob"; cps "30"] ;;
     Ok (combine (map name (fields form)) vs)).
Proof.
  apply (decode_encode_plain_strings ascii_runtime _ [cps "bob"; cps "30"] []).
  - reflexivity.
  - reflexivity.
  - cbn. repeat constructor; cbn; intuition discriminate.
  - reflexivity.
Defined.
(** ** The parser further along in a longer source *)

Section Shift.
Context (rt : Runtime) (p : str).

Lemma shift_at (s : str) (k : nat) :
  shift_state p (at_pos s k) = at_pos (p ++ s) (List.length p + k).
Proof.
  unfold shift_state, at_pos.
  cbn [FormParser.source FormParser.length FormParser.cursor FormParser.char].
  rewrite length_app, app_nth2_plus. reflexivity.
Qed.

Lemma advance_shift (st : FormParser.state) :
  FormParser.advance (shift_state p st) = shift_state p (FormParser.advance st).
Proof.
  unfold FormParser.advance, shift_state.
  cbn [FormParser.source FormParser.length FormParser.cursor FormParser.char].
  rewrite <- Nat.add_succ_r. f_equal.
  rewrite app_nth2_plus.
  destruct (S (FormParser.cursor st) <? FormParser.length st)%nat eqn:E.
  - apply Nat.ltb_lt in E.
    replace (_ <? _)%nat with true by (symmetry; apply Nat.ltb_lt; lia).
    reflexivity.
  - apply Nat.ltb_ge in E.
    replace (_ <? _)%nat with false by (symmetry; apply Nat.ltb_ge; lia).
    reflexivity.
Qed.

Lemma remaining_shift (st : FormParser.state) :
  FormParser.remaining (shift_state p st) = FormParser.remaining st.
Proof.
  unfold FormParser.remaining, shift_state.
  cbn [FormParser.length FormParser.cursor]. lia.
Qed.

Lemma slice_shift (a b : nat) (s : str) :
  slice (List.length p + a) (List.length p + b) (p ++ s) = slice a b s.
Proof.
  unfold slice. rewrite skipn_app, skipn_all2 by lia. cbn [app].
  f_equal; [lia | f_equal; lia].
Qed.

Lemma expect_shift (c : codepoint) (st : FormParser.state) :
  FormParser.expect c (shift_state p st)
  = shift_result p (FormParser.expect c st).
Proof.
  unfold FormParser.expect. cbn [shift_state FormParser.char FormParser.cursor].
  destruct (FormParser.char st =? c)%N; cbn [shift_result shift_exn].
  - rewrite advance_shift. reflexivity.
  - reflexivity.
Qed.

Lemma advance_while_shift (q : codepoint -> bool) :
  forall (fuel : nat) (st : FormParser.state),
  FormParser.advance_while q fuel (shift_state p st)
  = match FormParser.advance_while q fuel st with
    | Ok st' => Ok (shift_state p st')
    | Raise e => Raise e
    end.
Proof.
  induction fuel as [|fuel IH]; intros st;
    cbn [FormParser.advance_while shift_state FormParser.char];
    destruct (q (FormParser.char st)); try reflexivity.
  fold (shift_state p st). rewrite advance_shift. apply IH.
Qed.

Lemma advance_while_raises (q : codepoint -> bool) :
  forall (fuel : nat) (st : FormParser.state) (e : exn),
  FormParser.advance_while q fuel st = Raise e -> e = Diverges.
Proof.
  induction fuel as [|fuel IH]; intros st e; cbn [FormParser.advance_while];
    destruct (q (FormParser.char st)); try discriminate; try congruence.
  apply IH.
Qed.

Lemma collect_word_shift (st : FormParser.state) :
  FormParser.collect_word rt (shift_state p st)
  = shift_result p (FormParser.collect_word rt st).
Proof.
  unfold FormParser.collect_word. rewrite remaining_shift, advance_while_shift.
  cbn [shift_state FormParser.char FormParser.cursor].
  destruct (negb (isalpha rt (FormParser.char st))); [reflexivity|].
  destruct (FormParser.advance_while _ _ st) as [st'|e] eqn:E; cbn [bind].
  - cbn [shift_result shift_state FormParser.cursor FormParser.source].
    rewrite slice_shift. reflexivity.
  - apply advance_while_raises in E. subst e. reflexivity.
Qed.

Lemma collect_bitsize_shift (allowed : list Z) (default : Z)
  (st : FormParser.state) :
  FormParser.collect_bitsize rt allowed default (shift_state p st)
  = shift_result p (FormParser.collect_bitsize rt allowed default st).
Proof.
  unfold FormParser.collect_bitsize, FormParser.collect_integer.
  rewrite remaining_shift, advance_while_shift.
  cbn [shift_state FormParser.char FormParser.cursor].
  destruct (isnumeric rt (FormParser.char st)); [|reflexivity].
  destruct (FormParser.advance_while _ _ st) as [st'|e] eqn:E; cbn [bind].
  - cbn [shift_state FormParser.cursor FormParser.source].
    rewrite slice_shift.
    destruct (int_of_str rt _) as [bitsize|]; cbn [of_option bind];
      [|reflexivity].
    destruct (negb (existsb (Z.eqb bitsize) allowed)); reflexivity.
  - apply advance_while_raises in E. subst e. reflexivity.
Qed.

Lemma enum_loop_shift :
  forall (fuel : nat) (items : list str) (st : FormParser.state),
  FormParser.enum_loop rt fuel items (shift_state p st)
  = shift_result p (FormParser.enum_loop rt fuel items st).
Proof.
  induction fuel as [|fuel IH]; intros items st; cbn [FormParser.enum_loop];
    [reflexivity|].
  rewrite collect_word_shift.
  destruct (FormParser.collect_word rt st) as [[w st1]|e];
    cbn [shift_result bind]; [|reflexivity].
  cbn [shift_state FormParser.char]. fold (shift_state p st1).
  destruct (negb (FormParser.char st1 =? 59)%N).
  - rewrite expect_shift.
    destruct (FormParser.expect 44%N st1) as [[u st2]|e];
      cbn [shift_result bind]; [apply IH | reflexivity].
  - rewrite advance_shift. reflexivity.
Qed.

Lemma collect_enum_shift (st : FormParser.state) :
  FormParser.collect_enum rt (shift_state p st)
  = shift_result p (FormParser.collect_enum rt st).
Proof.
  unfold FormParser.collect_enum. rewrite expect_shift.
  destruct (FormParser.expect 91%N st) as [[u st1]|e];
    cbn [shift_result bind]; [|reflexivity].
  rewrite remaining_shift. apply enum_loop_shift.
Qed.

Lemma collect_type_and_value_shift (st : FormParser.state) :
  FormParser.collect_type_and_value rt (shift_state p st)
  = shift_result p (FormParser.collect_type_and_value rt st).
Proof.
  unfold FormParser.collect_type_and_value,
    FormParser.collect_bitsize_integer, FormParser.collect_bitsize_float.
  rewrite !advance_shift, !collect_bitsize_shift, collect_enum_shift.
  cbn [shift_state FormParser.char FormParser.cursor].
  destruct (FormParser.char st =? 105)%N.
  { destruct (FormParser.collect_bitsize rt _ 8 _) as [[b st1]|e]; reflexivity. }
  destruct (FormParser.char st =? 102)%N.
  { destruct (FormParser.collect_bitsize rt _ 32 _) as [[b st1]|e]; reflexivity. }
  destruct (FormParser.char st =? 115)%N; [reflexivity|].
  destruct (FormParser.char st =? 101)%N; [|reflexivity].
  destruct (FormParser.collect_enum rt _) as [[items st1]|e]; reflexivity.
Qed.

Lemma parse_field_shift (st : FormParser.state) :
  FormParser.parse_field rt (shift_state p st)
  = shift_result p (FormParser.parse_field rt st).
Proof.
  unfold FormParser.parse_field. rewrite collect_word_shift.
  destruct (FormParser.collect_word rt st) as [[w st1]|e];
    cbn [shift_result bind]; [|reflexivity].
  rewrite expect_shift.
  destruct (FormParser.expect 58%N st1) as [[u st2]|e];
    cbn [shift_result bind]; [|reflexivity].
  rewrite collect_type_and_value_shift.
  destruct (FormParser.collect_type_and_value rt st2) as [[[ty v] st3]|e];
    reflexivity.
Qed.

Lemma form_loop_shift :
  forall (fuel : nat) (form : Form) (st : FormParser.state),
  FormParser.form_loop rt fuel form (shift_state p st)
  = shift_result p (FormParser.form_loop rt fuel form st).
Proof.
  assert (Hlt : forall st,
            (FormParser.cursor (shift_state p st)
             <? FormParser.length (shift_state p st))%nat
            = (FormParser.cursor st <? FormParser.length st)%nat).
  { intros st. cbn [shift_state FormParser.cursor FormParser.length].
    destruct (FormParser.cursor st <? FormParser.length st)%nat eqn:E.
    - apply Nat.ltb_lt in E. apply Nat.ltb_lt. lia.
    - apply Nat.ltb_ge in E. apply Nat.ltb_ge. lia. }
  induction fuel as [|fuel IH]; intros form st; cbn [FormParser.form_loop];
    rewrite Hlt;
    destruct (FormParser.cursor st <? FormParser.length st)%nat;
    try reflexivity.
  rewrite parse_field_shift.
  destruct (FormParser.parse_field rt st) as [[field st1]|e];
    cbn [shift_result bind]; [|reflexivity].
  cbn [shift_state FormParser.char]. fold (shift_state p st1).
  destruct (negb (FormParser.char st1 =? 44)%N); [reflexivity|].
  rewrite advance_shift. apply IH.
Qed.

End Shift.

(** The fields that the loop finds are added after those it starts
    with. *)
Lemma form_loop_fields (rt : Runtime) :
  forall (fuel : nat) (form : Form) (st : FormParser.state),
  FormParser.form_loop rt fuel form st
  = match FormParser.form_loop rt fuel {| fields := [] |} st with
    | Ok (found, st') =>
        Ok ({| fields := fields form ++ fields found |}, st')
    | Raise e => Raise e
    end.
Proof.
  assert (H : forall fuel a b st,
            FormParser.form_loop rt fuel {| fields := a ++ b |} st
            = match FormParser.form_loop rt fuel {| fields := b |} st with
              | Ok (found, st') => Ok ({| fields := a ++ fields found |}, st')
              | Raise e => Raise e
              end).
  { induction fuel as [|fuel IH]; intros a b st; cbn [FormParser.form_loop];
      destruct (FormParser.cursor st <? FormParser.length st)%nat;
      try reflexivity.
    destruct (FormParser.parse_field rt st) as [[field st1]|e]; cbn [bind];
      [|reflexivity].
    unfold Form.add_field. cbn [fields]. rewrite <- app_assoc.
    destruct (negb (FormParser.char st1 =? 44)%N); [reflexivity|].
    apply IH. }
  intros fuel form st. destruct form as [fs].
  rewrite <- (app_nil_r fs) at 1. apply H.
Qed.

(** More fuel than the source has characters left changes nothing. *)
Lemma form_loop_fuel (rt : Runtime) (s : str) :
  isalpha rt NUL = false ->
  forall (n fuel1 fuel2 : nat) (form : Form) (k : nat),
  (fuel1 <= n)%nat -> (fuel2 <= n)%nat ->
  (List.length s - k <= fuel1)%nat -> (List.length s - k <= fuel2)%nat ->
  (k <= List.length s)%nat ->
  FormParser.form_loop rt fuel1 form (at_pos s k)
  = FormParser.form_loop rt fuel2 form (at_pos s k).
Proof.
  intros Halpha.
  induction n as [|n IH]; intros fuel1 fuel2 form k H1 H2 Hf1 Hf2 Hk.
  - replace fuel1 with O by lia. replace fuel2 with O by lia. reflexivity.
  - destruct (Nat.eq_dec k (List.length s)) as [->|Hne].
    + destruct fuel1, fuel2;
        cbn [FormParser.form_loop at_pos FormParser.cursor FormParser.length];
        rewrite Nat.ltb_irrefl; reflexivity.
    + destruct fuel1 as [|fuel1]; [lia|]. destruct fuel2 as [|fuel2]; [lia|].
      cbn [FormParser.form_loop].
      destruct (FormParser.cursor (at_pos s k) <? FormParser.length (at_pos s k))%nat;
        [|reflexivity].
      destruct (FormParser.parse_field rt (at_pos s k)) as [[field st1]|e] eqn:Ep;
        cbn [bind]; [|reflexivity].
      destruct (parse_field_extension rt s [] Halpha k field st1 Hk Ep)
        as (k1 & -> & Hk1 & _).
      destruct (FormParser.char (at_pos s k1) =? 44)%N eqn:Ec; cbn [negb];
        [|reflexivity].
      assert (Hlt : (k1 < List.length s)%nat) by in_source.
      rewrite advance_at. apply IH; lia.
Qed.

Section Comma.
Context (rt : Runtime) (s1 s2 : str).
Hypothesis isalpha_NUL : isalpha rt NUL = false.
Hypothesis isnumeric_comma : isnumeric rt 44%N = false.
Hypothesis last_not_comma : last s1 NUL <> 44%N.

Let s : str := s1 ++ 44%N :: s2.

(** The parser of [s1 ++ "," ++ s2] goes through [s1] as the parser of
    [s1] does, and then goes on from the start of [s2]. *)
Lemma form_loop_through :
  forall (fuel : nat) (form form' : Form) (k : nat) (st' : FormParser.state),
  (k < List.length s1)%nat ->
  FormParser.form_loop rt fuel form (at_pos s1 k) = Ok (form', st') ->
  FormParser.cursor st' = List.length s1 ->
  forall fuel2, (List.length s - k <= fuel2)%nat ->
    FormParser.form_loop rt fuel2 form (at_pos s k)
    = FormParser.form_loop rt (List.length s2) form'
        (at_pos s (S (List.length s1))).
Proof.
  assert (Hlen : List.length s = (List.length s1 + S (List.length s2))%nat)
    by (unfold s; rewrite length_app; reflexivity).
  assert (Hc2 : nth (List.length s1) s NUL = 44%N) by apply nth_after.
  induction fuel as [|fuel IH]; intros form form' k st' Hk Hrun Hcur fuel2 Hf.
  - cbn [FormParser.form_loop at_pos FormParser.cursor FormParser.length]
      in Hrun.
    apply Nat.ltb_lt in Hk. rewrite Hk in Hrun. discriminate.
  - destruct fuel2 as [|fuel2]; [lia|].
    cbn [FormParser.form_loop at_pos FormParser.cursor FormParser.length] in *.
    fold (at_pos s1 k) in Hrun. fold (at_pos s k).
    replace (k <? List.length s1)%nat with true in Hrun
      by (symmetry; apply Nat.ltb_lt; lia).
    replace (k <? List.length s)%nat with true
      by (symmetry; apply Nat.ltb_lt; lia).
    destruct (FormParser.parse_field rt (at_pos s1 k)) as [[field st1]|] eqn:Ep;
      [|discriminate].
    destruct (parse_field_extension rt s1 (44%N :: s2) isalpha_NUL k field st1
                ltac:(lia) Ep) as (k1 & -> & Hk1 & Hsim).
    fold s in Hsim. rewrite Hc2 in Hsim.
    rewrite Hsim by auto.
    cbn [bind at_pos FormParser.char] in Hrun |- *.
    fold (at_pos s1 k1) in Hrun. fold (at_pos s k1).
    destruct (nth k1 s1 NUL =? 44)%N eqn:Ec; cbn [negb] in Hrun.
    + assert (Hlt : (k1 < List.length s1)%nat) by in_source.
      rewrite advance_at in Hrun.
      unfold s at 1. rewrite app_nth1 by assumption.
      rewrite Ec. cbn [negb]. rewrite advance_at.
      destruct (Nat.eq_dec (S k1) (List.length s1)) as [Hend|Hne].
      * exfalso. apply last_not_comma. rewrite last_as_nth.
        replace (List.length s1 - 1)%nat with k1 by lia.
        apply N.eqb_eq. assumption.
      * apply (IH _ _ (S k1) st'); try assumption; lia.
    + injection Hrun as <- <-. cbn [at_pos FormParser.cursor] in Hcur.
      subst k1. rewrite Hc2. cbn [N.eqb Pos.eqb negb]. rewrite advance_at.
      apply (form_loop_fuel rt s isalpha_NUL (Nat.max fuel2 (List.length s2)));
        lia.
Qed.

Lemma parse_form_run_comma (form1 : Form) (st1 : FormParser.state) :
  FormParser.parse_form_run rt s1 = Ok (form1, st1) ->
  FormParser.cursor st1 = List.length s1 ->
  s2 <> [] ->
  FormParser.parse_form rt s
  = match FormParser.parse_form rt s2 with
    | Ok form2 => Ok {| fields := fields form1 ++ fields form2 |}
    | Raise e => Raise (shift_exn (S (List.length s1)) e)
    end.
Proof.
  intros Hrun Hcur Hs2.
  assert (Hne : s1 <> []) by (intros E; rewrite E in Hrun; discriminate).
  assert (Hpos : (0 < List.length s1)%nat)
    by (destruct s1; [congruence | cbn; lia]).
  assert (Hs : s <> []).
  { unfold s. intros E. apply app_eq_nil in E as [E _]. contradiction. }
  rewrite parse_form_run_at in Hrun by assumption.
  unfold FormParser.parse_form. rewrite !parse_form_run_at by assumption.
  rewrite (form_loop_through _ _ _ _ _ Hpos Hrun Hcur) by lia.
  replace (at_pos s (S (List.length s1)))
    with (shift_state (s1 ++ [44%N]) (at_pos s2 0)).
  - rewrite form_loop_shift, form_loop_fields.
    destruct (FormParser.form_loop rt (List.length s2) {| fields := [] |}
                (at_pos s2 0)) as [[form2 st2]|e]; cbn [shift_result bind].
    + reflexivity.
    + rewrite length_app, Nat.add_1_r. reflexivity.
  - rewrite shift_at, length_app, Nat.add_1_r, Nat.add_0_r, <- app_assoc.
    reflexivity.
Qed.

End Comma.

(** X13.  The parser takes a schema apart at its commas: after a schema that is
    read to its end as fields, a comma and a second schema give the fields
    of the first followed by those of the second, and an error of the
    second is raised with its position counted from the start of the
    whole. *)
Theorem parse_form_comma (rt : Runtime) (s1 s2 : str) (form1 : Form)
  (st1 : FormParser.state) :
  ascii_classes rt ->
  FormParser.parse_form_run rt s1 = Ok (form1, st1) ->
  FormParser.cursor st1 = List.length s1 ->
  last s1 NUL <> 44%N ->
  s2 <> [] ->
  FormParser.parse_form rt (s1 ++ 44%N :: s2)
  = match FormParser.parse_form rt s2 with
    | Ok form2 => Ok {| fields := fields form1 ++ fields form2 |}
    | Raise e => Raise (shift_exn (S (List.length s1)) e)
    end.
Proof.
  intros Hascii Hrun Hcur Hlast Hs2.
  apply (parse_form_run_comma rt s1 s2 (ascii_isalpha_NUL rt Hascii))
    with (st1 := st1); try assumption.
  destruct (Hascii 44%N) as (_ & _ & ->); reflexivity.
Qed.

Lemma parse_form_comma_witness :
  FormParser.parse_form ascii_runtime (cps "a:i8" ++ 44%N :: cps "b:x")
  = match FormParser.parse_form ascii_runtime (cps "b:x") with
    | Ok form2 =>
        Ok {| fields :=
                fields {| fields :=
                            [{| name := cps "a"; type := INTEGER;
                                value := Bitsize 8 |}] |}
                ++ fields form2 |}
    | Raise e => Raise (shift_exn (S (List.length (cps "a:i8"))) e)
    end.
Proof.
  apply (parse_form_comma ascii_runtime (cps "a:i8") (cps "b:x") _
           (at_pos (cps "a:i8") 4)).
  - exact ascii_runtime_classes.
  - reflexivity.
  - reflexivity.
  - vm_compute. discriminate.
  - discriminate.
Defined.
(** ** The parser on a well-formed or ill-formed first field *)

Lemma forallb_nth {A} (q : A -> bool) (l : list A) (d : A) (j : nat) :
  forallb q l = true -> (j < List.length l)%nat -> q (nth j l d) = true.
Proof.
  intros H Hj. rewrite forallb_forall in H. apply H, nth_In, Hj.
Qed.

Lemma advance_while_forward (q : codepoint -> bool) (s : str) :
  forall (n k fuel : nat),
  (forall j, (k <= j < k + n)%nat -> q (nth j s NUL) = true) ->
  q (nth (k + n) s NUL) = false ->
  (n <= fuel)%nat ->
  FormParser.advance_while q fuel (at_pos s k) = Ok (at_pos s (k + n)).
Proof.
  induction n as [|n IH]; intros k fuel Hq Hend Hf.
  - rewrite Nat.add_0_r in *.
    destruct fuel; cbn [FormParser.advance_while at_pos FormParser.char];
      rewrite Hend; reflexivity.
  - destruct fuel as [|fuel]; [lia|].
    cbn [FormParser.advance_while at_pos FormParser.char].
    rewrite Hq by lia. fold (at_pos s k). rewrite advance_at.
    rewrite <- Nat.add_succ_comm. apply IH.
    + intros j Hj. apply Hq. lia.
    + rewrite Nat.add_succ_comm. assumption.
    + lia.
Qed.

Lemma nth_middle_part (pre w tail : str) (j : nat) :
  (j < List.length w)%nat ->
  nth (List.length pre + j) (pre ++ w ++ tail) NUL = nth j w NUL.
Proof.
  intros Hj. rewrite app_nth2_plus, app_nth1 by assumption. reflexivity.
Qed.

Lemma nth_after_part (pre w tail : str) :
  nth (List.length pre + List.length w) (pre ++ w ++ tail) NUL = hd NUL tail.
Proof.
  rewrite app_nth2_plus, app_nth2, Nat.sub_diag by lia.
  destruct tail; reflexivity.
Qed.

Lemma slice_middle_part (pre w tail : str) :
  slice (List.length pre) (List.length pre + List.length w) (pre ++ w ++ tail)
  = w.
Proof.
  unfold slice. rewrite skipn_length_app.
  replace (List.length pre + List.length w - List.length pre)%nat
    with (List.length w) by lia.
  rewrite firstn_app, Nat.sub_diag, firstn_O, firstn_all, app_nil_r.
  reflexivity.
Qed.

Section FirstField.
Context (rt : Runtime).

(** A run of characters of one class, ended by a character outside it. *)
Lemma advance_while_part (q : codepoint -> bool) (pre w tail : str) :
  forallb q w = true -> q (hd NUL tail) = false ->
  FormParser.advance_while q
    (FormParser.remaining (at_pos (pre ++ w ++ tail) (List.length pre)))
    (at_pos (pre ++ w ++ tail) (List.length pre))
  = Ok (at_pos (pre ++ w ++ tail) (List.length pre + List.length w)).
Proof.
  intros Hw Hend. apply advance_while_forward.
  - intros j Hj.
    replace j with (List.length pre + (j - List.length pre))%nat by lia.
    rewrite nth_middle_part by lia. apply forallb_nth; [assumption | lia].
  - rewrite nth_after_part. assumption.
  - rewrite remaining_at, !length_app. lia.
Qed.

Lemma collect_word_part (pre w tail : str) :
  is_word rt w = true -> word_char rt (hd NUL tail) = false ->
  FormParser.collect_word rt (at_pos (pre ++ w ++ tail) (List.length pre))
  = Ok (w, at_pos (pre ++ w ++ tail) (List.length pre + List.length w)).
Proof.
  intros Hw Hend. unfold FormParser.collect_word.
  destruct w as [|a w']; [discriminate|].
  cbn [is_word] in Hw. apply andb_prop in Hw as [Ha Hw].
  cbn [at_pos FormParser.char FormParser.cursor].
  rewrite <- (Nat.add_0_r (List.length pre)) at 1.
  rewrite nth_middle_part by (cbn; lia). cbn [nth]. rewrite Ha. cbn [negb].
  fold (at_pos (pre ++ (a :: w') ++ tail) (List.length pre)).
  change (fun c => isalnum rt c || (c =? FormParser.underscore)%N)
    with (word_char rt).
  rewrite advance_while_part by assumption.
  cbn [bind at_pos FormParser.cursor FormParser.source].
  rewrite slice_middle_part. reflexivity.
Qed.

Lemma collect_word_start (w tail : str) :
  is_word rt w = true -> word_char rt (hd NUL tail) = false ->
  FormParser.collect_word rt (at_pos (w ++ tail) 0)
  = Ok (w, at_pos (w ++ tail) (List.length w)).
Proof.
  apply (collect_word_part [] w tail).
Qed.

(** The first turn of the loop of [parse_form]. *)
Lemma parse_form_first (s : str) :
  s <> [] ->
  FormParser.parse_form rt s
  = ('(field, st1) <- FormParser.parse_field rt (at_pos s 0) ;;
     if negb (FormParser.char st1 =? 44)%N
     then Ok {| fields := [field] |}
     else
       '(form, _) <- FormParser.form_loop rt (List.length s - 1)
                       {| fields := [field] |} (FormParser.advance st1) ;;
       Ok form).
Proof.
  intros Hs. unfold FormParser.parse_form.
  rewrite parse_form_run_at by assumption.
  destruct s as [|c s]; [congruence|].
  replace (List.length (c :: s) - 1)%nat with (List.length s)
    by (cbn [List.length]; lia).
  change (List.length (c :: s)) with (S (List.length s)) at 1.
  cbn [FormParser.form_loop].
  change (FormParser.cursor (at_pos (c :: s) 0)
          <? FormParser.length (at_pos (c :: s) 0))%nat with true.
  cbv iota.
  destruct (FormParser.parse_field rt (at_pos (c :: s) 0)) as [[field st1]|];
    cbn [bind]; [|reflexivity].
  unfold Form.add_field. cbn [fields app].
  destruct (negb (FormParser.char st1 =? 44)%N); reflexivity.
Qed.

End FirstField.

Lemma nth_after_start (w tail : str) :
  nth (List.length w) (w ++ tail) NUL = hd NUL tail.
Proof.
  apply (nth_after_part [] w tail).
Qed.

Lemma word_not_nil (rt : Runtime) (w tail : str) :
  is_word rt w = true -> w ++ tail <> [].
Proof.
  destruct w; [discriminate | discriminate].
Qed.

(** X14.  A name that is not followed by a colon is an error at the position
    after the name, with the character found there. *)
Theorem parse_form_missing_colon (rt : Runtime) (w tail : str) :
  is_word rt w = true ->
  word_char rt (hd NUL tail) = false ->
  hd NUL tail <> 58%N ->
  FormParser.parse_form rt (w ++ tail)
  = Raise (Expected 58%N (List.length w) (hd NUL tail)).
Proof.
  intros Hw Hend Hc.
  rewrite parse_form_first by (eapply word_not_nil; eassumption).
  unfold FormParser.parse_field.
  rewrite (collect_word_start rt w tail Hw Hend). cbn [bind].
  unfold FormParser.expect. cbn [at_pos FormParser.char FormParser.cursor].
  rewrite nth_after_start.
  apply N.eqb_neq in Hc. rewrite Hc. reflexivity.
Qed.

Lemma parse_form_missing_colon_witness :
  FormParser.parse_form ascii_runtime (cps "age" ++ cps " :i8")
  = Raise (Expected 58%N (List.length (cps "age")) (hd NUL (cps " :i8"))).
Proof.
  apply (parse_form_missing_colon ascii_runtime (cps "age") (cps " :i8")).
  - reflexivity.
  - reflexivity.
  - discriminate.
Defined.

Lemma word_char_colon (rt : Runtime) :
  ascii_classes rt -> word_char rt 58%N = false.
Proof.
  intros H. unfold word_char. destruct (H 58%N) as (_ & -> & _); reflexivity.
Qed.

(** X15.  After the colon a character other than [i], [f], [s] and [e] is an
    error at its position; the end of the schema is read as [NUL]. *)
Theorem parse_form_unknown_type (rt : Runtime) (w tail : str) :
  ascii_classes rt ->
  is_word rt w = true ->
  ~ In (hd NUL tail) [105; 102; 115; 101]%N ->
  FormParser.parse_form rt (w ++ 58%N :: tail)
  = Raise (ExpectedType (S (List.length w)) (hd NUL tail)).
Proof.
  intros Hascii Hw Hc.
  rewrite parse_form_first by (eapply word_not_nil; eassumption).
  unfold FormParser.parse_field.
  rewrite (collect_word_start rt w (58%N :: tail) Hw
             (word_char_colon rt Hascii)).
  cbn [bind].
  unfold FormParser.expect. cbn [at_pos FormParser.char FormParser.cursor].
  rewrite nth_after_start. cbn [hd]. rewrite N.eqb_refl.
  fold (at_pos (w ++ 58%N :: tail) (List.length w)). rewrite advance_at.
  cbn [bind]. unfold FormParser.collect_type_and_value.
  cbn [at_pos FormParser.char FormParser.cursor].
  replace (nth (S (List.length w)) (w ++ 58%N :: tail) NUL) with (hd NUL tail).
  - cbn [In] in Hc.
    destruct (hd NUL tail =? 105)%N eqn:E1;
      [apply N.eqb_eq in E1; exfalso; auto|].
    destruct (hd NUL tail =? 102)%N eqn:E2;
      [apply N.eqb_eq in E2; exfalso; auto|].
    destruct (hd NUL tail =? 115)%N eqn:E3;
      [apply N.eqb_eq in E3; exfalso; auto|].
    destruct (hd NUL tail =? 101)%N eqn:E4;
      [apply N.eqb_eq in E4; exfalso; auto 6|].
    reflexivity.
  - rewrite app_nth2 by lia.
    replace (S (List.length w) - List.length w)%nat with 1%nat by lia.
    destruct tail; reflexivity.
Qed.

Lemma parse_form_unknown_type_witness :
  FormParser.parse_form ascii_runtime (cps "age" ++ 58%N :: cps " i8")
  = Raise (ExpectedType (S (List.length (cps "age"))) (hd NUL (cps " i8"))).
Proof.
  apply (parse_form_unknown_type ascii_runtime (cps "age") (cps " i8")).
  - exact ascii_runtime_classes.
  - reflexivity.
  - cbn. intuition discriminate.
Defined.
(** ** The parser on an integer field and on an enum field *)

Lemma ascii_digit_isnumeric (rt : Runtime) (c : codepoint) :
  ascii_classes rt -> ascii_digit c = true -> isnumeric rt c = true.
Proof.
  intros H Hc. destruct (H c) as (_ & _ & ->); [|assumption].
  unfold ascii_digit in Hc. apply andb_prop in Hc as [_ Hc].
  apply N.leb_le in Hc. lia.
Qed.

Lemma forallb_ascii_digit_isnumeric (rt : Runtime) (d : str) :
  ascii_classes rt -> forallb ascii_digit d = true ->
  forallb (isnumeric rt) d = true.
Proof.
  intros H Hd. rewrite forallb_forall in *. intros c Hc.
  apply ascii_digit_isnumeric; auto.
Qed.

Section Fields.
Context (rt : Runtime).
Hypothesis classes : ascii_classes rt.

Lemma collect_bitsize_part (allowed : list Z) (default : Z)
  (pre d tail : str) :
  ascii_int rt ->
  forallb ascii_digit d = true ->
  (List.length d <= int_max_str_digits)%nat ->
  isnumeric rt (hd NUL tail) = false ->
  FormParser.collect_bitsize rt allowed default
    (at_pos (pre ++ d ++ tail) (List.length pre))
  = match d with
    | [] => Ok (default, at_pos (pre ++ d ++ tail) (List.length pre))
    | _ :: _ =>
        if existsb (Z.eqb (decimal d)) allowed
        then Ok (decimal d,
                 at_pos (pre ++ d ++ tail) (List.length pre + List.length d))
        else Raise (ExpectedBitsize allowed
                      (List.length pre + List.length d) (decimal d))
    end.
Proof.
  intros Hint Hd Hmax Hend. unfold FormParser.collect_bitsize.
  cbn [at_pos FormParser.char]. fold (at_pos (pre ++ d ++ tail) (List.length pre)).
  destruct d as [|a d'].
  - pose proof (nth_after_part pre [] tail) as Hn.
    rewrite Nat.add_0_r in Hn. cbn [app] in Hn |- *. rewrite Hn, Hend.
    reflexivity.
  - pose proof (nth_middle_part pre (a :: d') tail 0 ltac:(cbn; lia)) as Hn.
    rewrite Nat.add_0_r in Hn. rewrite Hn. cbn [nth].
    cbn [forallb] in Hd. pose proof Hd as Hd0.
    apply andb_prop in Hd0 as [Ha _].
    rewrite (ascii_digit_isnumeric rt a classes Ha).
    unfold FormParser.collect_integer.
    rewrite advance_while_part
      by (try apply forallb_ascii_digit_isnumeric; assumption).
    cbn [bind at_pos FormParser.cursor FormParser.source].
    rewrite slice_middle_part.
    rewrite (Hint (a :: d')) by (assumption || discriminate).
    cbn [of_option bind].
    destruct (existsb (Z.eqb (decimal (a :: d'))) allowed); reflexivity.
Qed.

Lemma word_char_comma : word_char rt 44%N = false.
Proof.
  unfold word_char. destruct (classes 44%N) as (_ & -> & _); reflexivity.
Qed.

Lemma is_word_not_nil (w : str) : is_word rt w = true -> w <> [].
Proof.
  destruct w; [discriminate | discriminate].
Qed.

Lemma join_comma_cons (w : str) (items : list str) :
  items <> [] -> join_comma (w :: items) = w ++ 44%N :: join_comma items.
Proof.
  destruct items; [congruence | reflexivity].
Qed.

Lemma enum_loop_part :
  forall (items acc : list str) (pre tail : str) (fuel : nat),
  items <> [] ->
  forallb (is_word rt) items = true ->
  word_char rt (hd NUL tail) = false ->
  hd NUL tail <> 44%N ->
  (List.length items <= fuel)%nat ->
  FormParser.enum_loop rt fuel acc
    (at_pos (pre ++ join_comma items ++ tail) (List.length pre))
  = if (hd NUL tail =? 59)%N
    then Ok (acc ++ items,
             at_pos (pre ++ join_comma items ++ tail)
               (S (List.length pre + List.length (join_comma items))))
    else Raise (Expected 44%N
                  (List.length pre + List.length (join_comma items))
                  (hd NUL tail)).
Proof.
  induction items as [|w items IH]; intros acc pre tail fuel Hne Hw Hend Hc Hf;
    [congruence|].
  cbn [forallb] in Hw. apply andb_prop in Hw as [Hw Hws].
  destruct fuel as [|fuel]; [cbn in Hf; lia|]. cbn [FormParser.enum_loop].
  destruct items as [|w2 items].
  - cbn [join_comma]. rewrite collect_word_part by assumption.
    cbn [bind at_pos FormParser.char]. rewrite nth_after_part.
    fold (at_pos (pre ++ w ++ tail) (List.length pre + List.length w)).
    destruct (hd NUL tail =? 59)%N; cbn [negb].
    + rewrite advance_at. reflexivity.
    + unfold FormParser.expect. cbn [at_pos FormParser.char FormParser.cursor].
      rewrite nth_after_part. apply N.eqb_neq in Hc. rewrite Hc. reflexivity.
  - rewrite join_comma_cons by discriminate.
    set (more := join_comma (w2 :: items)) in *.
    rewrite <- app_assoc. cbn [app].
    rewrite collect_word_part by (first [assumption | apply word_char_comma]).
    cbn [bind at_pos FormParser.char]. rewrite nth_after_part. cbn [hd].
    change (44 =? 59)%N with false. cbn [negb].
    unfold FormParser.expect.
    cbn [at_pos FormParser.char FormParser.cursor].
    rewrite nth_after_part. cbn [hd]. rewrite N.eqb_refl.
    fold (at_pos (pre ++ w ++ 44%N :: more ++ tail)
            (List.length pre + List.length w)).
    rewrite advance_at. cbn [bind].
    match goal with
    | |- context [at_pos ?src (S ?pos)] =>
        replace src with ((pre ++ w ++ [44%N]) ++ more ++ tail)
          by (rewrite <- !app_assoc; reflexivity);
        replace (S pos) with (List.length (pre ++ w ++ [44%N]))
          by (rewrite !length_app; cbn; lia)
    end.
    rewrite (IH (acc ++ [w]) (pre ++ w ++ [44%N]) tail fuel)
      by (try discriminate; try assumption; cbn in Hf |- *; lia).
    rewrite !length_app. cbn [List.length].
    replace (List.length pre + (List.length w + 1) + List.length more)%nat
      with (List.length pre + (List.length w + S (List.length more)))%nat
      by lia.
    rewrite <- app_assoc. reflexivity.
Qed.

Lemma length_join_comma (items : list str) :
  forallb (is_word rt) items = true ->
  (List.length items <= List.length (join_comma items))%nat.
Proof.
  induction items as [|w items IH]; cbn [forallb]; [cbn; lia|].
  intros H. apply andb_prop in H as [Hw Hws].
  apply is_word_not_nil in Hw.
  assert (0 < List.length w)%nat by (destruct w; [congruence | cbn; lia]).
  destruct items as [|w2 items]; [cbn; lia|].
  rewrite join_comma_cons by discriminate.
  rewrite length_app. cbn [List.length]. specialize (IH Hws).
  cbn [List.length] in IH. lia.
Qed.

End Fields.

(** X16.  An integer field alone in a schema, with digits that [int]
    converts, no more of them than its limit on the digits of a string:
    with no digits it has 8 bits, with digits it has the bit size they
    spell, leading zeros included, when that is 8, 16, 32 or 64, and is an
    error at the position after the digits when it is not.  What follows
    the field, when it starts with neither a digit nor a comma, is not
    read. *)
Theorem parse_form_integer_field (rt : Runtime) (w d tail : str) :
  ascii_classes rt -> ascii_int rt ->
  is_word rt w = true ->
  forallb ascii_digit d = true ->
  (List.length d <= int_max_str_digits)%nat ->
  isnumeric rt (hd NUL tail) = false ->
  hd NUL tail <> 44%N ->
  FormParser.parse_form rt (w ++ 58%N :: 105%N :: d ++ tail)
  = match d with
    | [] =>
        Ok {| fields := [{| name := w; type := INTEGER; value := Bitsize 8 |}] |}
    | _ :: _ =>
        if existsb (Z.eqb (decimal d)) [8; 16; 32; 64]
        then Ok {| fields := [{| name := w; type := INTEGER;
                                 value := Bitsize (decimal d) |}] |}
        else Raise (ExpectedBitsize [8; 16; 32; 64]
                      (List.length w + 2 + List.length d) (decimal d))
    end.
Proof.
  intros Hascii Hint Hw Hd Hmax Hend Hc.
  rewrite parse_form_first by (eapply word_not_nil; eassumption).
  unfold FormParser.parse_field.
  rewrite (collect_word_start rt w (58%N :: 105%N :: d ++ tail) Hw
             (word_char_colon rt Hascii)).
  cbn [bind]. unfold FormParser.expect.
  cbn [at_pos FormParser.char FormParser.cursor].
  rewrite nth_after_start. cbn [hd]. rewrite N.eqb_refl.
  fold (at_pos (w ++ 58%N :: 105%N :: d ++ tail) (List.length w)).
  rewrite advance_at. cbn [bind].
  unfold FormParser.collect_type_and_value, FormParser.collect_bitsize_integer.
  cbn [at_pos FormParser.char].
  replace (nth (S (List.length w)) (w ++ 58%N :: 105%N :: d ++ tail) NUL)
    with 105%N
    by (rewrite app_nth2 by lia;
        replace (S (List.length w) - List.length w)%nat with 1%nat by lia;
        reflexivity).
  rewrite N.eqb_refl.
  fold (at_pos (w ++ 58%N :: 105%N :: d ++ tail) (S (List.length w))).
  rewrite advance_at.
  match goal with
  | |- context [at_pos ?src (S (S ?pos))] =>
      replace src with ((w ++ [58%N; 105%N]) ++ d ++ tail)
        by (rewrite <- !app_assoc; reflexivity);
      replace (S (S pos)) with (List.length (w ++ [58%N; 105%N]))
        by (rewrite !length_app; cbn; lia)
  end.
  rewrite (collect_bitsize_part rt Hascii _ _ _ d tail Hint Hd Hmax Hend).
  assert (Hlast : forall k,
            (k = List.length (w ++ [58%N; 105%N]) + List.length d)%nat ->
            negb (FormParser.char
                    (at_pos ((w ++ [58%N; 105%N]) ++ d ++ tail) k) =? 44)%N
            = true).
  { intros k ->. cbn [at_pos FormParser.char]. rewrite nth_after_part.
    apply N.eqb_neq in Hc. rewrite Hc. reflexivity. }
  destruct d as [|a d'].
  - cbn [bind]. rewrite Hlast by (cbn [List.length]; lia). reflexivity.
  - destruct (existsb (Z.eqb (decimal (a :: d'))) [8; 16; 32; 64]).
    + cbn [bind]. rewrite Hlast by reflexivity. reflexivity.
    + cbn [bind]. rewrite !length_app. cbn [List.length].
      do 2 f_equal; lia.
Qed.

Lemma ascii_runtime_int : ascii_int ascii_runtime.
Proof.
  intros s Hs Hd _. cbn [int_of_str ascii_runtime]. unfold ascii_numeral.
  destruct s as [|c s']; [congruence|].
  rewrite Hd.
  destruct (c =? 45)%N eqn:E; [|reflexivity].
  apply N.eqb_eq in E. subst c. discriminate.
Qed.

Lemma parse_form_integer_field_witness :
  FormParser.parse_form ascii_runtime
    (cps "n" ++ 58%N :: 105%N :: cps "016" ++ cps "]")
  = match cps "016" with
    | [] =>
        Ok {| fields :=
                [{| name := cps "n"; type := INTEGER; value := Bitsize 8 |}] |}
    | _ :: _ =>
        if existsb (Z.eqb (decimal (cps "016"))) [8; 16; 32; 64]
        then Ok {| fields := [{| name := cps "n"; type := INTEGER;
                                 value := Bitsize (decimal (cps "016")) |}] |}
        else Raise (ExpectedBitsize [8; 16; 32; 64]
                      (List.length (cps "n") + 2 + List.length (cps "016"))
                      (decimal (cps "016")))
    end.
Proof.
  apply (parse_form_integer_field ascii_runtime (cps "n") (cps "016") (cps "]")).
  - exact ascii_runtime_classes.
  - exact ascii_runtime_int.
  - reflexivity.
  - reflexivity.
  - apply Nat.leb_le. reflexivity.
  - reflexivity.
  - discriminate.
Defined.

Section EnumField.
Context (rt : Runtime) (w : str) (items : list str) (tail : str).
Hypothesis classes : ascii_classes rt.
Hypothesis word_w : is_word rt w = true.
Hypothesis some_item : items <> [].
Hypothesis word_items : forallb (is_word rt) items = true.
Hypothesis tail_stops : word_char rt (hd NUL tail) = false.
Hypothesis tail_not_comma : hd NUL tail <> 44%N.

Let s : str := w ++ 58%N :: 101%N :: 91%N :: join_comma items ++ tail.

(** The parser up to the end of the item list of an enum field. *)
Lemma parse_field_enum :
  FormParser.parse_field rt (at_pos s 0)
  = if (hd NUL tail =? 59)%N
    then Ok ({| name := w; type := ENUM; value := Items items |},
             at_pos s (S (List.length w + 3 + List.length (join_comma items))))
    else Raise (Expected 44%N
                  (List.length w + 3 + List.length (join_comma items))
                  (hd NUL tail)).
Proof.
  unfold FormParser.parse_field, s.
  rewrite (collect_word_start rt w
             (58%N :: 101%N :: 91%N :: join_comma items ++ tail) word_w
             (word_char_colon rt classes)).
  cbn [bind]. unfold FormParser.expect at 1.
  cbn [at_pos FormParser.char FormParser.cursor].
  rewrite nth_after_start. cbn [hd]. rewrite N.eqb_refl.
  fold s. fold (at_pos s (List.length w)). rewrite advance_at. cbn [bind].
  unfold FormParser.collect_type_and_value. cbn [at_pos FormParser.char].
  assert (He : nth (S (List.length w)) s NUL = 101%N).
  { unfold s. rewrite app_nth2 by lia.
    replace (S (List.length w) - List.length w)%nat with 1%nat by lia.
    reflexivity. }
  rewrite He. cbn [N.eqb Pos.eqb].
  fold (at_pos s (S (List.length w))). rewrite advance_at.
  unfold FormParser.collect_enum, FormParser.expect.
  cbn [at_pos FormParser.char FormParser.cursor].
  assert (Hb : nth (S (S (List.length w))) s NUL = 91%N).
  { unfold s. rewrite app_nth2 by lia.
    replace (S (S (List.length w)) - List.length w)%nat with 2%nat by lia.
    reflexivity. }
  rewrite Hb. cbn [N.eqb Pos.eqb].
  fold (at_pos s (S (S (List.length w)))). rewrite advance_at. cbn [bind].
  assert (Hs : s = (w ++ [58%N; 101%N; 91%N]) ++ join_comma items ++ tail)
    by (unfold s; rewrite <- !app_assoc; reflexivity).
  assert (Hpos : S (S (S (List.length w)))
                 = List.length (w ++ [58%N; 101%N; 91%N]))
    by (rewrite length_app; cbn; lia).
  rewrite Hpos. rewrite Hs at 1 2.
  rewrite (enum_loop_part rt classes items [] _ tail)
    by (try assumption;
        pose proof (length_join_comma rt items word_items);
        rewrite remaining_at, !length_app; lia).
  rewrite <- Hs, <- Hpos.
  replace (S (S (S (List.length w))) + List.length (join_comma items))%nat
    with (List.length w + 3 + List.length (join_comma items))%nat by lia.
  destruct (hd NUL tail =? 59)%N; reflexivity.
Qed.

End EnumField.

Lemma word_char_semicolon (rt : Runtime) :
  ascii_classes rt -> word_char rt 59%N = false.
Proof.
  intros H. unfold word_char. destruct (H 59%N) as (_ & -> & _); reflexivity.
Qed.

(** X17.  An enum field alone in a schema: the items are the words between the
    [[] and the [;], in order, and what follows the [;], when it does not
    start with a comma, is not read. *)
Theorem parse_form_enum_field (rt : Runtime) (w : str) (items : list str)
  (rest : str) :
  ascii_classes rt ->
  is_word rt w = true ->
  items <> [] ->
  forallb (is_word rt) items = true ->
  hd NUL rest <> 44%N ->
  FormParser.parse_form rt
    (w ++ 58%N :: 101%N :: 91%N :: join_comma items ++ 59%N :: rest)
  = Ok {| fields := [{| name := w; type := ENUM; value := Items items |}] |}.
Proof.
  intros Hascii Hw Hne Hitems Hc.
  rewrite parse_form_first by (eapply word_not_nil; eassumption).
  rewrite (parse_field_enum rt w items (59%N :: rest) Hascii Hw Hne Hitems
             (word_char_semicolon rt Hascii) ltac:(discriminate)).
  cbn [hd]. rewrite N.eqb_refl. cbn [bind at_pos FormParser.char].
  match goal with
  | |- context [nth ?k ?src NUL] =>
      replace (nth k src NUL) with (hd NUL rest)
  end.
  - apply N.eqb_neq in Hc. rewrite Hc. reflexivity.
  - symmetry.
    replace (w ++ 58%N :: 101%N :: 91%N :: join_comma items ++ 59%N :: rest)
      with ((w ++ [58%N; 101%N; 91%N] ++ join_comma items ++ [59%N]) ++ rest)
      by (rewrite <- !app_assoc; reflexivity).
    rewrite app_nth2 by (rewrite !length_app; cbn; lia).
    rewrite !length_app. cbn [List.length].
    replace (_ - _)%nat with O by lia.
    destruct rest; reflexivity.
Qed.

Lemma parse_form_enum_field_witness :
  FormParser.parse_form ascii_runtime
    (cps "s" ++ 58%N :: 101%N :: 91%N
     :: join_comma [cps "on"; cps "off"] ++ 59%N :: cps "]")
  = Ok {| fields :=
            [{| name := cps "s"; type := ENUM;
                value := Items [cps "on"; cps "off"] |}] |}.
Proof.
  apply (parse_form_enum_field ascii_runtime (cps "s") [cps "on"; cps "off"]
           (cps "]")).
  - exact ascii_runtime_classes.
  - reflexivity.
  - discriminate.
  - reflexivity.
  - discriminate.
Defined.

(** X18.  An item list that is not ended by [;] is an error: at the character
    after the last item, when it is neither [;] nor a comma nor part of a
    word, the parser asks for a comma.  Closing the list with [ ] ] alone
    is such an error. *)
Theorem parse_form_enum_unclosed (rt : Runtime) (w : str) (items : list str)
  (tail : str) :
  ascii_classes rt ->
  is_word rt w = true ->
  items <> [] ->
  forallb (is_word rt) items = true ->
  word_char rt (hd NUL tail) = false ->
  hd NUL tail <> 44%N ->
  hd NUL tail <> 59%N ->
  FormParser.parse_form rt
    (w ++ 58%N :: 101%N :: 91%N :: join_comma items ++ tail)
  = Raise (Expected 44%N
             (List.length w + 3 + List.length (join_comma items))
             (hd NUL tail)).
Proof.
  intros Hascii Hw Hne Hitems Hstop Hc Hsemi.
  rewrite parse_form_first by (eapply word_not_nil; eassumption).
  rewrite (parse_field_enum rt w items tail Hascii Hw Hne Hitems Hstop Hc).
  apply N.eqb_neq in Hsemi. rewrite Hsemi. reflexivity.
Qed.

Lemma parse_form_enum_unclosed_witness :
  FormParser.parse_form ascii_runtime
    (cps "s" ++ 58%N :: 101%N :: 91%N
     :: join_comma [cps "on"; cps "off"] ++ cps "]")
  = Raise (Expected 44%N
             (List.length (cps "s") + 3
              + List.length (join_comma [cps "on"; cps "off"]))
             (hd NUL (cps "]"))).
Proof.
  apply (parse_form_enum_unclosed ascii_runtime (cps "s")
           [cps "on"; cps "off"] (cps "]")).
  - exact ascii_runtime_classes.
  - reflexivity.
  - discriminate.
  - reflexivity.
  - reflexivity.
  - discriminate.
  - discriminate.
Defined.

(** ** The names in a parsed form *)

Lemma advance_while_chars (q : codepoint -> bool) (s : str) :
  forall (fuel k : nat) (st' : FormParser.state),
  FormParser.advance_while q fuel (at_pos s k) = Ok st' ->
  exists k',
    st' = at_pos s k' /\ (k <= k')%nat /\
    (forall j, (k <= j < k')%nat -> q (nth j s NUL) = true) /\
    q (nth k' s NUL) = false.
Proof.
  induction fuel as [|fuel IH]; intros k st';
    cbn [FormParser.advance_while at_pos FormParser.char];
    destruct (q (nth k s NUL)) eqn:Eq; try discriminate.
  - intros [= <-]. exists k. repeat split; auto. intros j Hj. lia.
  - fold (at_pos s k). rewrite advance_at. intros H.
    destruct (IH _ _ H) as (k' & -> & Hk' & Hq & Hend).
    exists k'. repeat split; auto; [lia|].
    intros j Hj. destruct (Nat.eq_dec j k) as [->|]; [assumption|].
    apply Hq. lia.
  - intros [= <-]. exists k. repeat split; auto. intros j Hj. lia.
Qed.

Lemma forallb_slice (q : codepoint -> bool) (s : str) (k k' : nat) :
  (forall j, (k <= j < k')%nat -> q (nth j s NUL) = true) ->
  (k' <= List.length s)%nat ->
  forallb q (slice k k' s) = true.
Proof.
  intros Hq Hk'. apply forallb_forall. intros c Hc.
  apply (In_nth _ _ NUL) in Hc as (i & Hi & <-).
  unfold slice in *. rewrite length_firstn, length_skipn in Hi.
  rewrite nth_firstn.
  replace (i <? k' - k)%nat with true by (symmetry; apply Nat.ltb_lt; lia).
  rewrite nth_skipn. apply Hq. lia.
Qed.

Section Words.
Context (rt : Runtime) (s : str).
Hypothesis classes : ascii_classes rt.
Hypothesis letters : alpha_is_alnum rt.

Lemma collect_word_is_word (k : nat) (w : str) (st' : FormParser.state) :
  FormParser.collect_word rt (at_pos s k) = Ok (w, st') ->
  is_word rt w = true /\ exists k', st' = at_pos s k' /\ (k <= k')%nat.
Proof.
  unfold FormParser.collect_word.
  cbn [at_pos FormParser.char FormParser.cursor].
  destruct (isalpha rt (nth k s NUL)) eqn:Ea; cbn [negb]; [|discriminate].
  fold (at_pos s k).
  destruct (FormParser.advance_while _ _ (at_pos s k)) as [st1|] eqn:Ew;
    [|discriminate].
  cbn [bind]. intros [= <- <-].
  destruct (advance_while_chars _ _ _ _ _ Ew) as (k' & -> & Hk' & Hq & Hend).
  cbn [at_pos FormParser.cursor FormParser.source].
  split; [|eauto].
  assert (Hlt : (k < List.length s)%nat).
  { apply nth_not_NUL. intros E. rewrite E in Ea.
    rewrite (ascii_isalpha_NUL rt classes) in Ea. discriminate. }
  assert (Hk0 : word_char rt (nth k s NUL) = true).
  { unfold word_char. rewrite (letters _ Ea). reflexivity. }
  assert (Hne : k <> k').
  { intros <-. unfold word_char in Hk0. congruence. }
  assert (Hle : (k' <= List.length s)%nat).
  { destruct (Nat.le_gt_cases k' (List.length s)) as [H|H]; [assumption|].
    exfalso. specialize (Hq (List.length s) ltac:(lia)).
    rewrite nth_overflow in Hq by lia.
    destruct (classes NUL) as (_ & Hn & _); [reflexivity|].
    rewrite Hn in Hq. discriminate. }
  pose proof (forallb_slice (word_char rt) s k k' Hq Hle) as Hall.
  unfold is_word. destruct (slice k k' s) as [|c w'] eqn:Es.
  - apply (f_equal (@List.length codepoint)) in Es. unfold slice in Es.
    rewrite length_firstn, length_skipn in Es. cbn in Es. lia.
  - assert (Hc : c = nth k s NUL).
    { change c with (nth 0 (c :: w') NUL). rewrite <- Es. unfold slice.
      rewrite nth_firstn, nth_skipn, Nat.add_0_r.
      replace (0 <? k' - k)%nat with true
        by (symmetry; apply Nat.ltb_lt; lia).
      reflexivity. }
    rewrite Hc in Hall |- *. rewrite Ea. exact Hall.
Qed.

Lemma enum_loop_words :
  forall (fuel : nat) (acc items : list str) (k : nat)
         (st' : FormParser.state),
  forallb (is_word rt) acc = true ->
  FormParser.enum_loop rt fuel acc (at_pos s k) = Ok (items, st') ->
  items <> [] /\ forallb (is_word rt) items = true.
Proof.
  induction fuel as [|fuel IH]; intros acc items k st' Hacc;
    cbn [FormParser.enum_loop]; [discriminate|].
  destruct (FormParser.collect_word rt (at_pos s k)) as [[w st1]|] eqn:Ew;
    [|discriminate].
  destruct (collect_word_is_word _ _ _ Ew) as (Hw & k1 & -> & _).
  cbn [bind].
  assert (Hacc' : forallb (is_word rt) (acc ++ [w]) = true).
  { rewrite forallb_app, Hacc. cbn [forallb]. rewrite Hw. reflexivity. }
  destruct (negb (FormParser.char (at_pos s k1) =? 59)%N).
  - unfold FormParser.expect.
    destruct (FormParser.char (at_pos s k1) =? 44)%N; [|discriminate].
    rewrite advance_at. cbn [bind]. apply IH. exact Hacc'.
  - intros [= <- <-]. split; [|exact Hacc'].
    destruct acc; discriminate.
Qed.

Lemma parse_field_words (k : nat) (f : Field) (st' : FormParser.state) :
  FormParser.parse_field rt (at_pos s k) = Ok (f, st') ->
  field_words rt f = true.
Proof.
  unfold FormParser.parse_field.
  destruct (FormParser.collect_word rt (at_pos s k)) as [[w st1]|] eqn:Ew;
    [|discriminate].
  destruct (collect_word_is_word _ _ _ Ew) as (Hw & k1 & -> & _).
  cbn [bind]. unfold FormParser.expect.
  destruct (FormParser.char (at_pos s k1) =? 58)%N; [|discriminate].
  rewrite advance_at. cbn [bind].
  unfold FormParser.collect_type_and_value.
  destruct (FormParser.char (at_pos s (S k1)) =? 105)%N.
  { destruct (FormParser.collect_bitsize_integer rt _) as [[b st3]|];
      [|discriminate].
    cbn [bind]. intros [= <- <-]. unfold field_words. cbn [name value].
    rewrite Hw. reflexivity. }
  destruct (FormParser.char (at_pos s (S k1)) =? 102)%N.
  { destruct (FormParser.collect_bitsize_float rt _) as [[b st3]|];
      [|discriminate].
    cbn [bind]. intros [= <- <-]. unfold field_words. cbn [name value].
    rewrite Hw. reflexivity. }
  destruct (FormParser.char (at_pos s (S k1)) =? 115)%N.
  { intros [= <- <-]. unfold field_words. cbn [name value].
    rewrite Hw. reflexivity. }
  destruct (FormParser.char (at_pos s (S k1)) =? 101)%N; [|discriminate].
  rewrite advance_at. unfold FormParser.collect_enum, FormParser.expect.
  destruct (FormParser.char (at_pos s (S (S k1))) =? 91)%N; [|discriminate].
  rewrite advance_at. cbn [bind].
  destruct (FormParser.enum_loop rt _ [] _) as [[items st3]|] eqn:El;
    [|discriminate].
  cbn [bind]. intros [= <- <-].
  destruct (enum_loop_words _ [] _ _ _ eq_refl El) as (Hne & Hitems).
  unfold field_words. cbn [name value]. rewrite Hw, Hitems.
  destruct items; [congruence | reflexivity].
Qed.

Lemma form_loop_words :
  forall (fuel : nat) (form form' : Form) (k : nat) (st' : FormParser.state),
  (k <= List.length s)%nat ->
  forallb (field_words rt) (fields form) = true ->
  FormParser.form_loop rt fuel form (at_pos s k) = Ok (form', st') ->
  forallb (field_words rt) (fields form') = true.
Proof.
  induction fuel as [|fuel IH]; intros form form' k st' Hk Hform;
    cbn [FormParser.form_loop];
    destruct (FormParser.cursor (at_pos s k) <? FormParser.length (at_pos s k))%nat;
    try discriminate; try (intros [= <- <-]; exact Hform).
  destruct (FormParser.parse_field rt (at_pos s k)) as [[field st1]|] eqn:Ep;
    [|discriminate].
  cbn [bind].
  assert (Hadd : forallb (field_words rt) (fields (Form.add_field form field))
                 = true).
  { unfold Form.add_field. cbn [fields].
    rewrite forallb_app, Hform. cbn [forallb andb].
    rewrite (parse_field_words _ _ _ Ep). reflexivity. }
  destruct (parse_field_extension rt s [] (ascii_isalpha_NUL rt classes)
              k field st1 Hk Ep) as (k1 & -> & Hk1 & _).
  destruct (FormParser.char (at_pos s k1) =? 44)%N eqn:Ec; cbn [negb].
  - assert (Hlt : (k1 < List.length s)%nat) by in_source.
    rewrite advance_at. apply IH; [lia | exact Hadd].
  - intros [= <- <-]. exact Hadd.
Qed.

End Words.

(** X19.  In a parsed form every field name is a word, a letter followed by
    letters, digits and underscores, and every enum has at least one item,
    each of them a word. *)
Theorem parse_form_words (rt : Runtime) (s : str) (form : Form) :
  ascii_classes rt -> alpha_is_alnum rt ->
  FormParser.parse_form rt s = Ok form ->
  forallb (field_words rt) (fields form) = true.
Proof.
  intros Hascii Hletters. unfold FormParser.parse_form.
  destruct s as [|c s]; [discriminate|].
  rewrite parse_form_run_at by discriminate.
  destruct (FormParser.form_loop _ _ _ _) as [[form' st]|] eqn:El;
    [|discriminate].
  cbn [bind]. intros [= <-].
  apply (form_loop_words rt (c :: s) Hascii Hletters
           (List.length (c :: s)) {| fields := [] |} _ 0%nat st);
    [apply Nat.le_0_l | reflexivity | exact El].
Qed.

Lemma ascii_runtime_letters : alpha_is_alnum ascii_runtime.
Proof.
  intros c. cbn. destruct (c <? 128)%N; [|discriminate].
  cbn. intros ->. reflexivity.
Qed.

Lemma parse_form_words_witness :
  forallb (field_words ascii_runtime)
    [{| name := cps "a_1"; type := ENUM;
        value := Items [cps "x"; cps "y2"] |}] = true.
Proof.
  apply (parse_form_words ascii_runtime (cps "a_1:e[x,y2;")
           {| fields :=
                [{| name := cps "a_1"; type := ENUM;
                    value := Items [cps "x"; cps "y2"] |}] |}).
  - exact ascii_runtime_classes.
  - exact ascii_runtime_letters.
  - reflexivity.
Defined.

(** ** The parser on a float field and on a string field *)

Section TypedFields.
Context (rt : Runtime).
Hypothesis classes : ascii_classes rt.

(** The name and the colon of a field. *)
Lemma parse_field_head (w rest : str) :
  is_word rt w = true ->
  FormParser.parse_field rt (at_pos (w ++ 58%N :: rest) 0)
  = ('((field_type, field_value), st3) <-
       FormParser.collect_type_and_value rt
         (at_pos (w ++ 58%N :: rest) (S (List.length w))) ;;
     Ok ({| name := w; type := field_type; value := field_value |}, st3)).
Proof.
  intros Hw. unfold FormParser.parse_field.
  rewrite (collect_word_start rt w (58%N :: rest) Hw
             (word_char_colon rt classes)).
  cbn [bind]. unfold FormParser.expect.
  cbn [at_pos FormParser.char FormParser.cursor].
  rewrite nth_after_start. cbn [hd]. rewrite N.eqb_refl.
  fold (at_pos (w ++ 58%N :: rest) (List.length w)).
  rewrite advance_at. cbn [bind]. reflexivity.
Qed.

Lemma nth_type_letter (w rest : str) (c : codepoint) :
  nth (S (List.length w)) (w ++ 58%N :: c :: rest) NUL = c.
Proof.
  rewrite app_nth2 by lia.
  replace (S (List.length w) - List.length w)%nat with 1%nat by lia.
  reflexivity.
Qed.

(** An integer or a float field with the digits after its type letter. *)
Lemma parse_field_bitsize (c : codepoint) (t : FieldType)
  (allowed : list Z) (default : Z) (w d tail : str) :
  (c = 105%N /\ t = INTEGER /\ allowed = [8; 16; 32; 64] /\ default = 8) \/
  (c = 102%N /\ t = FLOAT /\ allowed = [32; 64] /\ default = 32) ->
  ascii_int rt ->
  is_word rt w = true ->
  forallb ascii_digit d = true ->
  (List.length d <= int_max_str_digits)%nat ->
  isnumeric rt (hd NUL tail) = false ->
  FormParser.parse_field rt (at_pos (w ++ 58%N :: c :: d ++ tail) 0)
  = match d with
    | [] =>
        Ok ({| name := w; type := t; value := Bitsize default |},
            at_pos (w ++ 58%N :: c :: d ++ tail) (List.length w + 2))
    | _ :: _ =>
        if existsb (Z.eqb (decimal d)) allowed
        then Ok ({| name := w; type := t; value := Bitsize (decimal d) |},
                 at_pos (w ++ 58%N :: c :: d ++ tail)
                   (List.length w + 2 + List.length d))
        else Raise (ExpectedBitsize allowed
                      (List.length w + 2 + List.length d) (decimal d))
    end.
Proof.
  intros Hc Hint Hw Hd Hmax Hend.
  rewrite parse_field_head by assumption.
  unfold FormParser.collect_type_and_value.
  cbn [at_pos FormParser.char]. rewrite nth_type_letter.
  fold (at_pos (w ++ 58%N :: c :: d ++ tail) (S (List.length w))).
  rewrite advance_at.
  assert (Hsrc : w ++ 58%N :: c :: d ++ tail = (w ++ [58%N; c]) ++ d ++ tail)
    by (rewrite <- app_assoc; reflexivity).
  assert (Hpos : S (S (List.length w)) = List.length (w ++ [58%N; c]))
    by (rewrite length_app; cbn [List.length]; lia).
  assert (Hpos2 : (List.length w + 2)%nat = List.length (w ++ [58%N; c]))
    by (rewrite length_app; cbn [List.length]; lia).
  rewrite Hsrc, Hpos, Hpos2.
  pose proof (collect_bitsize_part rt classes allowed default
                (w ++ [58%N; c]) d tail Hint Hd Hmax Hend) as Hb.
  destruct Hc as [(-> & -> & -> & ->)|(-> & -> & -> & ->)].
  - rewrite N.eqb_refl. unfold FormParser.collect_bitsize_integer.
    rewrite Hb. destruct d as [|a d']; [reflexivity|].
    destruct (existsb _ _); reflexivity.
  - change (102 =? 105)%N with false. rewrite N.eqb_refl.
    unfold FormParser.collect_bitsize_float.
    rewrite Hb. destruct d as [|a d']; [reflexivity|].
    destruct (existsb _ _); reflexivity.
Qed.

Lemma parse_field_string (w tail : str) :
  is_word rt w = true ->
  FormParser.parse_field rt (at_pos (w ++ 58%N :: 115%N :: tail) 0)
  = Ok ({| name := w; type := STRING; value := NoValue |},
        at_pos (w ++ 58%N :: 115%N :: tail) (List.length w + 2)).
Proof.
  intros Hw. rewrite parse_field_head by assumption.
  unfold FormParser.collect_type_and_value.
  cbn [at_pos FormParser.char]. rewrite nth_type_letter.
  change (115 =? 105)%N with false. change (115 =? 102)%N with false.
  rewrite N.eqb_refl.
  fold (at_pos (w ++ 58%N :: 115%N :: tail) (S (List.length w))).
  rewrite advance_at. cbn [bind].
  replace (List.length w + 2)%nat with (S (S (List.length w))) by lia.
  reflexivity.
Qed.

Lemma nth_after_bits (w d tail : str) (c : codepoint) :
  nth (List.length w + 2 + List.length d) (w ++ 58%N :: c :: d ++ tail) NUL
  = hd NUL tail.
Proof.
  rewrite app_nth2 by lia.
  replace (List.length w + 2 + List.length d - List.length w)%nat
    with (S (S (List.length d))) by lia.
  cbn [nth]. apply nth_after_start.
Qed.

End TypedFields.

(** X20.  A float field alone in a schema, with digits that [int]
    converts, no more of them than its limit on the digits of a string:
    with no digits it has 32 bits, with digits it has the bit size they
    spell when that is 32 or 64, and is an error at the position after the
    digits when it is not. *)
Theorem parse_form_float_field (rt : Runtime) (w d tail : str) :
  ascii_classes rt -> ascii_int rt ->
  is_word rt w = true ->
  forallb ascii_digit d = true ->
  (List.length d <= int_max_str_digits)%nat ->
  isnumeric rt (hd NUL tail) = false ->
  hd NUL tail <> 44%N ->
  FormParser.parse_form rt (w ++ 58%N :: 102%N :: d ++ tail)
  = match d with
    | [] =>
        Ok {| fields := [{| name := w; type := FLOAT; value := Bitsize 32 |}] |}
    | _ :: _ =>
        if existsb (Z.eqb (decimal d)) [32; 64]
        then Ok {| fields := [{| name := w; type := FLOAT;
                                 value := Bitsize (decimal d) |}] |}
        else Raise (ExpectedBitsize [32; 64]
                      (List.length w + 2 + List.length d) (decimal d))
    end.
Proof.
  intros Hascii Hint Hw Hd Hmax Hend Hc.
  rewrite parse_form_first by (eapply word_not_nil; eassumption).
  pose proof (parse_field_bitsize rt Hascii 102%N FLOAT [32; 64] 32 w d tail
                ltac:(auto 6) Hint Hw Hd Hmax Hend) as Hp.
  pose proof (nth_after_bits w d tail 102%N) as Hn.
  apply N.eqb_neq in Hc.
  unfold str, codepoint in *. rewrite Hp.
  destruct d as [|a d'].
  - cbn [bind at_pos FormParser.char].
    cbn [List.length] in Hn. rewrite Nat.add_0_r in Hn.
    unfold codepoint. rewrite Hn, Hc. reflexivity.
  - destruct (existsb _ _); [|reflexivity].
    cbn [bind at_pos FormParser.char].
    unfold codepoint. rewrite Hn, Hc. reflexivity.
Qed.

Lemma parse_form_float_field_witness :
  FormParser.parse_form ascii_runtime
    (cps "x" ++ 58%N :: 102%N :: cps "16" ++ cps " ")
  = match cps "16" with
    | [] =>
        Ok {| fields := [{| name := cps "x"; type := FLOAT;
                            value := Bitsize 32 |}] |}
    | _ :: _ =>
        if existsb (Z.eqb (decimal (cps "16"))) [32; 64]
        then Ok {| fields := [{| name := cps "x"; type := FLOAT;
                                 value := Bitsize (decimal (cps "16")) |}] |}
        else Raise (ExpectedBitsize [32; 64]
                      (List.length (cps "x") + 2 + List.length (cps "16"))
                      (decimal (cps "16")))
    end.
Proof.
  apply (parse_form_float_field ascii_runtime (cps "x") (cps "16") (cps " ")).
  - exact ascii_runtime_classes.
  - exact ascii_runtime_int.
  - reflexivity.
  - reflexivity.
  - apply Nat.leb_le. reflexivity.
  - reflexivity.
  - discriminate.
Defined.

(** X21.  A string field alone in a schema has no value, and what follows the
    [s], digits included, is not read when it does not start with a
    comma. *)
Theorem parse_form_string_field (rt : Runtime) (w tail : str) :
  ascii_classes rt ->
  is_word rt w = true ->
  hd NUL tail <> 44%N ->
  FormParser.parse_form rt (w ++ 58%N :: 115%N :: tail)
  = Ok {| fields := [{| name := w; type := STRING; value := NoValue |}] |}.
Proof.
  intros Hascii Hw Hc.
  rewrite parse_form_first by (eapply word_not_nil; eassumption).
  pose proof (parse_field_string rt Hascii w tail Hw) as Hp.
  pose proof (nth_after_bits w [] tail 115%N) as Hn.
  cbn [List.length app] in Hn. rewrite Nat.add_0_r in Hn.
  apply N.eqb_neq in Hc.
  unfold str, codepoint in *. rewrite Hp.
  cbn [bind at_pos FormParser.char].
  unfold codepoint. rewrite Hn, Hc. reflexivity.
Qed.

Lemma parse_form_string_field_witness :
  FormParser.parse_form ascii_runtime (cps "title" ++ 58%N :: 115%N :: cps "8")
  = Ok {| fields := [{| name := cps "title"; type := STRING;
                        value := NoValue |}] |}.
Proof.
  apply (parse_form_string_field ascii_runtime (cps "title") (cps "8")).
  - exact ascii_runtime_classes.
  - reflexivity.
  - discriminate.
Defined.

(** ** Parsing the text of a form *)

Lemma last_app_cons (l l' : str) (x d : codepoint) :
  last (l ++ x :: l') d = last (x :: l') d.
Proof.
  induction l as [|a l IH]; [reflexivity|].
  cbn [app]. rewrite <- IH. destruct (l ++ x :: l') eqn:E; [|reflexivity].
  destruct l; discriminate.
Qed.

Lemma bits_text_digits (bits : Z) :
  In bits [8; 16; 32; 64] ->
  exists a d,
    bits_text bits = a :: d /\ forallb ascii_digit (a :: d) = true /\
    decimal (a :: d) = bits /\ last (a :: d) NUL <> 44%N /\
    (List.length (a :: d) <= int_max_str_digits)%nat.
Proof.
  intros [<-|[<-|[<-|[<-|[]]]]]; eexists; eexists;
    (split; [reflexivity|]);
    (split; [reflexivity|]);
    (split; [reflexivity|]);
    (split; [discriminate | apply Nat.leb_le; reflexivity]).
Qed.

Lemma existsb_Zeqb_In (z : Z) (l : list Z) :
  existsb (Z.eqb z) l = true -> In z l.
Proof.
  intros H. apply existsb_exists in H as (y & Hy & E).
  apply Z.eqb_eq in E. subst. assumption.
Qed.

Section FormText.
Context (rt : Runtime).
Hypothesis classes : ascii_classes rt.
Hypothesis int_law : ascii_int rt.

Lemma parse_field_text (f : Field) :
  parsed_field f = true -> field_words rt f = true ->
  FormParser.parse_field rt (at_pos (field_text f) 0)
  = Ok (f, at_pos (field_text f) (List.length (field_text f)))
  /\ last (field_text f) NUL <> 44%N.
Proof.
  destruct f as [n t v]. unfold parsed_field, fixed_width, field_words,
    field_text, type_text.
  cbn [name type value]. intros Hp Hw.
  apply andb_prop in Hw as [Hn Hv].
  destruct t, v; try discriminate.
  - apply existsb_Zeqb_In in Hp as Hin.
    destruct (bits_text_digits bits Hin)
      as (a & d & -> & Hd & Hdec & Hl & Hmax).
    pose proof (parse_field_bitsize rt classes 105%N INTEGER [8; 16; 32; 64] 8
                  n (a :: d) [] ltac:(auto 6) int_law Hn Hd Hmax
                  (isnumeric_NUL rt classes))
      as Hf.
    rewrite app_nil_r in Hf. rewrite Hdec, Hp in Hf.
    unfold str, codepoint in *. rewrite Hf. split.
    + rewrite length_app. cbn [List.length].
      match goal with
      | |- Ok (_, at_pos _ ?a) = Ok (_, at_pos _ ?b) =>
          replace a with b by lia
      end; reflexivity.
    + rewrite last_app_cons. exact Hl.
  - assert (Hin : In bits [8; 16; 32; 64]).
    { apply existsb_Zeqb_In in Hp. cbn in Hp |- *. tauto. }
    destruct (bits_text_digits bits Hin)
      as (a & d & -> & Hd & Hdec & Hl & Hmax).
    pose proof (parse_field_bitsize rt classes 102%N FLOAT [32; 64] 32
                  n (a :: d) [] ltac:(auto 6) int_law Hn Hd Hmax
                  (isnumeric_NUL rt classes))
      as Hf.
    rewrite app_nil_r in Hf. rewrite Hdec, Hp in Hf.
    unfold str, codepoint in *. rewrite Hf. split.
    + rewrite length_app. cbn [List.length].
      match goal with
      | |- Ok (_, at_pos _ ?a) = Ok (_, at_pos _ ?b) =>
          replace a with b by lia
      end; reflexivity.
    + rewrite last_app_cons. exact Hl.
  - pose proof (parse_field_string rt classes n [] Hn) as Hf.
    unfold str, codepoint in *. rewrite Hf. split.
    + rewrite length_app. cbn [List.length].
      match goal with
      | |- Ok (_, at_pos _ ?a) = Ok (_, at_pos _ ?b) =>
          replace a with b by lia
      end; reflexivity.
    + rewrite last_app_cons. discriminate.
  - apply andb_prop in Hv as [Hne Hitems].
    assert (Hne' : items <> []).
    { intros ->. discriminate. }
    pose proof (parse_field_enum rt n items [59%N] classes Hn Hne' Hitems
                  (word_char_semicolon rt classes) ltac:(discriminate))
      as Hf.
    cbn [hd] in Hf. rewrite N.eqb_refl in Hf.
    unfold str, codepoint in *. rewrite Hf. split.
    + rewrite length_app. cbn [List.length].
      rewrite length_app. cbn [List.length].
      match goal with
      | |- Ok (_, at_pos _ ?a) = Ok (_, at_pos _ ?b) =>
          replace a with b by lia
      end; reflexivity.
    + change (n ++ 58%N :: 101%N :: 91%N :: join_comma items ++ [59%N])
        with (n ++ [58%N; 101%N; 91%N] ++ join_comma items ++ [59%N]).
      rewrite !app_assoc, last_last. discriminate.
Qed.

Lemma field_text_not_nil (f : Field) : field_text f <> [].
Proof.
  unfold field_text. destruct (name f); discriminate.
Qed.

Lemma form_loop_one (s : str) (f : Field) (fuel : nat) (form : Form) :
  s <> [] ->
  FormParser.parse_field rt (at_pos s 0) = Ok (f, at_pos s (List.length s)) ->
  FormParser.form_loop rt (S fuel) form (at_pos s 0)
  = Ok (Form.add_field form f, at_pos s (List.length s)).
Proof.
  intros Hs Hf. cbn [FormParser.form_loop].
  replace (FormParser.cursor (at_pos s 0) <? FormParser.length (at_pos s 0))%nat
    with true
    by (destruct s; [congruence | reflexivity]).
  rewrite Hf. cbn [bind at_pos FormParser.char].
  rewrite nth_overflow by apply Nat.le_refl. reflexivity.
Qed.

Lemma parse_form_run_text (f : Field) :
  parsed_field f = true -> field_words rt f = true ->
  FormParser.parse_form_run rt (field_text f)
  = Ok ({| fields := [f] |},
        at_pos (field_text f) (List.length (field_text f))).
Proof.
  intros Hp Hw. rewrite parse_form_run_at by apply field_text_not_nil.
  destruct (parse_field_text f Hp Hw) as [Hf _].
  pose proof (field_text_not_nil f) as Hs.
  pose proof (form_loop_one (field_text f) f
                (Nat.pred (List.length (field_text f))) {| fields := [] |}
                Hs Hf) as Hl.
  replace (S (Nat.pred (List.length (field_text f))))
    with (List.length (field_text f)) in Hl
    by (destruct (field_text f); [congruence | reflexivity]).
  exact Hl.
Qed.

Lemma form_text_not_nil (f : Field) (fs : list Field) :
  form_text (f :: fs) <> [].
Proof.
  unfold form_text. cbn [map].
  pose proof (field_text_not_nil f) as Hs.
  destruct fs as [|f2 fs]; cbn [map join_comma]; [assumption|].
  destruct (field_text f); [congruence | discriminate].
Qed.

End FormText.

(** X22.  The parser reads back every form it can build: the text of a
    non-empty list of fields, each a string field or a field of fixed
    width whose name and enum items are words, parses to the form with
    these fields in the same order. *)
Theorem parse_form_text (rt : Runtime) (fs : list Field) :
  ascii_classes rt -> ascii_int rt ->
  fs <> [] ->
  forallb parsed_field fs = true ->
  forallb (field_words rt) fs = true ->
  FormParser.parse_form rt (form_text fs) = Ok {| fields := fs |}.
Proof.
  intros Hascii Hint.
  induction fs as [|f fs IH]; [congruence|]. intros _ Hp Hw.
  cbn [forallb] in Hp, Hw.
  apply andb_prop in Hp as [Hp Hps]. apply andb_prop in Hw as [Hw Hws].
  destruct fs as [|f2 fs].
  - unfold form_text. cbn [map join_comma]. unfold FormParser.parse_form.
    rewrite (parse_form_run_text rt Hascii Hint f Hp Hw). reflexivity.
  - unfold form_text.
    change (map field_text (f :: f2 :: fs))
      with (field_text f :: map field_text (f2 :: fs)).
    rewrite join_comma_cons by discriminate.
    fold (form_text (f2 :: fs)).
    destruct (parse_field_text rt Hascii Hint f Hp Hw) as [_ Hlast].
    assert (Hcomma :
              FormParser.parse_form rt
                (field_text f ++ 44%N :: form_text (f2 :: fs))
              = match FormParser.parse_form rt (form_text (f2 :: fs)) with
                | Ok form2 =>
                    Ok {| fields := fields {| fields := [f] |}
                                    ++ fields form2 |}
                | Raise e =>
                    Raise (shift_exn (S (List.length (field_text f))) e)
                end).
    { apply (parse_form_run_comma rt (field_text f) (form_text (f2 :: fs))
               (ascii_isalpha_NUL rt Hascii))
        with (st1 := at_pos (field_text f) (List.length (field_text f)));
        first [ assumption
              | reflexivity
              | apply form_text_not_nil
              | apply parse_form_run_text; assumption
              | destruct (Hascii 44%N) as (_ & _ & ->); reflexivity ]. }
    rewrite Hcomma, IH by (assumption || discriminate). reflexivity.
Qed.

Lemma parse_form_text_witness :
  FormParser.parse_form ascii_runtime
    (form_text
       [{| name := cps "id"; type := INTEGER; value := Bitsize 16 |};
        {| name := cps "kind"; type := ENUM;
           value := Items [cps "a"; cps "b_2"] |};
        {| name := cps "note"; type := STRING; value := NoValue |};
        {| name := cps "w"; type := FLOAT; value := Bitsize 64 |}])
  = Ok {| fields :=
       [{| name := cps "id"; type := INTEGER; value := Bitsize 16 |};
        {| name := cps "kind"; type := ENUM;
           value := Items [cps "a"; cps "b_2"] |};
        {| name := cps "note"; type := STRING; value := NoValue |};
        {| name := cps "w"; type := FLOAT; value := Bitsize 64 |}] |}.
Proof.
  apply (parse_form_text ascii_runtime).
  - exact ascii_runtime_classes.
  - exact ascii_runtime_int.
  - discriminate.
  - reflexivity.
  - reflexivity.
Defined.

(** ** Decoding stays inside the buffer *)

Lemma unpack_uint_needs (n : Z) (bs : list byte) (u : Z) :
  bitstring.unpack_uint n (bitstring.BitStream bs) = Ok u ->
  0 < n /\ n <= 8 * Z.of_nat (List.length bs).
Proof.
  unfold bitstring.unpack_uint, bitstring.BitStream. cbn [bitstring.len].
  destruct (n =? 0); [discriminate|].
  destruct (0 <? n) eqn:E1; [|discriminate].
  destruct (n <=? 8 * Z.of_nat (List.length bs)) eqn:E2; [|discriminate].
  intros _. apply Z.ltb_lt in E1. apply Z.leb_le in E2. auto.
Qed.

Section WithinBuffer.
Context (rt : Runtime).

Lemma decode_step_within (input : list byte) (f : Field)
  (obj obj' : dict (pyvalue rt)) (offset offset' : nat) :
  fixed_width f = true ->
  Form.decode_step rt input f (obj, offset) = Ok (obj', offset') ->
  exists sz,
    Field.size rt f = Ok sz /\ 0 < int_of_float sz /\
    offset' = (offset + Z.to_nat (int_of_float sz))%nat /\
    (offset' <= List.length input)%nat.
Proof.
  unfold fixed_width, Form.decode_step, Field.decode.
  destruct (type f) eqn:Ht, (value f) as [bits| |items] eqn:Hv;
    try discriminate; intros Hfw.
  - apply bitsize_cases in Hfw. cbn [Field.bitsize bind].
    unfold bitstring.unpack_int.
    destruct (bitstring.unpack_uint bits _) as [u|] eqn:Eu; [|discriminate].
    apply unpack_uint_needs in Eu as [Hpos Hle]. rewrite length_skipn in Hle.
    cbn [bind]. unfold Field.size. rewrite Ht, Hv. cbn [Field.bitsize bind].
    intros [= <- <-]. eexists. split; [reflexivity|].
    rewrite int_of_float_div8.
    assert (Hq : Z.quot bits 8 = bits / 8 /\ 8 * (bits / 8) = bits).
    { cbn [In] in Hfw.
      destruct Hfw as [<-|[<-|[<-|[<-|[]]]]]; split; reflexivity. }
    destruct Hq as [-> Hmul]. split; [lia|]. split; [reflexivity | lia].
  - assert (Hin : In bits [8; 16; 32; 64]).
    { apply bitsize_cases in Hfw. cbn [In] in Hfw |- *. tauto. }
    cbn [Field.bitsize bind].
    destruct (bitstring.unpack_uint bits _) as [u|] eqn:Eu; [|discriminate].
    apply unpack_uint_needs in Eu as [Hpos Hle]. rewrite length_skipn in Hle.
    cbn [bind].
    destruct (of_option ReadError (float_unpack rt bits u)); [|discriminate].
    cbn [bind]. unfold Field.size. rewrite Ht, Hv. cbn [Field.bitsize bind].
    intros [= <- <-]. eexists. split; [reflexivity|].
    rewrite int_of_float_div8.
    assert (Hq : Z.quot bits 8 = bits / 8 /\ 8 * (bits / 8) = bits).
    { cbn [In] in Hin.
      destruct Hin as [<-|[<-|[<-|[<-|[]]]]]; split; reflexivity. }
    destruct Hq as [-> Hmul]. split; [lia|]. split; [reflexivity | lia].
  - cbn [Field.items_of bind].
    destruct (bitstring.unpack_uint (Field.enum_bits rt items) _) as [i|] eqn:Eu;
      [|discriminate].
    apply unpack_uint_needs in Eu as [Hpos Hle]. rewrite length_skipn in Hle.
    cbn [bind].
    destruct (of_option IndexError (nth_error items (Z.to_nat i)));
      [|discriminate].
    cbn [bind]. rewrite (size_enum rt f items Ht Hv). cbn [bind].
    intros [= <- <-]. eexists. split; [reflexivity|].
    rewrite int_of_float_inject_Z.
    assert (Hb : 0 < (Field.enum_bits rt items + 7) / 8
                 /\ (Field.enum_bits rt items + 7) / 8
                    <= Z.of_nat (List.length input - offset))
      by (split; Z.div_mod_to_equations; lia).
    split; [lia|]. split; [reflexivity | lia].
Qed.

Lemma decode_loop_within (input : list byte) (fs : list Field) :
  forall (obj obj' : dict (pyvalue rt)) (offset offset' : nat),
  forallb fixed_width fs = true ->
  (offset <= List.length input)%nat ->
  Form.decode_loop rt fs input (obj, offset) = Ok (obj', offset') ->
  exists n,
    total_size rt fs = Ok n /\ 0 <= n /\
    offset' = (offset + Z.to_nat n)%nat /\
    (offset' <= List.length input)%nat.
Proof.
  induction fs as [|f fs IH]; intros obj obj' offset offset' Hfw Hoff;
    cbn [Form.decode_loop total_size forallb] in *.
  - intros [= <- <-]. exists 0. repeat split; [lia | cbn; lia | assumption].
  - apply andb_prop in Hfw as [Hf Hfs].
    destruct (Form.decode_step rt input f (obj, offset)) as [[obj1 off1]|]
      eqn:Es; [|discriminate].
    cbn [bind]. intros Hl.
    destruct (decode_step_within _ _ _ _ _ _ Hf Es)
      as (sz & -> & Hpos & -> & Hle).
    destruct (IH _ _ _ _ Hfs Hle Hl) as (n & -> & Hn & -> & Hle').
    cbn [bind]. eexists. split; [reflexivity|].
    split; [lia|]. split; [lia | assumption].
Qed.

End WithinBuffer.

(** X23.  [Form.decode] does not read past the buffer: when it returns an object
    for a form of fixed-width fields, the steps [int(field.size())] of the
    fields add up to no more than the length of the buffer, and a buffer
    that is shorter makes it raise. *)
Theorem form_decode_within_buffer (rt : Runtime) (form : Form)
  (input : list byte) (obj : dict (pyvalue rt)) :
  forallb fixed_width (fields form) = true ->
  Form.decode rt form input = Ok obj ->
  exists n,
    total_size rt (fields form) = Ok n /\
    0 <= n <= Z.of_nat (List.length input).
Proof.
  intros Hfw. unfold Form.decode.
  destruct (Form.decode_loop rt (fields form) input ([], 0%nat))
    as [[obj' off']|] eqn:El; [|discriminate].
  intros _.
  destruct (decode_loop_within rt input (fields form) [] obj' 0%nat off'
              Hfw (Nat.le_0_l _) El) as (n & Hn & Hpos & -> & Hle).
  exists n. split; [assumption | lia].
Qed.

Lemma form_decode_within_buffer_witness :
  exists n,
    total_size ascii_runtime
      (fields {| fields :=
                   [{| name := cps "a"; type := INTEGER; value := Bitsize 16 |};
                    {| name := cps "k"; type := ENUM;
                       value := Items [cps "x"; cps "y"] |}] |}) = Ok n /\
    0 <= n <= Z.of_nat (List.length [x01; x02; x40; xff]).
Proof.
  apply (form_decode_within_buffer ascii_runtime _ [x01; x02; x40; xff]
           [(cps "a", VInt 258); (cps "k", VStr (cps "y"))]).
  - reflexivity.
  - vm_compute. reflexivity.
Defined.

(** ** Integer and string fields: which texts are accepted *)

(** X24.  An integer field of [bits] bits accepts the texts that [int] reads as a
    number in the two's-complement range of [bits] bits, and writes
    [bits/8] bytes whose big-endian value is the number modulo [2^bits];
    a text [int] rejects is a [ValueError], a number out of range an error
    of [bitstring.pack]. *)
Theorem encode_integer_range (rt : Runtime) (f : Field) (bits : Z)
  (text : str) :
  type f = INTEGER -> value f = Bitsize bits -> In bits [8; 16; 32; 64] ->
  match int_of_str rt text with
  | None => Field.encode rt f text = Raise ValueError
  | Some z =>
      if (- 2 ^ (bits - 1) <=? z) && (z <? 2 ^ (bits - 1))
      then exists b,
             Field.encode rt f text = Ok b /\
             Z.of_nat (List.length b) = bits / 8 /\
             be_uint b = z mod 2 ^ bits
      else Field.encode rt f text = Raise CreationError
  end.
Proof.
  intros Ht Hv Hbits. unfold Field.encode. rewrite Ht, Hv.
  destruct (int_of_str rt text) as [z|]; cbn [of_option bind Field.bitsize];
    [|reflexivity].
  assert (Hb : 0 < bits /\ (bits + 7) / 8 = bits / 8 /\ 8 * (bits / 8) = bits).
  { cbn [In] in Hbits.
    destruct Hbits as [<-|[<-|[<-|[<-|[]]]]]; repeat split; reflexivity. }
  destruct Hb as (Hpos & Hceil & Hmul).
  unfold bitstring.pack_int.
  replace (0 <? bits) with true by (symmetry; apply Z.ltb_lt; assumption).
  cbn [andb].
  destruct ((- 2 ^ (bits - 1) <=? z) && (z <? 2 ^ (bits - 1))); cbn [bind];
    [|reflexivity].
  eexists. split; [reflexivity|].
  assert (Hmod : 0 <= z mod 2 ^ bits < 2 ^ bits)
    by (apply Z.mod_pos_bound, Z.pow_pos_nonneg; lia).
  split.
  - rewrite length_tobytes. cbn [bitstring.len]. rewrite Hceil.
    apply Z2Nat.id. lia.
  - rewrite be_uint_tobytes by assumption.
    rewrite Hceil, Hmul, Z.sub_diag. apply Z.mul_1_r.
Qed.

Lemma encode_integer_range_witness :
  match int_of_str ascii_runtime (cps "-129") with
  | None =>
      Field.encode ascii_runtime
        {| name := cps "n"; type := INTEGER; value := Bitsize 8 |}
        (cps "-129") = Raise ValueError
  | Some z =>
      if (- 2 ^ (8 - 1) <=? z) && (z <? 2 ^ (8 - 1))
      then exists b,
             Field.encode ascii_runtime
               {| name := cps "n"; type := INTEGER; value := Bitsize 8 |}
               (cps "-129") = Ok b /\
             Z.of_nat (List.length b) = 8 / 8 /\
             be_uint b = z mod 2 ^ 8
      else Field.encode ascii_runtime
             {| name := cps "n"; type := INTEGER; value := Bitsize 8 |}
             (cps "-129") = Raise CreationError
  end.
Proof.
  apply (encode_integer_range ascii_runtime
           {| name := cps "n"; type := INTEGER; value := Bitsize 8 |} 8
           (cps "-129")).
  - reflexivity.
  - reflexivity.
  - cbn. auto.
Defined.

(** X25.  A string field accepts the ASCII texts and no others: an ASCII text is
    written as its characters followed by a NUL byte, and a text with a
    character above U+007F raises. *)
Theorem encode_string_accepts_ascii (rt : Runtime) (f : Field) (text : str) :
  type f = STRING ->
  match Field.encode rt f text with
  | Ok b => forallb is_ascii text = true /\ b = map utf8.put text ++ [x00]
  | Raise _ => forallb is_ascii text = false
  end.
Proof.
  intros Ht. pose proof (encode_string_ascii_only rt f text Ht) as H.
  destruct (forallb is_ascii text).
  - rewrite H. auto.
  - destruct H as [e ->]. reflexivity.
Qed.

Lemma encode_string_accepts_ascii_witness :
  match Field.encode ascii_runtime
          {| name := cps "s"; type := STRING; value := NoValue |}
          [104; 233]%N with
  | Ok b => forallb is_ascii [104; 233]%N = true
            /\ b = map utf8.put [104; 233]%N ++ [x00]
  | Raise _ => forallb is_ascii [104; 233]%N = false
  end.
Proof.
  apply (encode_string_accepts_ascii ascii_runtime
           {| name := cps "s"; type := STRING; value := NoValue |}
           [104; 233]%N).
  reflexivity.
Defined.

Lemma decode_step_string_witness :
  exists (zero_at : nat) (s : str),
    index byte_eqb x00 (skipn 1 [x01; x68; x69; x00; x02]) = Some zero_at /\
    Field.decode ascii_runtime
      {| name := cps "s"; type := STRING; value := NoValue |}
      [x01; x68; x69; x00; x02] 1 = Ok (VStr s) /\
    4%nat = (1 + (List.length s + 1))%nat /\
    if forallb is_ascii
         (map Byte.to_N (slice 1 (1 + zero_at) [x01; x68; x69; x00; x02]))
    then 4%nat = (1 + (zero_at + 1))%nat
    else (4 < 1 + (zero_at + 1))%nat.
Proof.
  apply (decode_step_string ascii_runtime [x01; x68; x69; x00; x02]
           {| name := cps "s"; type := STRING; value := NoValue |}
           [] [(cps "s", VStr (cps "hi"))] 1 4).
  - reflexivity.
  - reflexivity.
Defined.

Lemma parse_form_returns_witness :
  (exists form, FormParser.parse_form ascii_runtime (cps "a:e[x,") = Ok form) \/
  (exists e, FormParser.parse_form ascii_runtime (cps "a:e[x,") = Raise e
             /\ e <> Diverges).
Proof.
  apply (parse_form_returns ascii_runtime (cps "a:e[x,")).
  exact ascii_runtime_classes.
Defined.

Lemma parse_form_parsed_witness :
  forallb parsed_field
    (fields {| fields :=
                 [{| name := cps "a"; type := FLOAT; value := Bitsize 32 |};
                  {| name := cps "b"; type := STRING; value := NoValue |}] |})
  = true.
Proof.
  apply (parse_form_parsed ascii_runtime (cps "a:f,b:s")).
  reflexivity.
Defined.
